(** * pymilvus.orm.schema: field and collection descriptors, field inference
      and reconciliation, embedded from [src/pymilvus/orm/schema.py].

    Python objects are embedded as follows.
    - Exceptions: a [result] type; [Raise e] is a raised exception, and the
      stdpp bind notation [x ← m; k] threads it as Python's control flow does.
    - Dynamically typed values (keyword arguments, cells of a payload): the
      inductive [pyval], a fragment of Python's values.
    - [**kwargs] and [_type_params]: [gmap string pyval].
    - Object references ([CollectionSchema._primary_field] points into
      [CollectionSchema._fields]): an index into the field list, so that a
      write through the reference is seen through the list. *)

From stdpp Require Import gmap strings list fin_maps.
From Stdlib Require Import ZArith.

Local Open Scope string_scope.

(** ** Exceptions and results *)

(** Modelled from the spec: the [DataType] enumeration of
    [pymilvus/orm/types.py], which is not part of the sources at hand. The
    members that [schema.py] names are listed; [OTHER] stands for any further
    member, identified by its numeric value. *)
Inductive DataType :=
  | BOOL | INT8 | INT16 | INT32 | INT64 | FLOAT | DOUBLE | VARCHAR
  | BINARY_VECTOR | FLOAT_VECTOR | UNKNOWN | OTHER (code : Z).

Global Instance DataType_eq_dec : EqDecision DataType.
Proof. solve_decision. Defined.

(** Python floats: only what the code observes (truth value, NaN-ness). *)
Inductive pyfloat := FNaN | FInf (negative : bool) | FFin (mantissa exponent : Z).

Global Instance pyfloat_eq_dec : EqDecision pyfloat.
Proof. solve_decision. Defined.

(** [schema_types.ValueField]: a protobuf message with a oneof [data]. *)
Inductive vf_field :=
  bool_data | int_data | long_data | float_data | double_data | string_data.

Inductive scalar := SBool (b : bool) | SInt (z : Z) | SFloat (x : pyfloat) | SStr (s : string).

Inductive ValueField := MkValueField (data : option (vf_field * scalar)).

Definition WhichOneof (v : ValueField) : option vf_field :=
  match v with MkValueField d => fst <$> d end.

Global Instance vf_field_eq_dec : EqDecision vf_field.
Proof. solve_decision. Defined.
Global Instance scalar_eq_dec : EqDecision scalar.
Proof. solve_decision. Defined.
Global Instance ValueField_eq_dec : EqDecision ValueField.
Proof. solve_decision. Defined.

Local Set Warnings "-register-all".

(** The fragment of Python values the model ranges over. [VDict] is a [dict]
    with string keys, in insertion order. *)
Inductive pyval :=
  | VNone
  | VBool (b : bool)
  | VInt (z : Z)
  | VFloat (x : pyfloat)
  | VStr (s : string)
  | VBytes (bs : list Z)
  | VList (l : list pyval)
  | VDict (items : list (string * pyval))
  | VValueField (v : ValueField).

Lemma pyval_eq_dec_aux : ∀ a b : pyval, {a = b} + {a ≠ b}.
Proof.
  fix IH 1. intros a b. decide equality; try solve_decision.
  - refine (list_eq_dec (dec := _) _ _). intros [s1 v1] [s2 v2].
    destruct (decide (s1 = s2)) as [->|]; [|right; congruence].
    destruct (IH v1 v2) as [->|]; [left; reflexivity|right; congruence].
Defined.

Global Instance pyval_eq_dec : EqDecision pyval := pyval_eq_dec_aux.

(** [ExceptionsMessage] members and the messages built in place; a formatted
    message keeps the values it is formatted from. *)
Inductive message :=
  | PrimaryKeyNotExist | PrimaryKeyType | PartitionKeyNotPrimary
  | PartitionKeyType | PartitionKeyFieldNotExist (hint : pyval)
  | FieldsType | PrimaryFieldType | PartitionKeyFieldType | FieldType
  | AutoIDType
  | PrimaryKeyOnlyOne (first second : pyval)
  | PartitionKeyOnlyOne (first second : pyval)
  | FieldDtype | IsPrimaryType | AutoIDOnlyOnPK | IsPartitionKeyType
  | DataFrameInvalid | UpsertAutoIDTrue | NoSchema | EmptySchema | NoVector
  | SchemaIsNone
  | DataShouldBeListOrDataFrameOrDict
  | DataShouldBeListOrDataFrame
  | DataShouldBeListOfList
  | ExpectNoDataForAutoID (primary : string)
  | FieldsDontMatch (expected got : list string)
  | DtypeDontMatch (field : string) (expected got : DataType)
  | NameDontMatch (expected got : string)
  | DefaultValueUnsupported (d : DataType).

Inductive exn :=
  | AutoIDException (m : message)
  | CannotInferSchemaException (m : message)
  | DataNotMatchException (m : message)
  | DataTypeNotSupportException (m : message)
  | FieldsTypeException (m : message)
  | FieldTypeException (m : message)
  | ParamError (m : message)
  | PartitionKeyException (m : message)
  | PrimaryKeyException (m : message)
  | SchemaNotReadyException (m : message)
  | UpsertAutoIDTrueException (m : message)
  | AttributeError | IndexError | KeyError | TypeError | ValueError.

Inductive result (A : Type) :=
  | OK (a : A)
  | Raise (e : exn).
Arguments OK {A} a.
Arguments Raise {A} e.

Global Instance result_ret : MRet result := @OK.
Global Instance result_bind : MBind result := λ A B f m,
  match m with OK a => f a | Raise e => Raise e end.

(** [for x in xs: f(x)] collecting the results, stopping at the first raise. *)
Fixpoint mapR {A B} (f : A → result B) (xs : list A) : result (list B) :=
  match xs with
  | [] => OK []
  | x :: xs' => y ← f x; ys ← mapR f xs'; OK (y :: ys)
  end.

(** ** Python primitives on [pyval] *)

(** [bool(v)] *)
Definition truthy (v : pyval) : bool :=
  match v with
  | VNone => false
  | VBool b => b
  | VInt z => negb (z =? 0)%Z
  | VFloat (FFin m _) => negb (m =? 0)%Z
  | VFloat _ => true
  | VStr s => negb (String.eqb s "")
  | VBytes bs => negb (bool_decide (bs = []))
  | VList l => match l with [] => false | _ => true end
  | VDict l => match l with [] => false | _ => true end
  | VValueField _ => true
  end.

Definition is_None (v : pyval) : bool :=
  match v with VNone => true | _ => false end.
Definition isinstance_bool (v : pyval) : bool :=
  match v with VBool _ => true | _ => false end.
Definition isinstance_str (v : pyval) : bool :=
  match v with VStr _ => true | _ => false end.

(** [v == s] for a [str] object [s]: only an equal [str] compares equal. *)
Definition eq_str (v : pyval) (s : string) : bool :=
  match v with VStr s' => String.eqb s' s | _ => false end.

(** [d.get(k, default)] *)
Definition get (d : gmap string pyval) (k : string) (dflt : pyval) : pyval :=
  default dflt (d !! k).

(** [k in d] *)
Definition contains (d : gmap string pyval) (k : string) : bool :=
  bool_decide (is_Some (d !! k)).

(** [len(v)] *)
Definition py_len (v : pyval) : result nat :=
  match v with
  | VStr s => OK (String.length s)
  | VBytes bs => OK (length bs)
  | VList l => OK (length l)
  | VDict l => OK (length l)
  | _ => Raise TypeError
  end.

(** [v[0]] *)
Definition getitem0 (v : pyval) : result pyval :=
  match v with
  | VList (x :: _) => OK x
  | VStr (String c _) => OK (VStr (String c ""))
  | VBytes (b :: _) => OK (VInt b)
  | VList [] | VStr "" | VBytes [] => Raise IndexError
  | VDict _ => Raise KeyError
  | _ => Raise TypeError
  end.

(** pandas' [is_list_like]: iterable and neither [str] nor [bytes]. *)
Definition is_list_like (v : pyval) : bool :=
  match v with VList _ | VDict _ => true | _ => false end.

(** pandas' [isnull] on one cell. *)
Definition isnull (v : pyval) : bool :=
  match v with VNone | VFloat FNaN => true | _ => false end.

(** ** Collaborators

    What [schema.py] imports and the sources at hand do not define: the
    constant [COMMON_TYPE_PARAMS] of [orm/constants.py]; pandas' [is_scalar];
    [infer_dtype_by_scaladata], [infer_dtype_bydata] and
    [map_numpy_dtype_to_datatype] of [orm/types.py] (a numpy dtype is given by
    its name); and the protobuf setter of a [ValueField] member, which yields
    the scalar stored or the exception raised for a value the member does not
    take. *)
Class Collaborators := {
  COMMON_TYPE_PARAMS : list string;
  is_scalar : pyval → bool;
  infer_dtype_by_scaladata : pyval → DataType;
  infer_dtype_bydata : pyval → DataType;
  map_numpy_dtype_to_datatype : string → DataType;
  proto_set : vf_field → pyval → result scalar;
}.

(** ** Field descriptor *)

(** The constructor argument [dtype]: a member of the enumeration (or its
    numeric value), or anything else, for which [DataType(dtype)] raises
    [ValueError]. *)
Inductive dtype_arg := Dtype (d : DataType) | NotADtype (v : pyval).

(** The attributes an instance of [FieldSchema] stores. *)
Record FieldSchema := mkFieldSchema {
  name : string;
  _dtype : DataType;
  _description : string;
  _type_params : gmap string pyval;
  _kwargs : gmap string pyval;
  is_primary : bool;
  is_dynamic : pyval;
  auto_id : pyval;
  is_partition_key : bool;
  default_value : option ValueField;
}.

Definition dtype (f : FieldSchema) : DataType := _dtype f.
Definition params (f : FieldSchema) : gmap string pyval := _type_params f.
Definition description (f : FieldSchema) : string := _description f.

(** Attribute assignments [f.is_primary = b] and the like. *)
Definition set_is_primary (b : bool) (f : FieldSchema) : FieldSchema :=
  mkFieldSchema (name f) (_dtype f) (_description f) (_type_params f) (_kwargs f)
    b (is_dynamic f) (auto_id f) (is_partition_key f) (default_value f).
Definition set_is_partition_key (b : bool) (f : FieldSchema) : FieldSchema :=
  mkFieldSchema (name f) (_dtype f) (_description f) (_type_params f) (_kwargs f)
    (is_primary f) (is_dynamic f) (auto_id f) b (default_value f).
Definition set_auto_id (v : pyval) (f : FieldSchema) : FieldSchema :=
  mkFieldSchema (name f) (_dtype f) (_description f) (_type_params f) (_kwargs f)
    (is_primary f) (is_dynamic f) v (is_partition_key f) (default_value f).
Definition set_default_value (v : option ValueField) (f : FieldSchema) : FieldSchema :=
  mkFieldSchema (name f) (_dtype f) (_description f) (_type_params f) (_kwargs f)
    (is_primary f) (is_dynamic f) (auto_id f) (is_partition_key f) v.

(** The mapping [FieldSchema.to_dict] builds and
    [FieldSchema.construct_from_dict] reads: one optional entry per key
    either of them touches; ["name"] and ["type"] are read with [raw[...]]. *)
Record field_dict := mkFieldDict {
  d_name : string;
  d_type : dtype_arg;
  d_description : option string;
  d_params : option (gmap string pyval);
  d_is_primary : option pyval;
  d_auto_id : option pyval;
  d_is_partition_key : option pyval;
  d_default_value : option pyval;
  d_is_dynamic : option pyval;
}.

Global Instance dtype_arg_eq_dec : EqDecision dtype_arg.
Proof. solve_decision. Defined.
Global Instance field_dict_eq_dec : EqDecision field_dict.
Proof. solve_decision. Defined.

(** Parameter names of [def __init__(self, name, dtype, description, **kwargs)]. *)
Definition init_parameters : list string := ["self"; "name"; "dtype"; "description"].

(** Keys that [construct_from_dict] writes into the keyword arguments. *)
Definition reserved_kwargs : list string :=
  ["is_primary"; "auto_id"; "is_partition_key"; "default_value"; "is_dynamic"].

Definition has_type_params (d : DataType) : bool :=
  match d with BINARY_VECTOR | FLOAT_VECTOR | VARCHAR => true | _ => false end.

(** [dtype in [DataType.INT64, DataType.VARCHAR]] *)
Definition is_key_dtype (d : DataType) : bool :=
  match d with INT64 | VARCHAR => true | _ => false end.

(** [FieldSchema.to_dict]: the mapping returned. *)
Definition FieldSchema_to_dict (f : FieldSchema) : field_dict :=
  {| d_name := name f;
     d_type := Dtype (dtype f);
     d_description := Some (_description f);
     d_params := if bool_decide (_type_params f = ∅) then None else Some (params f);
     d_is_primary := if is_primary f then Some (VBool true) else None;
     d_auto_id := if is_primary f then Some (auto_id f) else None;
     d_is_partition_key := if is_partition_key f then Some (VBool true) else None;
     d_default_value :=
       match default_value f with
       | None => None
       | Some v => Some (match WhichOneof v with None => VNone | Some _ => VValueField v end)
       end;
     d_is_dynamic := if truthy (is_dynamic f) then Some (is_dynamic f) else None |}.

(** [FieldSchema.to_dict]: the object afterwards. A [default_value] with no
    member set is replaced by [None] on the way. *)
Definition FieldSchema_to_dict_self (f : FieldSchema) : FieldSchema :=
  match default_value f with
  | Some v => match WhichOneof v with None => set_default_value None f | Some _ => f end
  | None => f
  end.

(** [FieldSchema.__eq__], for two [FieldSchema] objects:
    [self.to_dict() == other.to_dict()]. The two mappings are compared by
    structural equality. That is Python's [==] when the values held on both
    sides are the same objects or copies of the same objects, which is the
    case wherever the function is used below; [==] between numbers of
    different types ([1 == True], [8 == 8.0]) and between two NaN objects is
    not modelled. *)
Definition FieldSchema_eq (f g : FieldSchema) : bool :=
  bool_decide (FieldSchema_to_dict f = FieldSchema_to_dict g).

(** [FieldSchema.__getattr__] *)
Definition __getattr__ (f : FieldSchema) (item : string) : pyval :=
  if negb (bool_decide (_type_params f = ∅)) && contains (_type_params f) item
  then default VNone (_type_params f !! item)
  else VNone.

(** Names that ordinary attribute lookup resolves on a [FieldSchema] object:
    the attributes [__init__] stores and the names the class body defines.
    [__getattr__] is consulted for the others. *)
Definition instance_attributes : list string :=
  ["name"; "_dtype"; "_description"; "_type_params"; "_kwargs"; "is_primary";
   "is_dynamic"; "auto_id"; "is_partition_key"; "default_value"].
Definition class_attributes : list string :=
  ["__init__"; "__repr__"; "__deepcopy__"; "_parse_type_params";
   "construct_from_dict"; "to_dict"; "__getattr__"; "__eq__"; "description";
   "params"; "dtype"].

Inductive attribute :=
  | Found (item : string)
  | Fallback (v : pyval).

(** [f.item]; [inherited] tells the names resolved through [object]. *)
Definition getattr (inherited : string → bool) (f : FieldSchema) (item : string)
    : attribute :=
  if bool_decide (item ∈ (instance_attributes ++ class_attributes)%list) || inherited item
  then Found item
  else Fallback (__getattr__ f item).

Section FieldDescriptor.
Context `{Collaborators}.

Definition assign (m : vf_field) (data : pyval) : result (option ValueField) :=
  s ← proto_set m data; OK (Some (MkValueField (Some (m, s)))).

Definition infer_default_value_bydata (data : pyval) : result (option ValueField) :=
  if is_None data then OK None
  else
    let d_type := if is_scalar data then infer_dtype_by_scaladata data else UNKNOWN in
    match d_type with
    | BOOL => assign bool_data data
    | INT8 | INT16 | INT32 => assign int_data data
    | INT64 => assign long_data data
    | FLOAT => assign float_data data
    | DOUBLE => assign double_data data
    | VARCHAR => assign string_data data
    | _ => Raise (ParamError (DefaultValueUnsupported d_type))
    end.

(** [FieldSchema._parse_type_params]: the value of [_type_params] it leaves,
    starting from the empty mapping [__init__] has just stored. *)
Definition _parse_type_params (d : DataType) (kwargs : gmap string pyval)
    : gmap string pyval :=
  if negb (has_type_params d) then ∅
  else if bool_decide (kwargs = ∅) then ∅
  else
    fold_left (λ tp k, match kwargs !! k with Some v => <[k:=v]> tp | None => tp end)
      COMMON_TYPE_PARAMS ∅.

(** [FieldSchema.__init__]; [kwargs] holds the keyword arguments that are
    left once [name], [dtype] and [description] are bound. *)
Definition FieldSchema_init (name : string) (dtype : dtype_arg)
    (description : string) (kwargs : gmap string pyval) : result FieldSchema :=
  dtype ← match dtype with
          | Dtype d => OK d
          | NotADtype _ => Raise (DataTypeNotSupportException FieldDtype)
          end;
  if bool_decide (dtype = UNKNOWN) then Raise (DataTypeNotSupportException FieldDtype) else
  is_primary ← match get kwargs "is_primary" (VBool false) with
               | VBool b => OK b
               | _ => Raise (PrimaryKeyException IsPrimaryType)
               end;
  let is_dynamic := get kwargs "is_dynamic" (VBool false) in
  auto_id ← match kwargs !! "auto_id" with
            | None => OK (VBool false)
            | Some (VBool a) =>
                if negb is_primary && a then Raise (PrimaryKeyException AutoIDOnlyOnPK)
                else OK (VBool a)
            | Some _ => Raise (AutoIDException AutoIDType)
            end;
  is_partition_key ← match get kwargs "is_partition_key" (VBool false) with
                     | VBool b => OK b
                     | _ => Raise (PartitionKeyException IsPartitionKeyType)
                     end;
  default_value ← match get kwargs "default_value" VNone with
                  | VValueField v =>
                      OK (match WhichOneof v with None => None | Some _ => Some v end)
                  | data => infer_default_value_bydata data
                  end;
  OK (mkFieldSchema name dtype description (_parse_type_params dtype kwargs) kwargs
        is_primary is_dynamic auto_id is_partition_key default_value).

(** The call [FieldSchema(name, dtype, description, **kwargs)] with a
    mapping spread into the keyword arguments: a key that names a parameter
    already bound is a [TypeError]. *)
Definition FieldSchema_call (name : string) (dtype : dtype_arg)
    (description : string) (kwargs : gmap string pyval) : result FieldSchema :=
  if existsb (contains kwargs) init_parameters then Raise TypeError
  else FieldSchema_init name dtype description kwargs.

(** The keyword arguments [FieldSchema.construct_from_dict] collects. *)
Definition dict_kwargs (raw : field_dict) : gmap string pyval :=
  let kwargs := default ∅ (d_params raw) in
  let kwargs := <["is_primary" := default (VBool false) (d_is_primary raw)]> kwargs in
  let kwargs := match d_auto_id raw with
                | Some v => if is_None v then kwargs else <["auto_id" := v]> kwargs
                | None => kwargs
                end in
  let kwargs := <["is_partition_key" := default (VBool false) (d_is_partition_key raw)]>
                  kwargs in
  let kwargs := <["default_value" := default VNone (d_default_value raw)]> kwargs in
  <["is_dynamic" := default (VBool false) (d_is_dynamic raw)]> kwargs.

(** [FieldSchema.construct_from_dict] *)
Definition FieldSchema_construct_from_dict (raw : field_dict) : result FieldSchema :=
  FieldSchema_call (d_name raw) (d_type raw) (default "" (d_description raw))
    (dict_kwargs raw).

(** [FieldSchema.__deepcopy__] *)
Definition deepcopy (f : FieldSchema) : result FieldSchema :=
  FieldSchema_construct_from_dict (FieldSchema_to_dict f).

End FieldDescriptor.

(** ** Collection descriptor *)

(** The constructor argument [fields]: a list whose elements are
    [FieldSchema] objects or other values, or something that is not a list. *)
Inductive fields_arg :=
  | NotAList (v : pyval)
  | FieldList (l : list (FieldSchema + pyval)).

(** The attributes an instance of [CollectionSchema] stores. The two
    references into [_fields] are kept as positions. *)
Record CollectionSchema := mkCollectionSchema {
  cs_kwargs : gmap string pyval;
  cs_fields : list FieldSchema;
  cs_description : string;
  cs_enable_dynamic_field : pyval;
  cs_primary_field : option nat;
  cs_partition_key_field : option nat;
}.

(** The properties [fields], [primary_field] and [partition_key_field]. *)
Definition fields (s : CollectionSchema) : list FieldSchema := cs_fields s.
Definition primary_field (s : CollectionSchema) : option FieldSchema :=
  i ← cs_primary_field s; cs_fields s !! i.
Definition partition_key_field (s : CollectionSchema) : option FieldSchema :=
  i ← cs_partition_key_field s; cs_fields s !! i.

(** The property [auto_id]: [self.primary_field.auto_id]. *)
Definition CollectionSchema_auto_id (s : CollectionSchema) : result pyval :=
  match primary_field s with
  | Some f => OK (auto_id f)
  | None => Raise AttributeError
  end.

(** The setter of the property [auto_id]: the object afterwards. The write
    goes through the reference to the primary field. *)
Definition CollectionSchema_set_auto_id (value : pyval) (s : CollectionSchema)
    : CollectionSchema :=
  match cs_primary_field s, primary_field s with
  | Some i, Some _ =>
      mkCollectionSchema (cs_kwargs s)
        (alter (set_auto_id (VBool (truthy value))) i (cs_fields s))
        (cs_description s) (cs_enable_dynamic_field s)
        (cs_primary_field s) (cs_partition_key_field s)
  | _, _ => s
  end.

(** The property [enable_dynamic_field] and its setter. *)
Definition enable_dynamic_field (s : CollectionSchema) : pyval :=
  cs_enable_dynamic_field s.
Definition CollectionSchema_set_enable_dynamic_field (value : pyval)
    (s : CollectionSchema) : CollectionSchema :=
  mkCollectionSchema (cs_kwargs s) (cs_fields s) (cs_description s)
    (VBool (truthy value)) (cs_primary_field s) (cs_partition_key_field s).

(** [CollectionSchema.__len__] *)
Definition CollectionSchema_len (s : CollectionSchema) : nat := length (fields s).

(** The mapping [CollectionSchema.to_dict] builds and
    [CollectionSchema.construct_from_dict] reads. *)
Record collection_dict := mkCollectionDict {
  c_auto_id : option pyval;
  c_description : option string;
  c_fields : list field_dict;
  c_enable_dynamic_field : option pyval;
}.

Global Instance collection_dict_eq_dec : EqDecision collection_dict.
Proof. solve_decision. Defined.

(** [validate_primary_key] *)
Definition validate_primary_key (primary_field : option FieldSchema) : result unit :=
  match primary_field with
  | None => Raise (PrimaryKeyException PrimaryKeyNotExist)
  | Some f =>
      if negb (is_key_dtype (dtype f)) then Raise (PrimaryKeyException PrimaryKeyType)
      else OK ()
  end.

(** [validate_partition_key]. In the first branch the exception object is
    built and dropped: there is no [raise] in front of it. *)
Definition validate_partition_key (partition_key_field_name : pyval)
    (partition_key_field : option FieldSchema) (primary_field_name : string)
    : result unit :=
  match partition_key_field with
  | Some f =>
      let _ := if String.eqb (name f) primary_field_name
               then Some (PartitionKeyException PartitionKeyNotPrimary) else None in
      if negb (is_key_dtype (dtype f)) then Raise (PartitionKeyException PartitionKeyType)
      else OK ()
  | None =>
      if negb (is_None partition_key_field_name)
      then Raise (PartitionKeyException (PartitionKeyFieldNotExist partition_key_field_name))
      else OK ()
  end.

(** The local variables of the loop of [_check_fields], with the two
    references it assigns. *)
Record scan := mkScan {
  primary_field_name : pyval;
  partition_key_field_name : pyval;
  primary_ref : option nat;
  partition_ref : option nat;
}.

(** One iteration of the loop of [_check_fields], on the field at position [i]. *)
Definition check_field (i : nat) (field : FieldSchema) (st : scan)
    : result (FieldSchema * scan) :=
  let field := if eq_str (primary_field_name st) (name field)
               then set_is_primary true field else field in
  let field := if eq_str (partition_key_field_name st) (name field)
               then set_is_partition_key true field else field in
  st ← (if is_primary field then
          if negb (is_None (primary_field_name st))
             && negb (eq_str (primary_field_name st) (name field))
          then Raise (PrimaryKeyException
                        (PrimaryKeyOnlyOne (primary_field_name st) (VStr (name field))))
          else OK (mkScan (VStr (name field)) (partition_key_field_name st)
                     (Some i) (partition_ref st))
        else OK st);
  st ← (if is_partition_key field then
          if negb (is_None (partition_key_field_name st))
             && negb (eq_str (partition_key_field_name st) (name field))
          then Raise (PartitionKeyException
                        (PartitionKeyOnlyOne (partition_key_field_name st) (VStr (name field))))
          else OK (mkScan (primary_field_name st) (VStr (name field))
                     (primary_ref st) (Some i))
        else OK st);
  OK (field, st).

(** [for field in self._fields: ...] of [_check_fields], from position [i] on. *)
Fixpoint check_fields_loop (i : nat) (fields : list FieldSchema) (st : scan)
    : result (list FieldSchema * scan) :=
  match fields with
  | [] => OK ([], st)
  | field :: rest =>
      '(field', st') ← check_field i field st;
      '(rest', st'') ← check_fields_loop (S i) rest st';
      OK (field' :: rest', st'')
  end.

(** [CollectionSchema._check_fields] *)
Definition _check_fields (s : CollectionSchema) : result CollectionSchema :=
  let st := mkScan (get (cs_kwargs s) "primary_field" VNone)
              (get (cs_kwargs s) "partition_key_field" VNone)
              (cs_primary_field s) (cs_partition_key_field s) in
  '(fields, st) ← check_fields_loop 0 (cs_fields s) st;
  let primary := i ← primary_ref st; fields !! i in
  let partition := i ← partition_ref st; fields !! i in
  _ ← validate_primary_key primary;
  primary_name ← match primary with
                 | Some f => OK (name f)
                 | None => Raise AttributeError
                 end;
  _ ← validate_partition_key (partition_key_field_name st) partition primary_name;
  let auto_id := get (cs_kwargs s) "auto_id" (VBool false) in
  let fields := if truthy auto_id
                then match primary_ref st with
                     | Some i => alter (set_auto_id auto_id) i fields
                     | None => fields
                     end
                else fields in
  OK (mkCollectionSchema (cs_kwargs s) fields (cs_description s)
        (cs_enable_dynamic_field s) (primary_ref st) (partition_ref st)).

(** [CollectionSchema._check_kwargs]. It returns nothing; the model hands
    back [self._fields], whose elements are now known to be [FieldSchema]
    objects. *)
Definition _check_kwargs (kwargs : gmap string pyval) (fields : list (FieldSchema + pyval))
    : result (list FieldSchema) :=
  let primary_field_name := get kwargs "primary_field" VNone in
  let partition_key_field_name := get kwargs "partition_key_field" VNone in
  if negb (is_None primary_field_name) && negb (isinstance_str primary_field_name)
  then Raise (PrimaryKeyException PrimaryFieldType) else
  if negb (is_None partition_key_field_name) && negb (isinstance_str partition_key_field_name)
  then Raise (PartitionKeyException PartitionKeyFieldType) else
  fs ← mapR (λ field, match field with
                      | inl f => OK f
                      | inr _ => Raise (FieldTypeException FieldType)
                      end) fields;
  match kwargs !! "auto_id" with
  | Some v => if negb (isinstance_bool v) then Raise (AutoIDException AutoIDType) else OK fs
  | None => OK fs
  end.

(** [CollectionSchema._check], on an object whose [_fields] holds
    [FieldSchema] objects: the object afterwards. *)
Definition _check (s : CollectionSchema) : result CollectionSchema :=
  _ ← _check_kwargs (cs_kwargs s) (inl <$> cs_fields s);
  _check_fields s.

(** [CollectionSchema.verify] *)
Definition verify (s : CollectionSchema) : result CollectionSchema := _check s.

Section CollectionDescriptor.
Context `{Collaborators}.

(** [copy.deepcopy(field)] on an element of [fields]. *)
Definition deepcopy_elem (field : FieldSchema + pyval) : result (FieldSchema + pyval) :=
  match field with
  | inl f => f' ← deepcopy f; OK (inl f')
  | inr v => OK (inr v)
  end.

(** [CollectionSchema.__init__] *)
Definition CollectionSchema_init (fields : fields_arg) (description : string)
    (kwargs : gmap string pyval) : result CollectionSchema :=
  let enable_dynamic_field := get kwargs "enable_dynamic_field" (VBool false) in
  match fields with
  | NotAList _ => Raise (FieldsTypeException FieldsType)
  | FieldList l =>
      copies ← mapR deepcopy_elem l;
      fs ← _check_kwargs kwargs copies;
      let s := mkCollectionSchema kwargs fs description enable_dynamic_field None None in
      if truthy (get kwargs "check_fields" (VBool true)) then _check_fields s else OK s
  end.

(** [CollectionSchema.to_dict] *)
Definition CollectionSchema_to_dict (s : CollectionSchema) : result collection_dict :=
  a ← CollectionSchema_auto_id s;
  OK {| c_auto_id := Some a;
        c_description := Some (cs_description s);
        c_fields := FieldSchema_to_dict <$> cs_fields s;
        c_enable_dynamic_field :=
          if truthy (cs_enable_dynamic_field s)
          then Some (cs_enable_dynamic_field s) else None |}.

(** [CollectionSchema.construct_from_dict] *)
Definition CollectionSchema_construct_from_dict (raw : collection_dict)
    : result CollectionSchema :=
  fields ← mapR FieldSchema_construct_from_dict (c_fields raw);
  let enable_dynamic_field := default (VBool false) (c_enable_dynamic_field raw) in
  CollectionSchema_init (FieldList (inl <$> fields)) (default "" (c_description raw))
    {[ "enable_dynamic_field" := enable_dynamic_field ]}.

(** [CollectionSchema.__eq__] *)
Definition CollectionSchema_eq (s t : CollectionSchema) : result bool :=
  a ← CollectionSchema_to_dict s;
  b ← CollectionSchema_to_dict t;
  OK (bool_decide (a = b)).

(** [CollectionSchema.add_field]: the object afterwards, which is also the
    object returned. [description] is the keyword argument of that name,
    [""] when it is not given, and [kwargs] holds the other ones. *)
Definition add_field (s : CollectionSchema) (field_name : string) (datatype : dtype_arg)
    (description : string) (kwargs : gmap string pyval) : result CollectionSchema :=
  field ← FieldSchema_call field_name datatype description kwargs;
  OK (mkCollectionSchema (cs_kwargs s) (cs_fields s ++ [field])%list (cs_description s)
        (cs_enable_dynamic_field s) (cs_primary_field s) (cs_partition_key_field s)).

End CollectionDescriptor.

(** ** Payloads *)

(** A [pandas.DataFrame]: its length and its columns, each with a label, the
    name of its numpy dtype and its cells by row number. Labels are strings
    and are taken to be distinct. *)
Record column := mkColumn {
  col_name : string;
  col_dtype : string;
  col_cell : nat → pyval;
}.

Record DataFrame := mkDataFrame {
  df_len : nat;
  df_columns : list column;
}.

(** What a caller passes as [data]. *)
Inductive pydata :=
  | Frame (df : DataFrame)
  | Value (v : pyval).

Definition columns (df : DataFrame) : list string := col_name <$> df_columns df.

(** [name in df] *)
Definition df_contains (df : DataFrame) (n : string) : bool :=
  bool_decide (n ∈ columns df).

(** [df[name].isnull().all()] *)
Definition df_isnull_all (df : DataFrame) (n : string) : bool :=
  forallb (λ c, forallb (λ r, isnull (col_cell c r)) (seq 0 (df_len df)))
    (filter (λ c, col_name c = n) (df_columns df)).

(** [df.drop(name, axis=1)] *)
Definition df_drop (df : DataFrame) (n : string) : DataFrame :=
  mkDataFrame (df_len df) (filter (λ c, col_name c ≠ n) (df_columns df)).

(** ** Data shape classifier *)

(** [check_is_row_based] *)
Definition check_is_row_based (data : pydata) : result bool :=
  match data with
  | Frame _ => OK false
  | Value (VDict _) => OK true
  | Value (VList l) =>
      match l with
      | [] => OK false
      | VDict _ :: _ => OK true
      | _ :: _ => OK false
      end
  | Value _ =>
      Raise (DataTypeNotSupportException DataShouldBeListOrDataFrameOrDict)
  end.

(** ** Reconciliation checker *)

(** [for x, y in zip(infer_fields, tmp_fields): ...] of
    [check_infer_fields_valid]. *)
Fixpoint check_pairs (infer_fields tmp_fields : list FieldSchema) (is_data_frame : bool)
    : result unit :=
  match infer_fields, tmp_fields with
  | x :: xs, y :: ys =>
      if negb (bool_decide (dtype x = dtype y))
      then Raise (DataNotMatchException (DtypeDontMatch (name y) (dtype y) (dtype x)))
      else if is_data_frame && negb (String.eqb (name x) (name y))
      then Raise (DataNotMatchException (NameDontMatch (name y) (name x)))
      else check_pairs xs ys is_data_frame
  | _, _ => OK ()
  end.

(** [check_infer_fields_valid] *)
Definition check_infer_fields_valid (infer_fields tmp_fields : list FieldSchema)
    (is_data_frame : bool) : result unit :=
  if negb (length infer_fields =? length tmp_fields)%nat
  then
    let i_name := name <$> infer_fields in
    let t_name := name <$> tmp_fields in
    Raise (DataNotMatchException (FieldsDontMatch t_name i_name))
  else check_pairs infer_fields tmp_fields is_data_frame.

(** ** Readiness check *)

(** [dtype in (DataType.FLOAT_VECTOR, DataType.BINARY_VECTOR)] *)
Definition is_vector_dtype (d : DataType) : bool :=
  match d with FLOAT_VECTOR | BINARY_VECTOR => true | _ => false end.

(** [check_schema] *)
Definition check_schema (schema : option CollectionSchema) : result unit :=
  match schema with
  | None => Raise (SchemaNotReadyException NoSchema)
  | Some schema =>
      if (length (fields schema) <? 1)%nat
      then Raise (SchemaNotReadyException EmptySchema)
      else
        let vector_fields :=
          name <$> filter (λ field, is_vector_dtype (dtype field) = true) (fields schema) in
        if (length vector_fields <? 1)%nat
        then Raise (SchemaNotReadyException NoVector)
        else OK ()
  end.

(** ** Field inference *)

(** [for i, field in enumerate(l): if cond(field): l.pop(i)]: the list is
    shortened while it is walked, and the walk goes on at position [i + 1] of
    the shortened list. [steps] bounds the number of iterations. *)
Fixpoint pop_while_walking (cond : FieldSchema → bool) (steps i : nat)
    (l : list FieldSchema) : list FieldSchema :=
  match steps with
  | 0 => l
  | S steps' =>
      match l !! i with
      | None => l
      | Some field =>
          if cond field then pop_while_walking cond steps' (S i) (delete i l)
          else pop_while_walking cond steps' (S i) l
      end
  end.

Definition is_auto_id_primary (field : FieldSchema) : bool :=
  is_primary field && truthy (auto_id field).

(** [for i, field in enumerate(fields): if cond(field): tmp.pop(i)], where
    [fields] is another list than [tmp]: [pop] raises [IndexError] out of
    range. *)
Fixpoint pop_by_positions (cond : FieldSchema → bool) (i : nat)
    (fields tmp : list FieldSchema) : result (list FieldSchema) :=
  match fields with
  | [] => OK tmp
  | field :: rest =>
      if cond field then
        if bool_decide (i < length tmp) then pop_by_positions cond (S i) rest (delete i tmp)
        else Raise IndexError
      else pop_by_positions cond (S i) rest tmp
  end.

Section FieldInference.
Context `{Collaborators}.

(** [FieldSchema(name, dtype, **type_params)] *)
Definition new_field (n : string) (d : DataType) (type_params : gmap string pyval)
    : result FieldSchema :=
  FieldSchema_call n (Dtype d) "" type_params.

(** The body of the first loop of [parse_fields_from_data], for the field
    [field] at position [i]: the field appended to [infer_fields]. *)
Definition infer_expected (data : list pyval) (i : nat) (field : FieldSchema)
    : result FieldSchema :=
  match data !! i with
  | None => new_field "" (dtype field) ∅
  | Some d =>
      if is_None d then new_field "" (dtype field) ∅
      else if negb (is_list_like d)
      then Raise (DataTypeNotSupportException DataShouldBeListOfList)
      else
        match getitem0 d with
        | OK elem => new_field "" (infer_dtype_bydata elem) ∅
        | Raise IndexError => new_field "" (dtype field) ∅
        | Raise e => Raise e
        end
  end.

Fixpoint infer_expected_loop (data : list pyval) (i : nat) (tmp_fields : list FieldSchema)
    : result (list FieldSchema) :=
  match tmp_fields with
  | [] => OK []
  | field :: rest =>
      x ← infer_expected data i field;
      xs ← infer_expected_loop data (S i) rest;
      OK (x :: xs)
  end.

(** The body of [while index < len(data): ...] of [parse_fields_from_data]. *)
Definition infer_extra (d : pyval) : result FieldSchema :=
  elem ← getitem0 d;
  new_field "" (infer_dtype_bydata elem) ∅.

(** [prepare_fields_from_dataframe]: the loop over the columns whose mapped
    type is unknown. It yields the types and the map of type params. *)
Fixpoint sample_columns (cols : list column) (data_types : list DataType)
    (column_params_map : gmap string (gmap string pyval))
    : result (list DataType * gmap string (gmap string pyval)) :=
  match cols, data_types with
  | c :: cols', dt :: data_types' =>
      if bool_decide (dt = UNKNOWN) then
        let value := col_cell c 0 in
        let new_dtype := infer_dtype_bydata value in
        m ← match new_dtype with
            | BINARY_VECTOR =>
                n ← py_len value;
                OK (<[col_name c := {[ "dim" := VInt (Z.of_nat n * 8) ]}]> column_params_map)
            | FLOAT_VECTOR =>
                n ← py_len value;
                OK (<[col_name c := {[ "dim" := VInt (Z.of_nat n) ]}]> column_params_map)
            | _ => OK column_params_map
            end;
        '(rest, m') ← sample_columns cols' data_types' m;
        OK (new_dtype :: rest, m')
      else
        '(rest, m') ← sample_columns cols' data_types' column_params_map;
        OK (dt :: rest, m')
  | _, _ => OK ([], column_params_map)
  end.

(** [prepare_fields_from_dataframe] *)
Definition prepare_fields_from_dataframe (df : DataFrame)
    : result (list string * list DataType * gmap string (gmap string pyval)) :=
  let d_types := col_dtype <$> df_columns df in
  let data_types := map_numpy_dtype_to_datatype <$> d_types in
  let col_names := columns df in
  '(data_types, column_params_map) ←
    (if bool_decide (UNKNOWN ∈ data_types) then
       if (df_len df =? 0)%nat then Raise (CannotInferSchemaException DataFrameInvalid)
       else sample_columns (df_columns df) data_types ∅
     else OK (data_types, ∅));
  if bool_decide (UNKNOWN ∈ data_types)
  then Raise (CannotInferSchemaException DataFrameInvalid)
  else OK (col_names, data_types, column_params_map).

(** [col_names.index(name)] followed by [data_types[...]]. *)
Fixpoint dtype_of_column (col_names : list string) (data_types : list DataType)
    (n : string) : result DataType :=
  match col_names, data_types with
  | c :: cs, d :: ds => if String.eqb c n then OK d else dtype_of_column cs ds n
  | c :: cs, [] => if String.eqb c n then Raise IndexError else dtype_of_column cs [] n
  | [], _ => Raise ValueError
  end.

(** First loop of [parse_fields_from_dataframe]; the state is
    [(col_names, data_types, infer_fields)]. *)
Fixpoint infer_from_columns (column_params_map : gmap string (gmap string pyval))
    (tmp_fields : list FieldSchema) (col_names : list string)
    (data_types : list DataType) (infer_fields : list FieldSchema)
    : result (list string * list DataType * list FieldSchema) :=
  match tmp_fields with
  | [] => OK (col_names, data_types, infer_fields)
  | field :: rest =>
      if negb (bool_decide (name field ∈ col_names)) then
        field_schema ← new_field (name field) (dtype field) ∅;
        infer_from_columns column_params_map rest
          (col_names ++ [name field])%list (data_types ++ [dtype field])%list
          (infer_fields ++ [field_schema])%list
      else
        let type_params := default ∅ (column_params_map !! name field) in
        d ← dtype_of_column col_names data_types (name field);
        field_schema ← new_field (name field) d type_params;
        infer_from_columns column_params_map rest col_names data_types
          (infer_fields ++ [field_schema])%list
  end.

(** Second loop of [parse_fields_from_dataframe]. *)
Fixpoint infer_remaining (column_params_map : gmap string (gmap string pyval))
    (infer_name : list string) (cols : list (string * DataType))
    : result (list FieldSchema) :=
  match cols with
  | [] => OK []
  | (n, d) :: rest =>
      if negb (bool_decide (n ∈ infer_name)) then
        let type_params := default ∅ (column_params_map !! n) in
        field_schema ← new_field n d type_params;
        more ← infer_remaining column_params_map infer_name rest;
        OK (field_schema :: more)
      else infer_remaining column_params_map infer_name rest
  end.

(** [parse_fields_from_dataframe] *)
Definition parse_fields_from_dataframe (schema : CollectionSchema) (df : DataFrame)
    : result (list FieldSchema * list FieldSchema * bool) :=
  '(col_names, data_types, column_params_map) ← prepare_fields_from_dataframe df;
  tmp_fields ← mapR deepcopy (fields schema);
  tmp_fields ← pop_by_positions is_auto_id_primary 0 (fields schema) tmp_fields;
  '(col_names, data_types, infer_fields) ←
    infer_from_columns column_params_map tmp_fields col_names data_types [];
  let infer_name := name <$> infer_fields in
  more ← infer_remaining column_params_map infer_name (zip col_names data_types);
  OK ((infer_fields ++ more)%list, tmp_fields, true).

(** [parse_fields_from_data] *)
Definition parse_fields_from_data (schema : CollectionSchema) (data : pydata)
    : result (list FieldSchema * list FieldSchema * bool) :=
  match data with
  | Frame df => parse_fields_from_dataframe schema df
  | Value (VList data) =>
      tmp_fields ← mapR deepcopy (fields schema);
      let tmp_fields :=
        pop_while_walking is_auto_id_primary (length tmp_fields) 0 tmp_fields in
      infer_fields ← infer_expected_loop data 0 tmp_fields;
      extra ← mapR infer_extra (drop (length tmp_fields) data);
      OK ((infer_fields ++ extra)%list, tmp_fields, false)
  | Value _ => Raise (DataTypeNotSupportException DataShouldBeListOrDataFrame)
  end.

(** [check_insert_schema] *)
Definition check_insert_schema (schema : option CollectionSchema) (data : pydata)
    : result unit :=
  match schema with
  | None => Raise (SchemaNotReadyException SchemaIsNone)
  | Some schema =>
      a ← CollectionSchema_auto_id schema;
      data ← match data with
             | Frame df =>
                 if truthy a then
                   n ← match primary_field schema with
                       | Some f => OK (name f)
                       | None => Raise AttributeError
                       end;
                   if df_contains df n then
                     if negb (df_isnull_all df n)
                     then Raise (DataNotMatchException (ExpectNoDataForAutoID n))
                     else OK (Frame (df_drop df n))
                   else OK data
                 else OK data
             | Value _ => OK data
             end;
      '(infer_fields, tmp_fields, is_data_frame) ← parse_fields_from_data schema data;
      check_infer_fields_valid infer_fields tmp_fields is_data_frame
  end.

(** [check_upsert_schema] *)
Definition check_upsert_schema (schema : option CollectionSchema) (data : pydata)
    : result unit :=
  match schema with
  | None => Raise (SchemaNotReadyException SchemaIsNone)
  | Some schema =>
      a ← CollectionSchema_auto_id schema;
      if truthy a then Raise (UpsertAutoIDTrueException UpsertAutoIDTrue)
      else
        '(infer_fields, tmp_fields, is_data_frame) ← parse_fields_from_data schema data;
        check_infer_fields_valid infer_fields tmp_fields is_data_frame
  end.

(** [construct_fields_from_dataframe] *)
Definition construct_fields_from_dataframe (df : DataFrame) : result (list FieldSchema) :=
  '(col_names, data_types, column_params_map) ← prepare_fields_from_dataframe df;
  mapR (λ '(n, d), new_field n d (default ∅ (column_params_map !! n)))
    (zip col_names data_types).

End FieldInference.

(** ** A sample of the collaborators

    One concrete choice of the imported functions, on which the model is run
    at concrete inputs: [COMMON_TYPE_PARAMS] holds ["dim"] and ["max_length"];
    type inference follows the Python type of the value. *)
Definition sample_scalar_dtype (v : pyval) : DataType :=
  match v with
  | VBool _ => BOOL
  | VInt _ => INT64
  | VFloat _ => DOUBLE
  | VStr _ => VARCHAR
  | VBytes _ => BINARY_VECTOR
  | _ => UNKNOWN
  end.

Definition sample_is_scalar (v : pyval) : bool :=
  match v with VList _ | VDict _ | VValueField _ => false | _ => true end.

Definition sample_dtype (v : pyval) : DataType :=
  match v with
  | VList (VFloat _ :: _) => FLOAT_VECTOR
  | VList _ | VDict _ | VValueField _ => UNKNOWN
  | _ => sample_scalar_dtype v
  end.

Definition sample_numpy_dtype (d : string) : DataType :=
  if String.eqb d "bool" then BOOL
  else if String.eqb d "int64" then INT64
  else if String.eqb d "float64" then DOUBLE
  else UNKNOWN.

Definition sample_proto_set (m : vf_field) (v : pyval) : result scalar :=
  match m, v with
  | bool_data, VBool b => OK (SBool b)
  | (int_data | long_data), VInt z => OK (SInt z)
  | (float_data | double_data), VFloat x => OK (SFloat x)
  | string_data, VStr s => OK (SStr s)
  | _, _ => Raise TypeError
  end.

Definition sample : Collaborators :=
  {| COMMON_TYPE_PARAMS := ["dim"; "max_length"];
     is_scalar := sample_is_scalar;
     infer_dtype_by_scaladata := sample_scalar_dtype;
     infer_dtype_bydata := sample_dtype;
     map_numpy_dtype_to_datatype := sample_numpy_dtype;
     proto_set := sample_proto_set |}.

(** * Properties *)

(** ** Results *)

Lemma bind_OK {A B} (m : result A) (k : A → result B) (b : B) :
  m ≫= k = OK b ↔ ∃ a, m = OK a ∧ k a = OK b.
Proof.
  destruct m as [a|e]; simpl; split.
  - intros Hk. exists a. split; [reflexivity | exact Hk].
  - intros (a' & [= <-] & Hk). exact Hk.
  - discriminate.
  - intros (a' & [=] & _).
Qed.

Lemma mapR_OK_Forall2 {A B} (f : A → result B) (xs : list A) (ys : list B) :
  mapR f xs = OK ys ↔ Forall2 (λ x y, f x = OK y) xs ys.
Proof.
  revert ys. induction xs as [|x xs IH]; intros ys; simpl.
  - split.
    + intros [= <-]. constructor.
    + intros Hnil. inversion Hnil. reflexivity.
  - split.
    + intros Hm. apply bind_OK in Hm as (y & Hy & Hm).
      apply bind_OK in Hm as (ys' & Hys & [= <-]).
      constructor; [exact Hy | apply IH, Hys].
    + intros Hcons. inversion Hcons as [|? y ? ys' Hy Hys]; subst.
      rewrite Hy. simpl. apply IH in Hys. rewrite Hys. reflexivity.
Qed.

(** ** Data shape classifier *)

Definition is_table (data : pydata) : Prop := ∃ df, data = Frame df.
Definition is_sequence (data : pydata) : Prop := ∃ l, data = Value (VList l).
Definition is_mapping (data : pydata) : Prop := ∃ items, data = Value (VDict items).

(** The first element of a sequence is a mapping. *)
Definition starts_with_mapping (data : pydata) : Prop :=
  ∃ items rest, data = Value (VList (VDict items :: rest)).

(** C7. [check_is_row_based] raises [DataTypeNotSupportException] on an input
    that is neither a table, a sequence nor a mapping; a table is
    column-based; a mapping is row-based; a sequence is row-based exactly when
    it is not empty and its first element is a mapping, so that the empty
    sequence is column-based. *)
Theorem check_is_row_based_classifies (data : pydata) :
  (¬ is_table data → ¬ is_sequence data → ¬ is_mapping data →
     ∃ m, check_is_row_based data = Raise (DataTypeNotSupportException m))
  ∧ (is_table data → check_is_row_based data = OK false)
  ∧ (is_mapping data → check_is_row_based data = OK true)
  ∧ (is_sequence data →
       ∃ b, check_is_row_based data = OK b ∧ (b = true ↔ starts_with_mapping data))
  ∧ check_is_row_based (Value (VList [])) = OK false.
Proof.
  repeat split.
  - intros Ht Hs Hm.
    destruct data as [df|v]; [exfalso; apply Ht; eexists; reflexivity|].
    destruct v; simpl; eauto;
      exfalso; [apply Hs | apply Hm]; eexists; reflexivity.
  - intros [df ->]. reflexivity.
  - intros [items ->]. reflexivity.
  - intros [l ->]. destruct l as [|v rest].
    + exists false. split; [reflexivity|].
      split; [discriminate | intros (? & ? & [=])].
    + destruct v; simpl;
        try (exists false; split; [reflexivity|];
             split; [discriminate | intros (? & ? & [=])]).
      exists true. split; [reflexivity|].
      split; [intros _; do 2 eexists; reflexivity | reflexivity].
Qed.

(** ** Reconciliation checker *)

(** Some position holds fields of different dtypes, resp. names. *)
Definition dtype_differs (xs ys : list FieldSchema) : Prop :=
  ∃ i x y, xs !! i = Some x ∧ ys !! i = Some y ∧ dtype x ≠ dtype y.
Definition name_differs (xs ys : list FieldSchema) : Prop :=
  ∃ i x y, xs !! i = Some x ∧ ys !! i = Some y ∧ name x ≠ name y.

Lemma differs_cons (R : FieldSchema → FieldSchema → Prop) x xs y ys :
  (∃ i a b, (x :: xs) !! i = Some a ∧ (y :: ys) !! i = Some b ∧ R a b)
  ↔ R x y ∨ ∃ i a b, xs !! i = Some a ∧ ys !! i = Some b ∧ R a b.
Proof.
  split.
  - intros (i & a & b & Ha & Hb & HR). destruct i as [|i]; simpl in *.
    + left. congruence.
    + right. eauto 6.
  - intros [HR | (i & a & b & Ha & Hb & HR)].
    + exists 0, x, y. auto.
    + exists (S i), a, b. auto.
Qed.

Lemma check_pairs_cases (xs ys : list FieldSchema) (tab : bool) :
  (check_pairs xs ys tab = OK ()
   ∧ ¬ dtype_differs xs ys ∧ (tab = true → ¬ name_differs xs ys))
  ∨ ((∃ m, check_pairs xs ys tab = Raise (DataNotMatchException m))
     ∧ (dtype_differs xs ys ∨ (tab = true ∧ name_differs xs ys))).
Proof.
  revert ys. induction xs as [|x xs IH]; intros ys.
  - left. simpl. split; [reflexivity|].
    split; [|intros _]; intros (i & a & b & Ha & _); destruct i; discriminate.
  - destruct ys as [|y ys].
    + left. simpl. split; [reflexivity|].
      split; [|intros _]; intros (i & a & b & _ & Hb & _); destruct i; discriminate.
    + simpl. unfold dtype_differs, name_differs.
      destruct (decide (dtype x = dtype y)) as [Hd|Hd].
      * rewrite (bool_decide_eq_true_2 _ Hd). simpl.
        destruct (String.eqb_spec (name x) (name y)) as [Hn|Hn].
        -- rewrite andb_false_r.
           destruct (IH ys) as [(Hok & Hnd & Hnn) | (Hr & Hdiff)].
           ++ left. split; [exact Hok|].
              split; [|intros Ht]; rewrite differs_cons; intros [?|?];
                first [contradiction | apply (Hnn Ht); assumption].
           ++ right. split; [exact Hr|].
              destruct Hdiff as [Hdd | [Ht Hnd]].
              ** left. apply differs_cons. right. exact Hdd.
              ** right. split; [exact Ht|]. apply differs_cons. right. exact Hnd.
        -- destruct tab; simpl.
           ++ right. split; [eexists; reflexivity|].
              right. split; [reflexivity|]. apply differs_cons. left. exact Hn.
           ++ destruct (IH ys) as [(Hok & Hnd & Hnn) | (Hr & Hdiff)].
              ** left. split; [exact Hok|].
                 split; [|discriminate]. rewrite differs_cons.
                 intros [?|?]; [contradiction | apply Hnd; assumption].
              ** right. split; [exact Hr|].
                 destruct Hdiff as [Hdd | [Ht _]]; [|discriminate].
                 left. apply differs_cons. right. exact Hdd.
      * rewrite (bool_decide_eq_false_2 _ Hd). simpl.
        right. split; [eexists; reflexivity|].
        left. apply differs_cons. left. exact Hd.
Qed.

Lemma check_pairs_false (xs ys : list FieldSchema) :
  check_pairs xs ys false = OK ()
  ∨ ∃ f d1 d2, check_pairs xs ys false
               = Raise (DataNotMatchException (DtypeDontMatch f d1 d2)).
Proof.
  revert ys. induction xs as [|x xs IH]; intros ys; [left; reflexivity|].
  destruct ys as [|y ys]; [left; reflexivity|].
  cbn [check_pairs]. destruct (negb (bool_decide (dtype x = dtype y))).
  - right. eauto.
  - apply IH.
Qed.

(** C6. [check_infer_fields_valid] raises [DataNotMatchException] when the
    two lists differ in length, with a message that carries the names of both
    lists; raises it when the dtypes differ at some position; raises it for
    names that differ at some position when [is_data_frame] is true; and
    returns otherwise, so that names are not compared when [is_data_frame] is
    false. *)
Theorem check_infer_fields_valid_cases (infer_fields tmp_fields : list FieldSchema)
    (is_data_frame : bool) :
  (length infer_fields ≠ length tmp_fields →
     check_infer_fields_valid infer_fields tmp_fields is_data_frame
     = Raise (DataNotMatchException
                (FieldsDontMatch (name <$> tmp_fields) (name <$> infer_fields))))
  ∧ (length infer_fields = length tmp_fields →
     dtype_differs infer_fields tmp_fields →
     ∃ m, check_infer_fields_valid infer_fields tmp_fields is_data_frame
          = Raise (DataNotMatchException m))
  ∧ (length infer_fields = length tmp_fields →
     is_data_frame = true → name_differs infer_fields tmp_fields →
     ∃ m, check_infer_fields_valid infer_fields tmp_fields is_data_frame
          = Raise (DataNotMatchException m))
  ∧ (length infer_fields = length tmp_fields →
     ¬ dtype_differs infer_fields tmp_fields →
     (is_data_frame = true → ¬ name_differs infer_fields tmp_fields) →
     check_infer_fields_valid infer_fields tmp_fields is_data_frame = OK ()).
Proof.
  unfold check_infer_fields_valid.
  destruct (Nat.eqb_spec (length infer_fields) (length tmp_fields)) as [Hlen|Hlen]; simpl.
  - destruct (check_pairs_cases infer_fields tmp_fields is_data_frame)
      as [(Hok & Hnd & Hnn) | (Hr & Hdiff)].
    + split; [intros Hne; contradiction|].
      split; [intros _ Hd; contradiction|].
      split; [intros _ Ht Hn; contradiction (Hnn Ht Hn)|].
      intros _ _ _. exact Hok.
    + split; [intros Hne; contradiction|].
      split; [intros _ _; exact Hr|].
      split; [intros _ _ _; exact Hr|].
      intros _ Hnd Hnn. destruct Hdiff as [Hd|[Ht Hn]]; [contradiction|].
      contradiction (Hnn Ht Hn).
  - split; [intros _; reflexivity|].
    repeat split; intros Heq; contradiction.
Qed.

(** ** Attribute access on a field descriptor *)

(** C9. For a name that ordinary lookup does not resolve, attribute access
    on a [FieldSchema] yields [None] when the name is no key of
    [_type_params], and the stored parameter when it is one; it never
    raises. *)
Theorem getattr_falls_back_to_type_params (inherited : string → bool)
    (f : FieldSchema) (item : string) :
  item ∉ (instance_attributes ++ class_attributes)%list →
  inherited item = false →
  (_type_params f !! item = None → getattr inherited f item = Fallback VNone)
  ∧ (∀ v, _type_params f !! item = Some v → getattr inherited f item = Fallback v).
Proof.
  intros Hstored Hinh. unfold getattr, __getattr__, contains.
  rewrite (bool_decide_eq_false_2 _ Hstored), Hinh. simpl.
  split.
  - intros Hnone. rewrite Hnone. simpl.
    destruct (negb _ && _); reflexivity.
  - intros v Hsome.
    assert (_type_params f ≠ ∅) as Hne.
    { intros Hempty. rewrite Hempty, lookup_empty in Hsome. discriminate. }
    rewrite (bool_decide_eq_false_2 _ Hne), Hsome.
    rewrite (bool_decide_eq_true_2 (is_Some (Some v))) by eauto. reflexivity.
Qed.

Definition vec_field : FieldSchema :=
  mkFieldSchema "vec" FLOAT_VECTOR "" {[ "dim" := VInt 8 ]} {[ "dim" := VInt 8 ]}
    false (VBool false) (VBool false) false None.

Lemma getattr_falls_back_to_type_params_witness :
  getattr (λ _, false) vec_field "max_length" = Fallback VNone
  ∧ getattr (λ _, false) vec_field "dim" = Fallback (VInt 8).
Proof.
  assert (∀ item, item = "max_length" ∨ item = "dim" →
            item ∉ (instance_attributes ++ class_attributes)%list) as Hfree.
  { intros item [-> | ->]; apply (bool_decide_unpack _); vm_compute; exact I. }
  split.
  - apply (proj1 (getattr_falls_back_to_type_params (λ _, false) vec_field
                    "max_length" (Hfree _ (or_introl eq_refl)) eq_refl)).
    vm_compute. reflexivity.
  - apply (proj2 (getattr_falls_back_to_type_params (λ _, false) vec_field
                    "dim" (Hfree _ (or_intror eq_refl)) eq_refl)).
    vm_compute. reflexivity.
Defined.

(** ** Construction of a field descriptor *)

(** The keyword arguments set [auto_id] to [True] and leave [is_primary]
    out or set it to [False]. *)
Definition auto_id_without_primary (kwargs : gmap string pyval) : Prop :=
  kwargs !! "auto_id" = Some (VBool true)
  ∧ (kwargs !! "is_primary" = None ∨ kwargs !! "is_primary" = Some (VBool false)).

(** C8, as stated, fails: the dtype is checked first, so that with the
    unknown dtype the exception is [DataTypeNotSupportException]. *)
Lemma auto_id_without_primary_unknown_dtype :
  auto_id_without_primary {[ "auto_id" := VBool true ]}
  ∧ FieldSchema_init (H := sample) "a" (Dtype UNKNOWN) "" {[ "auto_id" := VBool true ]}
    = Raise (DataTypeNotSupportException FieldDtype)
  ∧ ¬ ∃ m, FieldSchema_init (H := sample) "a" (Dtype UNKNOWN) ""
             {[ "auto_id" := VBool true ]}
           = Raise (PrimaryKeyException m).
Proof.
  split; [split; [|left]; reflexivity|].
  split; [reflexivity|].
  intros [m Hm]. vm_compute in Hm. discriminate.
Qed.

(** C8, amended. With [auto_id] true and [is_primary] false or absent,
    [FieldSchema.__init__] always raises; the exception is
    [PrimaryKeyException] whenever the dtype is a member of the enumeration
    other than the unknown one. *)
Theorem auto_id_requires_primary `{Collaborators} (n : string) (dt : dtype_arg)
    (desc : string) (kwargs : gmap string pyval) :
  auto_id_without_primary kwargs →
  (∃ e, FieldSchema_init n dt desc kwargs = Raise e)
  ∧ (∀ d, dt = Dtype d → d ≠ UNKNOWN →
       FieldSchema_init n dt desc kwargs = Raise (PrimaryKeyException AutoIDOnlyOnPK)).
Proof.
  intros [Hauto Hprimary].
  assert (get kwargs "is_primary" (VBool false) = VBool false) as Hget.
  { unfold get. destruct Hprimary as [-> | ->]; reflexivity. }
  assert (∀ d, d ≠ UNKNOWN →
            FieldSchema_init n (Dtype d) desc kwargs
            = Raise (PrimaryKeyException AutoIDOnlyOnPK)) as Hvalid.
  { intros d Hd. unfold FieldSchema_init. simpl.
    rewrite (bool_decide_eq_false_2 _ Hd), Hget. simpl.
    rewrite Hauto. reflexivity. }
  split.
  - destruct dt as [d|v]; [|eexists; reflexivity].
    destruct (decide (d = UNKNOWN)) as [->|Hd].
    + eexists. reflexivity.
    + eexists. apply Hvalid, Hd.
  - intros d -> Hd. apply Hvalid, Hd.
Qed.

Lemma auto_id_requires_primary_witness :
  auto_id_without_primary {[ "auto_id" := VBool true ]}
  ∧ FieldSchema_init (H := sample) "a" (Dtype INT64) "" {[ "auto_id" := VBool true ]}
    = Raise (PrimaryKeyException AutoIDOnlyOnPK).
Proof.
  assert (auto_id_without_primary {[ "auto_id" := VBool true ]}) as Hkw.
  { split; [|left]; reflexivity. }
  split; [exact Hkw|].
  apply (proj2 (auto_id_requires_primary (H := sample) "a" (Dtype INT64) "" _ Hkw) INT64).
  - reflexivity.
  - discriminate.
Defined.

(** ** Partition key equal to the primary key *)

(** [validate_partition_key] accepts a partition-key field of a key dtype
    whatever the name of the primary field. *)
Lemma validate_partition_key_ignores_primary (hint : pyval) (f : FieldSchema)
    (primary_name : string) :
  is_key_dtype (dtype f) = true →
  validate_partition_key hint (Some f) primary_name = OK ().
Proof. intros Hd. unfold validate_partition_key. rewrite Hd. reflexivity. Qed.

Definition pk_kwargs : gmap string pyval :=
  <[ "is_primary" := VBool true ]> {[ "is_partition_key" := VBool true ]}.

(** C1 does not hold of the code. A single [INT64] field flagged both
    primary and partition key is accepted: construction succeeds, and the
    primary field and the partition-key field are the same field. *)
Theorem partition_key_on_primary_field_accepted `{Collaborators} :
  ∃ f s,
    FieldSchema_init "pk" (Dtype INT64) "" pk_kwargs = OK f
    ∧ CollectionSchema_init (FieldList [inl f]) "" ∅ = OK s
    ∧ name <$> primary_field s = Some "pk"
    ∧ name <$> partition_key_field s = Some "pk"
    ∧ cs_primary_field s = cs_partition_key_field s.
Proof.
  eexists. eexists.
  split; [vm_compute; reflexivity|].
  split; [vm_compute; reflexivity|].
  repeat split.
Qed.

(** ** Field descriptors: what construction guarantees *)

Section FieldProperties.
Context `{Collaborators}.

(** The standing assumption on the imported constant: no recognised
    type-parameter key is a key [construct_from_dict] sets itself, nor the
    name of a parameter of [__init__]. *)
Definition common_type_params_ok : Prop :=
  Forall (λ k, k ∉ (reserved_kwargs ++ init_parameters)%list) COMMON_TYPE_PARAMS.

(** The state of a field descriptor as [__init__] leaves it, and as the
    assignments of [_check_fields] keep it. *)
Definition valid_field (f : FieldSchema) : Prop :=
  dtype f ≠ UNKNOWN
  ∧ (∃ a, auto_id f = VBool a)
  ∧ (∀ v, default_value f = Some v → WhichOneof v ≠ None)
  ∧ (∀ k, is_Some (_type_params f !! k) → k ∈ COMMON_TYPE_PARAMS)
  ∧ (has_type_params (dtype f) = false → _type_params f = ∅).

Lemma fold_type_params_lookup (kwargs : gmap string pyval) (keys : list string)
    (acc : gmap string pyval) (k : string) :
  fold_left (λ tp k, match kwargs !! k with Some v => <[k:=v]> tp | None => tp end)
    keys acc !! k
  = if bool_decide (k ∈ keys)
    then match kwargs !! k with Some v => Some v | None => acc !! k end
    else acc !! k.
Proof.
  revert acc. induction keys as [|k' keys IH]; intros acc; simpl.
  - reflexivity.
  - rewrite IH. destruct (decide (k = k')) as [->|Hne].
    + rewrite (bool_decide_eq_true_2 (k' ∈ k' :: keys)) by left.
      destruct (kwargs !! k') as [v|] eqn:Hk.
      * case_bool_decide; [reflexivity | apply lookup_insert_eq].
      * case_bool_decide; reflexivity.
    + assert ((match kwargs !! k' with
               | Some v => <[k':=v]> acc
               | None => acc
               end) !! k = acc !! k) as ->.
      { destruct (kwargs !! k'); [apply lookup_insert_ne; congruence | reflexivity]. }
      destruct (decide (k ∈ keys)) as [Hin|Hin].
      * rewrite (bool_decide_eq_true_2 _ Hin).
        rewrite (bool_decide_eq_true_2 (k ∈ k' :: keys)) by (right; exact Hin).
        reflexivity.
      * rewrite (bool_decide_eq_false_2 _ Hin).
        rewrite (bool_decide_eq_false_2 (k ∈ k' :: keys)); [reflexivity|].
        intros Hin'. apply elem_of_cons in Hin' as [?|?]; contradiction.
Qed.

Lemma parse_type_params_lookup (d : DataType) (kwargs : gmap string pyval) (k : string) :
  _parse_type_params d kwargs !! k
  = if has_type_params d && bool_decide (k ∈ COMMON_TYPE_PARAMS)
    then kwargs !! k else None.
Proof.
  unfold _parse_type_params. destruct (has_type_params d); simpl.
  - case_bool_decide as Hempty.
    + subst kwargs. rewrite !lookup_empty. destruct (bool_decide _); reflexivity.
    + rewrite fold_type_params_lookup, lookup_empty.
      case_bool_decide; [destruct (kwargs !! k)|]; reflexivity.
  - apply lookup_empty.
Qed.

Lemma infer_default_value_set (data : pyval) (v : ValueField) :
  infer_default_value_bydata data = OK (Some v) → WhichOneof v ≠ None.
Proof.
  unfold infer_default_value_bydata, assign.
  destruct (is_None data); [discriminate|].
  destruct (if is_scalar data then _ else _);
    try discriminate;
    (intros Hb; apply bind_OK in Hb as (s & _ & [= <-]); discriminate).
Qed.

(** What a successful [__init__] has checked and stored. *)
Lemma FieldSchema_init_OK (n : string) (dt : dtype_arg) (desc : string)
    (kwargs : gmap string pyval) (f : FieldSchema) :
  FieldSchema_init n dt desc kwargs = OK f →
  ∃ d p a k dv,
    dt = Dtype d ∧ d ≠ UNKNOWN
    ∧ get kwargs "is_primary" (VBool false) = VBool p
    ∧ get kwargs "auto_id" (VBool false) = VBool a
    ∧ (p = false → a = false)
    ∧ get kwargs "is_partition_key" (VBool false) = VBool k
    ∧ (∀ v, dv = Some v → WhichOneof v ≠ None)
    ∧ f = mkFieldSchema n d desc (_parse_type_params d kwargs) kwargs
            p (get kwargs "is_dynamic" (VBool false)) (VBool a) k dv.
Proof.
  unfold FieldSchema_init. intros Hinit.
  destruct dt as [d|v]; [|discriminate]. simpl in Hinit.
  case_bool_decide as Hd; [discriminate|].
  destruct (get kwargs "is_primary" (VBool false)) as [|p| | | | | | |] eqn:Hp;
    try discriminate. simpl in Hinit.
  apply bind_OK in Hinit as (a' & Ha & Hinit).
  assert (∃ a, a' = VBool a ∧ get kwargs "auto_id" (VBool false) = VBool a
               ∧ (p = false → a = false)) as (a & -> & Hauto & Hpa).
  { unfold get. destruct (kwargs !! "auto_id") as [[|a| | | | | | |]|];
      try discriminate.
    - destruct p, a; simpl in Ha; try discriminate;
        injection Ha as <-; eexists; repeat split; congruence.
    - injection Ha as <-. exists false. repeat split. }
  destruct (get kwargs "is_partition_key" (VBool false)) as [|k| | | | | | |] eqn:Hk;
    try discriminate. simpl in Hinit.
  apply bind_OK in Hinit as (dv & Hdv & [= <-]).
  exists d, p, a, k, dv. repeat split; try assumption.
  intros v ->.
  destruct (get kwargs "default_value" VNone) as [| | | | | | | |w] eqn:Hw;
    try (apply infer_default_value_set in Hdv; exact Hdv).
  destruct (WhichOneof w) eqn:Hone; [|discriminate].
  injection Hdv as <-. rewrite Hone. discriminate.
Qed.

Lemma FieldSchema_init_valid (n : string) (dt : dtype_arg) (desc : string)
    (kwargs : gmap string pyval) (f : FieldSchema) :
  FieldSchema_init n dt desc kwargs = OK f → valid_field f.
Proof.
  intros Hinit.
  apply FieldSchema_init_OK in Hinit
    as (d & p & a & k & dv & -> & Hd & Hp & Ha & Hpa & Hk & Hdv & ->).
  unfold valid_field, dtype. simpl.
  split; [exact Hd|]. split; [eauto|]. split; [exact Hdv|]. split.
  - intros key [v Hv]. rewrite parse_type_params_lookup in Hv.
    destruct (has_type_params d); [|discriminate]. simpl in Hv.
    case_bool_decide; [assumption | discriminate].
  - intros Hno. apply map_eq. intros key.
    rewrite parse_type_params_lookup, Hno, lookup_empty. reflexivity.
Qed.

(** Serialising a valid field leaves it as it is: the write-back in
    [to_dict] concerns a [default_value] with no member set only. *)
Lemma to_dict_self_valid (f : FieldSchema) :
  valid_field f → FieldSchema_to_dict_self f = f.
Proof.
  intros (_ & _ & Hdv & _). unfold FieldSchema_to_dict_self.
  destruct (default_value f) as [v|] eqn:Hv; [|reflexivity].
  specialize (Hdv v eq_refl). destruct (WhichOneof v); [reflexivity | contradiction].
Qed.

(** *** The keyword arguments rebuilt from a serialised field *)

Lemma dict_kwargs_other (raw : field_dict) (k : string) :
  k ∉ reserved_kwargs → dict_kwargs raw !! k = default ∅ (d_params raw) !! k.
Proof.
  intros Hk. unfold dict_kwargs, reserved_kwargs in *.
  repeat (rewrite lookup_insert_ne by (intros <-; apply Hk; set_solver)).
  destruct (d_auto_id raw) as [v|]; [destruct (is_None v)|];
    repeat (rewrite lookup_insert_ne by (intros <-; apply Hk; set_solver));
    reflexivity.
Qed.

Lemma dict_kwargs_is_primary (raw : field_dict) :
  dict_kwargs raw !! "is_primary" = Some (default (VBool false) (d_is_primary raw)).
Proof.
  unfold dict_kwargs.
  repeat (rewrite lookup_insert_ne by discriminate).
  destruct (d_auto_id raw) as [v|]; [destruct (is_None v)|];
    repeat (rewrite lookup_insert_ne by discriminate); apply lookup_insert_eq.
Qed.

Lemma dict_kwargs_auto_id (raw : field_dict) :
  dict_kwargs raw !! "auto_id"
  = match d_auto_id raw with
    | Some v => if is_None v then default ∅ (d_params raw) !! "auto_id" else Some v
    | None => default ∅ (d_params raw) !! "auto_id"
    end.
Proof.
  unfold dict_kwargs.
  repeat (rewrite lookup_insert_ne by discriminate).
  destruct (d_auto_id raw) as [v|]; [destruct (is_None v)|];
    repeat (rewrite lookup_insert_ne by discriminate);
    try reflexivity. apply lookup_insert_eq.
Qed.

Lemma dict_kwargs_is_partition_key (raw : field_dict) :
  dict_kwargs raw !! "is_partition_key"
  = Some (default (VBool false) (d_is_partition_key raw)).
Proof.
  unfold dict_kwargs.
  repeat (rewrite lookup_insert_ne by discriminate). apply lookup_insert_eq.
Qed.

Lemma dict_kwargs_default_value (raw : field_dict) :
  dict_kwargs raw !! "default_value" = Some (default VNone (d_default_value raw)).
Proof.
  unfold dict_kwargs.
  repeat (rewrite lookup_insert_ne by discriminate). apply lookup_insert_eq.
Qed.

Lemma dict_kwargs_is_dynamic (raw : field_dict) :
  dict_kwargs raw !! "is_dynamic" = Some (default (VBool false) (d_is_dynamic raw)).
Proof. unfold dict_kwargs. apply lookup_insert_eq. Qed.

(** A sufficient condition for [__init__] to succeed, with its result. *)
Lemma FieldSchema_init_intro (n : string) (d : DataType) (desc : string)
    (kwargs : gmap string pyval) (p a k : bool) (dv : option ValueField) :
  d ≠ UNKNOWN →
  get kwargs "is_primary" (VBool false) = VBool p →
  (kwargs !! "auto_id" = None ∧ a = false
   ∨ kwargs !! "auto_id" = Some (VBool a) ∧ (p = true ∨ a = false)) →
  get kwargs "is_partition_key" (VBool false) = VBool k →
  (get kwargs "default_value" VNone = VNone ∧ dv = None
   ∨ ∃ v, get kwargs "default_value" VNone = VValueField v
          ∧ WhichOneof v ≠ None ∧ dv = Some v) →
  FieldSchema_init n (Dtype d) desc kwargs
  = OK (mkFieldSchema n d desc (_parse_type_params d kwargs) kwargs
          p (get kwargs "is_dynamic" (VBool false)) (VBool a) k dv).
Proof.
  intros Hd Hp Ha Hk Hdv. unfold FieldSchema_init. simpl.
  rewrite (bool_decide_eq_false_2 _ Hd), Hp. simpl.
  assert (match kwargs !! "auto_id" with
          | Some (VBool a0) =>
              if negb p && a0 then Raise (PrimaryKeyException AutoIDOnlyOnPK)
              else OK (VBool a0)
          | Some _ => Raise (AutoIDException AutoIDType)
          | None => OK (VBool false)
          end = OK (VBool a)) as ->.
  { destruct Ha as [[-> ->] | [-> [-> | ->]]]; simpl; try reflexivity.
    destruct p; reflexivity. }
  simpl. rewrite Hk. simpl.
  destruct Hdv as [[-> ->] | (v & -> & Hv & ->)]; simpl.
  - reflexivity.
  - destruct (WhichOneof v); [reflexivity | contradiction].
Qed.

(** Rebuilding a valid field from its serialised form succeeds and yields a
    valid field with the same serialised form. *)
Lemma construct_from_to_dict (f : FieldSchema) :
  common_type_params_ok → valid_field f →
  ∃ f', FieldSchema_construct_from_dict (FieldSchema_to_dict f) = OK f'
        ∧ FieldSchema_to_dict f' = FieldSchema_to_dict f
        ∧ valid_field f'.
Proof.
  intros Hcommon (Hd & [a0 Ha0] & Hdv & Hkeys & Hno).
  set (raw := FieldSchema_to_dict f).
  assert (default ∅ (d_params raw) = _type_params f) as Hparams.
  { unfold raw. simpl. case_bool_decide as He; [rewrite He|]; reflexivity. }
  assert (∀ k, k ∈ (reserved_kwargs ++ init_parameters)%list →
               _type_params f !! k = None) as Hfree.
  { intros k Hk. destruct (_type_params f !! k) as [v|] eqn:Hv; [|reflexivity].
    exfalso. assert (k ∈ COMMON_TYPE_PARAMS) as Hin by (apply Hkeys; eauto).
    unfold common_type_params_ok in Hcommon. rewrite Forall_forall in Hcommon.
    exact (Hcommon k Hin Hk). }
  assert (existsb (contains (dict_kwargs raw)) init_parameters = false) as Hclash.
  { unfold init_parameters. simpl. unfold contains.
    rewrite !dict_kwargs_other, Hparams
      by (apply (bool_decide_unpack _); vm_compute; exact I).
    rewrite !Hfree by (apply (bool_decide_unpack _); vm_compute; exact I).
    reflexivity. }
  assert (FieldSchema_construct_from_dict raw
          = OK (mkFieldSchema (name f) (dtype f) (_description f)
                  (_parse_type_params (dtype f) (dict_kwargs raw)) (dict_kwargs raw)
                  (is_primary f) (get (dict_kwargs raw) "is_dynamic" (VBool false))
                  (VBool (if is_primary f then a0 else false))
                  (is_partition_key f) (default_value f))) as Hbuilt.
  { unfold FieldSchema_construct_from_dict, FieldSchema_call. rewrite Hclash.
    unfold raw at 1 2 3. simpl.
    apply FieldSchema_init_intro.
    - exact Hd.
    - unfold get. rewrite dict_kwargs_is_primary. unfold raw. simpl.
      destruct (is_primary f); reflexivity.
    - rewrite dict_kwargs_auto_id, Hparams. unfold raw. simpl.
      destruct (is_primary f).
      + rewrite Ha0. simpl. right. auto.
      + left. split; [|reflexivity].
        apply Hfree. unfold reserved_kwargs. set_solver.
    - unfold get. rewrite dict_kwargs_is_partition_key. unfold raw. simpl.
      destruct (is_partition_key f); reflexivity.
    - unfold get. rewrite dict_kwargs_default_value. unfold raw. simpl.
      destruct (default_value f) as [v|] eqn:Hv; simpl.
      + right. exists v. specialize (Hdv v eq_refl).
        destruct (WhichOneof v); [|contradiction]. auto.
      + left. auto. }
  eexists. split; [exact Hbuilt|]. split.
  - unfold FieldSchema_to_dict at 1. unfold dtype, params. simpl.
    assert (_parse_type_params (_dtype f) (dict_kwargs raw) = _type_params f) as ->.
    { apply map_eq. intros k. rewrite parse_type_params_lookup.
      destruct (has_type_params (_dtype f)) eqn:Hhas; simpl.
      - case_bool_decide as Hin.
        + rewrite dict_kwargs_other, Hparams; [reflexivity|].
          unfold common_type_params_ok in Hcommon. rewrite Forall_forall in Hcommon.
          intros Hres. apply (Hcommon k Hin). apply elem_of_app. left. exact Hres.
        + destruct (_type_params f !! k) eqn:Hv; [|reflexivity].
          exfalso. apply Hin, Hkeys. eauto.
      - rewrite (Hno Hhas), lookup_empty. reflexivity. }
    unfold get. rewrite dict_kwargs_is_dynamic. unfold raw. simpl.
    unfold FieldSchema_to_dict, dtype, params. f_equal.
    + destruct (is_primary f); [rewrite Ha0|]; reflexivity.
    + destruct (truthy (is_dynamic f)) eqn:Ht; simpl; [rewrite Ht|]; reflexivity.
  - unfold FieldSchema_construct_from_dict, FieldSchema_call in Hbuilt.
    rewrite Hclash in Hbuilt. eapply FieldSchema_init_valid. exact Hbuilt.
Qed.

End FieldProperties.



(** ** The field scan of [_check_fields] *)

Lemma eq_str_true (v : pyval) (s : string) : eq_str v s = true ↔ v = VStr s.
Proof.
  destruct v; simpl; try (split; [discriminate | intros [=]]).
  rewrite String.eqb_eq. split; [intros -> | intros [= ->]]; reflexivity.
Qed.

Lemma is_None_true (v : pyval) : is_None v = true ↔ v = VNone.
Proof. destruct v; simpl; split; try discriminate; reflexivity. Qed.

Lemma eq_str_VStr (s : string) : eq_str (VStr s) s = true.
Proof. apply eq_str_true. reflexivity. Qed.

(** [f'] is [f] up to its two flags, which may only have been raised. *)
Definition flags_raised (f f' : FieldSchema) : Prop :=
  f' = set_is_partition_key (is_partition_key f') (set_is_primary (is_primary f') f)
  ∧ (is_primary f = true → is_primary f' = true)
  ∧ (is_partition_key f = true → is_partition_key f' = true).

(** The position of the last field of [fields] that satisfies [flag],
    counted from [i]; [dflt] if there is none. *)
Fixpoint last_index (flag : FieldSchema → bool) (i : nat) (fields : list FieldSchema)
    (dflt : option nat) : option nat :=
  match fields with
  | [] => dflt
  | f :: rest => last_index flag (S i) rest (if flag f then Some i else dflt)
  end.

(** One iteration, spelled out: the flags after the two assignments, the
    two conditions under which nothing is raised, and the state afterwards. *)
Lemma check_field_OK (i : nat) (f f' : FieldSchema) (st st' : scan) :
  check_field i f st = OK (f', st') ↔
  let P := is_primary f || eq_str (primary_field_name st) (name f) in
  let K := is_partition_key f || eq_str (partition_key_field_name st) (name f) in
  f' = set_is_partition_key K (set_is_primary P f)
  ∧ (P = true → is_None (primary_field_name st)
                || eq_str (primary_field_name st) (name f) = true)
  ∧ (K = true → is_None (partition_key_field_name st)
                || eq_str (partition_key_field_name st) (name f) = true)
  ∧ st' = mkScan (if P then VStr (name f) else primary_field_name st)
                 (if K then VStr (name f) else partition_key_field_name st)
                 (if P then Some i else primary_ref st)
                 (if K then Some i else partition_ref st).
Proof.
  destruct f as [n d ds tp kw p dy a k dv], st as [pn kn pr kr].
  unfold check_field. simpl.
  destruct (eq_str pn n) eqn:Hpn, (eq_str kn n) eqn:Hkn, p, k,
    (is_None pn) eqn:Hp0, (is_None kn) eqn:Hk0;
    do 3 (simpl; rewrite ?Hpn, ?Hkn, ?Hp0, ?Hk0); simpl;
    (split; [intros Heq; simplify_eq; repeat split; auto
            | intros (-> & HP & HK & ->); try reflexivity;
              try (specialize (HP eq_refl); discriminate);
              try (specialize (HK eq_refl); discriminate)]).
Qed.

Lemma check_field_flags_raised (i : nat) (f f' : FieldSchema) (st st' : scan) :
  check_field i f st = OK (f', st') → flags_raised f f'.
Proof.
  intros Hc. apply check_field_OK in Hc as (-> & _ & _ & _).
  destruct f. unfold flags_raised. simpl. repeat split.
  - intros ->. reflexivity.
  - intros ->. reflexivity.
Qed.

(** The exception of an iteration is one of the two "only one" errors, and
    it is raised for a flagged field whose name is not the one held. *)
Lemma check_field_Raise (i : nat) (f : FieldSchema) (st : scan) (e : exn) :
  check_field i f st = Raise e →
  (∃ a b, e = PrimaryKeyException (PrimaryKeyOnlyOne a b)
          ∧ (is_primary f || eq_str (primary_field_name st) (name f)) = true
          ∧ is_None (primary_field_name st) = false
          ∧ eq_str (primary_field_name st) (name f) = false)
  ∨ (∃ a b, e = PartitionKeyException (PartitionKeyOnlyOne a b)
            ∧ (is_partition_key f || eq_str (partition_key_field_name st) (name f)) = true
            ∧ is_None (partition_key_field_name st) = false
            ∧ eq_str (partition_key_field_name st) (name f) = false).
Proof.
  destruct f as [n d ds tp kw p dy a k dv], st as [pn kn pr kr].
  unfold check_field. simpl.
  destruct (eq_str pn n) eqn:Hpn, (eq_str kn n) eqn:Hkn, p, k,
    (is_None pn) eqn:Hp0, (is_None kn) eqn:Hk0;
    do 3 (simpl; rewrite ?Hpn, ?Hkn, ?Hp0, ?Hk0); simpl;
    intros Heq; simplify_eq; eauto 10.
Qed.

Lemma none_or_named (v : pyval) (s : string) :
  is_None v || eq_str v s = true → v = VNone ∨ v = VStr s.
Proof.
  intros Hv. apply orb_true_iff in Hv as [Hv|Hv].
  - left. apply is_None_true, Hv.
  - right. apply eq_str_true, Hv.
Qed.

(** One iteration, as seen from the field and the state it leaves. *)
Lemma check_field_step (i : nat) (f f' : FieldSchema) (st st' : scan) :
  check_field i f st = OK (f', st') →
  name f' = name f ∧ dtype f' = dtype f
  ∧ is_primary f' = is_primary f || eq_str (primary_field_name st) (name f)
  ∧ is_partition_key f' = is_partition_key f || eq_str (partition_key_field_name st) (name f)
  ∧ primary_field_name st' = (if is_primary f' then VStr (name f) else primary_field_name st)
  ∧ partition_key_field_name st'
    = (if is_partition_key f' then VStr (name f) else partition_key_field_name st)
  ∧ primary_ref st' = (if is_primary f' then Some i else primary_ref st)
  ∧ partition_ref st' = (if is_partition_key f' then Some i else partition_ref st)
  ∧ (is_primary f' = true →
       primary_field_name st = VNone ∨ primary_field_name st = VStr (name f))
  ∧ (is_partition_key f' = true →
       partition_key_field_name st = VNone ∨ partition_key_field_name st = VStr (name f)).
Proof.
  intros Hc. apply check_field_OK in Hc as (-> & HP & HK & ->).
  destruct f. simpl in *.
  repeat split; try reflexivity.
  - intros HP'. apply none_or_named, HP, HP'.
  - intros HK'. apply none_or_named, HK, HK'.
Qed.

Lemma loop_cons_OK (i : nat) (f : FieldSchema) (fs out : list FieldSchema)
    (st st'' : scan) :
  check_fields_loop i (f :: fs) st = OK (out, st'') ↔
  ∃ f' st' fs', check_field i f st = OK (f', st')
                ∧ check_fields_loop (S i) fs st' = OK (fs', st'')
                ∧ out = f' :: fs'.
Proof.
  simpl. split.
  - intros Hl. apply bind_OK in Hl as ([f' st'] & Hf & Hl).
    apply bind_OK in Hl as ([fs' st3] & Hr & Heq). simplify_eq. eauto 6.
  - intros (f' & st' & fs' & Hf & Hl & ->).
    rewrite Hf. simpl. rewrite Hl. reflexivity.
Qed.

Lemma loop_flags_raised (fs fs' : list FieldSchema) (i : nat) (st st' : scan) :
  check_fields_loop i fs st = OK (fs', st') → Forall2 flags_raised fs fs'.
Proof.
  revert i st fs'. induction fs as [|f fs IH]; intros i st fs' Hl.
  - simpl in Hl. simplify_eq. constructor.
  - apply loop_cons_OK in Hl as (f' & st1 & rest & Hf & Hl & ->).
    constructor; [eapply check_field_flags_raised, Hf | eapply IH, Hl].
Qed.

(** After the scan the two references point to the last flagged fields. *)
Lemma loop_refs (fs fs' : list FieldSchema) (i : nat) (st st' : scan) :
  check_fields_loop i fs st = OK (fs', st') →
  primary_ref st' = last_index is_primary i fs' (primary_ref st)
  ∧ partition_ref st' = last_index is_partition_key i fs' (partition_ref st).
Proof.
  revert i st fs'. induction fs as [|f fs IH]; intros i st fs' Hl.
  - simpl in Hl. simplify_eq. split; reflexivity.
  - apply loop_cons_OK in Hl as (f' & st1 & rest & Hf & Hl & ->).
    apply check_field_step in Hf as (_ & _ & _ & _ & _ & _ & Hpr & Hkr & _).
    apply IH in Hl as [Hp Hk]. simpl. rewrite Hp, Hk, Hpr, Hkr. split; reflexivity.
Qed.

(** A name the scan holds is kept to the end. *)
Lemma loop_name_kept (fs fs' : list FieldSchema) (i : nat) (st st' : scan) :
  check_fields_loop i fs st = OK (fs', st') →
  (∀ s, primary_field_name st = VStr s → primary_field_name st' = VStr s)
  ∧ (∀ s, partition_key_field_name st = VStr s → partition_key_field_name st' = VStr s).
Proof.
  revert i st fs'. induction fs as [|f fs IH]; intros i st fs' Hl.
  - simpl in Hl. simplify_eq. split; auto.
  - apply loop_cons_OK in Hl as (f' & st1 & rest & Hf & Hl & ->).
    apply check_field_step in Hf
      as (_ & _ & _ & _ & Hpn & Hkn & _ & _ & HP & HK).
    apply IH in Hl as [Hp Hk]. split; intros s Hs.
    + apply Hp. rewrite Hpn. destruct (is_primary f'); [|exact Hs].
      destruct (HP eq_refl) as [Hn|Hn]; congruence.
    + apply Hk. rewrite Hkn. destruct (is_partition_key f'); [|exact Hs].
      destruct (HK eq_refl) as [Hn|Hn]; congruence.
Qed.

(** Every field the scan leaves flagged bears the name the scan ends with. *)
Lemma loop_flagged_name (fs fs' : list FieldSchema) (i : nat) (st st' : scan) :
  check_fields_loop i fs st = OK (fs', st') →
  (∀ f', f' ∈ fs' → is_primary f' = true → primary_field_name st' = VStr (name f'))
  ∧ (∀ f', f' ∈ fs' → is_partition_key f' = true →
       partition_key_field_name st' = VStr (name f')).
Proof.
  revert i st fs'. induction fs as [|f fs IH]; intros i st fs' Hl.
  - simpl in Hl. simplify_eq. split; intros f' Hin; inversion Hin.
  - apply loop_cons_OK in Hl as (f' & st1 & rest & Hf & Hl & ->).
    apply check_field_step in Hf
      as (Hname & _ & _ & _ & Hpn & Hkn & _ & _ & _ & _).
    destruct (loop_name_kept _ _ _ _ _ Hl) as [Hkp Hkk].
    apply IH in Hl as [Hp Hk].
    split; intros g Hin Hflag; apply elem_of_cons in Hin as [->|Hin]; auto.
    + apply Hkp. rewrite Hpn, Hflag, Hname. reflexivity.
    + apply Hkk. rewrite Hkn, Hflag, Hname. reflexivity.
Qed.

(** Without a flagged field the scan ends with the names it started from. *)
Lemma loop_unflagged (fs fs' : list FieldSchema) (i : nat) (st st' : scan) :
  check_fields_loop i fs st = OK (fs', st') →
  ((∀ f', f' ∈ fs' → is_primary f' = false) →
     primary_field_name st' = primary_field_name st)
  ∧ ((∀ f', f' ∈ fs' → is_partition_key f' = false) →
       partition_key_field_name st' = partition_key_field_name st).
Proof.
  revert i st fs'. induction fs as [|f fs IH]; intros i st fs' Hl.
  - simpl in Hl. simplify_eq. split; auto.
  - apply loop_cons_OK in Hl as (f' & st1 & rest & Hf & Hl & ->).
    apply check_field_step in Hf
      as (_ & _ & _ & _ & Hpn & Hkn & _ & _ & _ & _).
    apply IH in Hl as [Hp Hk]. split; intros Hnone.
    + rewrite Hp by (intros g Hg; apply Hnone; right; exact Hg).
      rewrite Hpn, (Hnone f') by left. reflexivity.
    + rewrite Hk by (intros g Hg; apply Hnone; right; exact Hg).
      rewrite Hkn, (Hnone f') by left. reflexivity.
Qed.

(** The scan raises nothing but the two "only one" errors. *)
Lemma loop_Raise (fs : list FieldSchema) (i : nat) (st : scan) (e : exn) :
  check_fields_loop i fs st = Raise e →
  (∃ a b, e = PrimaryKeyException (PrimaryKeyOnlyOne a b))
  ∨ (∃ a b, e = PartitionKeyException (PartitionKeyOnlyOne a b)).
Proof.
  revert i st. induction fs as [|f fs IH]; intros i st Hl.
  - discriminate.
  - simpl in Hl. destruct (check_field i f st) as [[f' st1]|e1] eqn:Hf.
    + simpl in Hl. destruct (check_fields_loop (S i) fs st1) as [[fs' st2]|e2] eqn:Hr.
      * discriminate.
      * simpl in Hl. simplify_eq. eapply IH, Hr.
    + simpl in Hl. simplify_eq.
      apply check_field_Raise in Hf as [(a & b & -> & _)|(a & b & -> & _)]; eauto.
Qed.

(** *** Scans in which one of the two keys cannot clash *)

(** The flagged fields of [fs] are named [n], and the name held, if any, is
    [n] too. *)
Definition agree (flag : FieldSchema → bool) (hint : pyval) (fs : list FieldSchema)
    (n : string) : Prop :=
  (hint = VNone ∨ hint = VStr n) ∧ ∀ f, f ∈ fs → flag f = true → name f = n.

Lemma agree_tail (flag : FieldSchema → bool) (hint hint' : pyval) (f : FieldSchema)
    (fs : list FieldSchema) (n : string) :
  agree flag hint (f :: fs) n →
  hint' = hint ∨ hint' = VStr n →
  agree flag hint' fs n.
Proof.
  intros [Hh Hfs] Hh'. split.
  - destruct Hh' as [-> | ->]; [exact Hh | right; reflexivity].
  - intros g Hg. apply Hfs. right. exact Hg.
Qed.

(** The name an iteration leaves when the primary names agree on [n]. *)
Lemma agree_primary_step (i : nat) (f f' : FieldSchema) (fs : list FieldSchema)
    (st st' : scan) (n : string) :
  agree is_primary (primary_field_name st) (f :: fs) n →
  check_field i f st = OK (f', st') →
  primary_field_name st' = primary_field_name st ∨ primary_field_name st' = VStr n.
Proof.
  intros [Hh Hfs] Hf.
  apply check_field_step in Hf as (_ & _ & HP & _ & Hpn & _).
  rewrite Hpn. destruct (is_primary f') eqn:Hf'; [|left; reflexivity]. right.
  symmetry in HP. apply orb_true_iff in HP as [HP | HP].
  - rewrite (Hfs f) by (left || exact HP). reflexivity.
  - apply eq_str_true in HP. destruct Hh as [Hh | Hh]; congruence.
Qed.

Lemma agree_partition_step (i : nat) (f f' : FieldSchema) (fs : list FieldSchema)
    (st st' : scan) (n : string) :
  agree is_partition_key (partition_key_field_name st) (f :: fs) n →
  check_field i f st = OK (f', st') →
  partition_key_field_name st' = partition_key_field_name st
  ∨ partition_key_field_name st' = VStr n.
Proof.
  intros [Hh Hfs] Hf.
  apply check_field_step in Hf as (_ & _ & _ & HK & _ & Hkn & _).
  rewrite Hkn. destruct (is_partition_key f') eqn:Hf'; [|left; reflexivity]. right.
  symmetry in HK. apply orb_true_iff in HK as [HK | HK].
  - rewrite (Hfs f) by (left || exact HK). reflexivity.
  - apply eq_str_true in HK. destruct Hh as [Hh | Hh]; congruence.
Qed.

(** When the primary names agree, the scan can only raise for the
    partition key. *)
Lemma loop_Raise_partition (fs : list FieldSchema) (i : nat) (st : scan) (e : exn)
    (n : string) :
  agree is_primary (primary_field_name st) fs n →
  check_fields_loop i fs st = Raise e →
  ∃ a b, e = PartitionKeyException (PartitionKeyOnlyOne a b).
Proof.
  revert i st. induction fs as [|f fs IH]; intros i st Hagree Hl.
  - discriminate.
  - simpl in Hl. destruct (check_field i f st) as [[f' st1]|e1] eqn:Hf.
    + simpl in Hl. destruct (check_fields_loop (S i) fs st1) as [[fs' st2]|e2] eqn:Hr.
      * discriminate.
      * simpl in Hl. simplify_eq. eapply IH; [|exact Hr].
        eapply agree_tail; [exact Hagree|]. eapply agree_primary_step; eassumption.
    + simpl in Hl. simplify_eq.
      apply check_field_Raise in Hf
        as [(a & b & -> & HP & Hnone & Hneq)|(a & b & -> & _)]; [|eauto].
      exfalso. destruct Hagree as [Hh Hfs].
      rewrite Hneq, orb_false_r in HP.
      destruct Hh as [Hh | Hh]; rewrite Hh in *; [discriminate|].
      rewrite (Hfs f) in Hneq by (left || exact HP).
      rewrite eq_str_VStr in Hneq. discriminate.
Qed.

(** When the partition-key names agree, the scan can only raise for the
    primary key. *)
Lemma loop_Raise_primary (fs : list FieldSchema) (i : nat) (st : scan) (e : exn)
    (n : string) :
  agree is_partition_key (partition_key_field_name st) fs n →
  check_fields_loop i fs st = Raise e →
  ∃ a b, e = PrimaryKeyException (PrimaryKeyOnlyOne a b).
Proof.
  revert i st. induction fs as [|f fs IH]; intros i st Hagree Hl.
  - discriminate.
  - simpl in Hl. destruct (check_field i f st) as [[f' st1]|e1] eqn:Hf.
    + simpl in Hl. destruct (check_fields_loop (S i) fs st1) as [[fs' st2]|e2] eqn:Hr.
      * discriminate.
      * simpl in Hl. simplify_eq. eapply IH; [|exact Hr].
        eapply agree_tail; [exact Hagree|]. eapply agree_partition_step; eassumption.
    + simpl in Hl. simplify_eq.
      apply check_field_Raise in Hf
        as [(a & b & -> & _)|(a & b & -> & HK & Hnone & Hneq)]; [eauto|].
      exfalso. destruct Hagree as [Hh Hfs].
      rewrite Hneq, orb_false_r in HK.
      destruct Hh as [Hh | Hh]; rewrite Hh in *; [discriminate|].
      rewrite (Hfs f) in Hneq by (left || exact HK).
      rewrite eq_str_VStr in Hneq. discriminate.
Qed.

(** Fields that are neither flagged nor named by the hint leave the state
    of the scan untouched. *)
Lemma loop_no_primary (fs fs' : list FieldSchema) (i : nat) (st st' : scan) :
  (∀ f, f ∈ fs → is_primary f = false
                ∧ eq_str (primary_field_name st) (name f) = false) →
  check_fields_loop i fs st = OK (fs', st') →
  primary_ref st' = primary_ref st ∧ primary_field_name st' = primary_field_name st.
Proof.
  revert i st fs'. induction fs as [|f fs IH]; intros i st fs' Hnone Hl.
  - simpl in Hl. simplify_eq. auto.
  - apply loop_cons_OK in Hl as (f' & st1 & rest & Hf & Hl & ->).
    apply check_field_step in Hf as (_ & _ & HP & _ & Hpn & _ & Hpr & _).
    destruct (Hnone f) as [Hflag Hname]; [left|].
    rewrite Hflag, Hname in HP. simpl in HP. rewrite HP in Hpn, Hpr.
    apply IH in Hl as [Hr Hn].
    + split; congruence.
    + intros g Hg. rewrite Hpn. apply Hnone. right. exact Hg.
Qed.

Lemma loop_no_partition (fs fs' : list FieldSchema) (i : nat) (st st' : scan) :
  (∀ f, f ∈ fs → is_partition_key f = false
                ∧ eq_str (partition_key_field_name st) (name f) = false) →
  check_fields_loop i fs st = OK (fs', st') →
  partition_ref st' = partition_ref st
  ∧ partition_key_field_name st' = partition_key_field_name st
  ∧ ∀ f', f' ∈ fs' → is_partition_key f' = false.
Proof.
  revert i st fs'. induction fs as [|f fs IH]; intros i st fs' Hnone Hl.
  - simpl in Hl. simplify_eq. repeat split. intros f Hf. inversion Hf.
  - apply loop_cons_OK in Hl as (f' & st1 & rest & Hf & Hl & ->).
    apply check_field_step in Hf as (_ & _ & _ & HK & _ & Hkn & _ & Hkr & _).
    destruct (Hnone f) as [Hflag Hname]; [left|].
    rewrite Hflag, Hname in HK. simpl in HK. rewrite HK in Hkn, Hkr.
    apply IH in Hl as (Hr & Hn & Hall).
    + split; [congruence|]. split; [congruence|].
      intros g Hg. apply elem_of_cons in Hg as [-> | Hg]; [exact HK | apply Hall, Hg].
    + intros g Hg. rewrite Hkn. apply Hnone. right. exact Hg.
Qed.

(** A single flagged position is the last flagged position. *)
Lemma last_index_unique (flag : FieldSchema → bool) (fs : list FieldSchema)
    (i j : nat) (f : FieldSchema) (dflt : option nat) :
  fs !! j = Some f → flag f = true →
  (∀ k g, fs !! k = Some g → k ≠ j → flag g = false) →
  last_index flag i fs dflt = Some (i + j).
Proof.
  revert i j dflt. induction fs as [|g fs IH]; intros i j dflt Hj Hf Hothers.
  - discriminate.
  - simpl. destruct j as [|j]; simpl in Hj.
    + simplify_eq. rewrite Hf, Nat.add_0_r.
      assert (∀ i d, (∀ k g, fs !! k = Some g → flag g = false) →
                     last_index flag i fs d = d) as Hrest.
      { clear. induction fs as [|g fs IH]; intros i d Hnone; [reflexivity|].
        simpl. rewrite (Hnone 0 g eq_refl). apply IH.
        intros k g' Hk. apply (Hnone (S k) g' Hk). }
      apply Hrest. intros k g Hk. apply (Hothers (S k) g Hk). discriminate.
    + rewrite Nat.add_succ_r. apply (IH (S i) j); [exact Hj | exact Hf |].
      intros k g' Hk Hne. apply (Hothers (S k) g' Hk). congruence.
Qed.

(** *** Scanning once more what a scan has left *)

(** [g] has the name and the two flags of [f]. *)
Definition same_flags (f g : FieldSchema) : Prop :=
  name g = name f ∧ is_primary g = is_primary f
  ∧ is_partition_key g = is_partition_key f.

(** The state [st2] of a second scan follows the state [st1] of a first
    one: it holds no name yet or the same name, and the same references. *)
Definition follows (st1 st2 : scan) : Prop :=
  (primary_field_name st2 = VNone ∨ primary_field_name st2 = primary_field_name st1)
  ∧ (partition_key_field_name st2 = VNone
     ∨ partition_key_field_name st2 = partition_key_field_name st1)
  ∧ primary_ref st2 = primary_ref st1
  ∧ partition_ref st2 = partition_ref st1.

Lemma set_flags_same (g : FieldSchema) :
  set_is_partition_key (is_partition_key g) (set_is_primary (is_primary g) g) = g.
Proof. destruct g. reflexivity. Qed.

Lemma rerun_flag (flag : bool) (hint1 hint2 : pyval) (n : string) :
  flag || eq_str hint1 n = flag →
  hint2 = VNone ∨ hint2 = hint1 →
  flag || eq_str hint2 n = flag.
Proof.
  intros Hflag [-> | ->]; [|exact Hflag].
  simpl. apply orb_false_r.
Qed.

Lemma check_field_rerun (i : nat) (f f' g : FieldSchema) (st1 st1' st2 : scan) :
  check_field i f st1 = OK (f', st1') →
  same_flags f' g → follows st1 st2 →
  ∃ st2', check_field i g st2 = OK (g, st2') ∧ follows st1' st2'.
Proof.
  intros Hf (Hname & Hp & Hk) (Hpn & Hkn & Hpr & Hkr).
  apply check_field_step in Hf
    as (Hn' & _ & HP & HK & Hpn' & Hkn' & Hpr' & Hkr' & HPc & HKc).
  assert (is_primary g || eq_str (primary_field_name st2) (name g) = is_primary g)
    as HP2.
  { apply (rerun_flag _ (primary_field_name st1)); [|exact Hpn].
    rewrite Hp, Hname, Hn', HP.
    destruct (is_primary f), (eq_str (primary_field_name st1) (name f)); reflexivity. }
  assert (is_partition_key g || eq_str (partition_key_field_name st2) (name g)
          = is_partition_key g) as HK2.
  { apply (rerun_flag _ (partition_key_field_name st1)); [|exact Hkn].
    rewrite Hk, Hname, Hn', HK.
    destruct (is_partition_key f), (eq_str (partition_key_field_name st1) (name f));
      reflexivity. }
  eexists. split.
  - apply check_field_OK. simpl. rewrite HP2, HK2.
    split; [symmetry; apply set_flags_same|].
    split; [|split; [|reflexivity]].
    + intros Hg. rewrite Hp in Hg. specialize (HPc Hg).
      rewrite Hname, Hn'. destruct Hpn as [-> | ->]; [reflexivity|].
      destruct HPc as [-> | ->]; [reflexivity|].
      rewrite eq_str_VStr. apply orb_true_r.
    + intros Hg. rewrite Hk in Hg. specialize (HKc Hg).
      rewrite Hname, Hn'. destruct Hkn as [-> | ->]; [reflexivity|].
      destruct HKc as [-> | ->]; [reflexivity|].
      rewrite eq_str_VStr. apply orb_true_r.
  - unfold follows. simpl. rewrite Hpn', Hkn', Hpr', Hkr', Hp, Hk, Hname, Hn'.
    repeat split.
    + destruct (is_primary f'); [right; reflexivity | exact Hpn].
    + destruct (is_partition_key f'); [right; reflexivity | exact Hkn].
    + destruct (is_primary f'); [reflexivity | exact Hpr].
    + destruct (is_partition_key f'); [reflexivity | exact Hkr].
Qed.

(** A second scan over fields that carry the names and flags a first scan
    has left changes none of them and finds the same references. *)
Lemma loop_rerun (fs fs' gs : list FieldSchema) (i : nat) (st1 st1' st2 : scan) :
  check_fields_loop i fs st1 = OK (fs', st1') →
  Forall2 same_flags fs' gs → follows st1 st2 →
  ∃ st2', check_fields_loop i gs st2 = OK (gs, st2') ∧ follows st1' st2'.
Proof.
  revert i st1 st2 fs' gs. induction fs as [|f fs IH]; intros i st1 st2 fs' gs Hl Hsame Hfol.
  - simpl in Hl. simplify_eq. inversion Hsame; subst. exists st2. split; [reflexivity|exact Hfol].
  - apply loop_cons_OK in Hl as (f' & st1m & rest & Hf & Hl & ->).
    inversion Hsame as [|? g ? gs' Hg Hrest]; subst.
    destruct (check_field_rerun _ _ _ _ _ _ _ Hf Hg Hfol) as (st2m & Hg2 & Hfolm).
    destruct (IH _ _ _ _ _ Hl Hrest Hfolm) as (st2' & Hl2 & Hfol').
    exists st2'. split; [|exact Hfol'].
    apply loop_cons_OK. eauto 6.
Qed.

Lemma last_index_Some (flag : FieldSchema → bool) (fs : list FieldSchema)
    (i j : nat) (dflt : option nat) :
  last_index flag i fs dflt = Some j →
  dflt = Some j ∨ ∃ k f, j = i + k ∧ fs !! k = Some f ∧ flag f = true.
Proof.
  revert i dflt. induction fs as [|f fs IH]; intros i dflt Hl; simpl in Hl.
  - left. exact Hl.
  - apply IH in Hl as [Hd | (k & g & -> & Hk & Hg)].
    + destruct (flag f) eqn:Hf; [|left; exact Hd].
      right. exists 0, f. simplify_eq. rewrite Nat.add_0_r. auto.
    + right. exists (S k), g. rewrite Nat.add_succ_r. auto.
Qed.

(** ** Round trip through the serialised form *)

Lemma to_dict_eq_inv (f g : FieldSchema) :
  FieldSchema_to_dict f = FieldSchema_to_dict g →
  name f = name g ∧ dtype f = dtype g
  ∧ is_primary f = is_primary g ∧ is_partition_key f = is_partition_key g
  ∧ (is_primary f = true → auto_id f = auto_id g).
Proof.
  unfold FieldSchema_to_dict. intros Heq.
  injection Heq as Hn Hd _ _ Hp Ha Hk _ _.
  repeat split; try assumption.
  - destruct (is_primary f), (is_primary g); congruence.
  - destruct (is_partition_key f), (is_partition_key g); congruence.
  - intros Hpf. rewrite Hpf in Hp, Ha.
    destruct (is_primary g); congruence.
Qed.

Lemma to_dict_eq_same_flags (f g : FieldSchema) :
  FieldSchema_to_dict g = FieldSchema_to_dict f → same_flags f g.
Proof.
  intros Heq. apply to_dict_eq_inv in Heq as (? & _ & ? & ? & _).
  split; [|split]; assumption.
Qed.

(** *** What [_check_kwargs] and [_check_fields] have established *)

Lemma check_kwargs_OK (kwargs : gmap string pyval) (copies : list (FieldSchema + pyval))
    (fs : list FieldSchema) :
  _check_kwargs kwargs copies = OK fs →
  copies = inl <$> fs
  ∧ (kwargs !! "auto_id" = None ∨ ∃ b, kwargs !! "auto_id" = Some (VBool b)).
Proof.
  unfold _check_kwargs.
  destruct (negb _ && negb _); [discriminate|].
  destruct (negb _ && negb _); [discriminate|].
  intros Hk. apply bind_OK in Hk as (fs' & Hfs & Hk).
  assert (fs' = fs ∧ (kwargs !! "auto_id" = None
                      ∨ ∃ b, kwargs !! "auto_id" = Some (VBool b))) as [-> Hauto].
  { destruct (kwargs !! "auto_id") as [v|]; [|simplify_eq; auto].
    destruct v; simpl in Hk; simplify_eq. eauto. }
  split; [|exact Hauto].
  apply mapR_OK_Forall2 in Hfs. clear -Hfs.
  induction Hfs as [|x f xs fs Hx _ IH]; [reflexivity|].
  destruct x; simplify_eq. reflexivity.
Qed.

Lemma check_kwargs_plain (kwargs : gmap string pyval) (fs : list FieldSchema) :
  kwargs !! "primary_field" = None → kwargs !! "partition_key_field" = None →
  kwargs !! "auto_id" = None →
  _check_kwargs kwargs (inl <$> fs) = OK fs.
Proof.
  intros Hp Hk Ha. unfold _check_kwargs, get. rewrite Hp, Hk, Ha. simpl.
  assert (mapR (λ field : FieldSchema + pyval,
                  match field with
                  | inl f => OK f
                  | inr _ => Raise (FieldTypeException FieldType)
                  end) (inl <$> fs) = OK fs) as ->; [|reflexivity].
  apply mapR_OK_Forall2, Forall2_fmap_l, Forall2_same_length_lookup.
  split; [reflexivity|]. intros i f g Hf Hg. simpl. congruence.
Qed.

(** The pieces of a successful [_check_fields]. *)
Lemma check_fields_OK (s s' : CollectionSchema) :
  _check_fields s = OK s' →
  ∃ fs' st' j p,
    check_fields_loop 0 (cs_fields s)
      (mkScan (get (cs_kwargs s) "primary_field" VNone)
              (get (cs_kwargs s) "partition_key_field" VNone)
              (cs_primary_field s) (cs_partition_key_field s)) = OK (fs', st')
    ∧ primary_ref st' = Some j ∧ fs' !! j = Some p
    ∧ is_key_dtype (dtype p) = true
    ∧ validate_partition_key (partition_key_field_name st')
        (partition_ref st' ≫= λ i, fs' !! i) (name p) = OK ()
    ∧ s' = mkCollectionSchema (cs_kwargs s)
             (if truthy (get (cs_kwargs s) "auto_id" (VBool false))
              then alter (set_auto_id (get (cs_kwargs s) "auto_id" (VBool false))) j fs'
              else fs')
             (cs_description s) (cs_enable_dynamic_field s)
             (Some j) (partition_ref st').
Proof.
  unfold _check_fields. intros Hc.
  apply bind_OK in Hc as ([fs' st'] & Hloop & Hc).
  apply bind_OK in Hc as ([] & Hprimary & Hc).
  destruct (primary_ref st') as [j|] eqn:Hj; [|discriminate].
  simpl in Hprimary, Hc.
  destruct (fs' !! j) as [p|] eqn:Hp; [|discriminate]. simpl in Hprimary, Hc.
  destruct (is_key_dtype (dtype p)) eqn:Hd; [|discriminate]. simpl in Hc.
  apply bind_OK in Hc as ([] & Hpartition & Hc).
  exists fs', st', j, p. rewrite Hj. simplify_eq. auto 10.
Qed.

(** A scan that follows an earlier successful one, over fields with the
    same names, flags and dtypes and without hints, succeeds with the same
    references and leaves the fields as they are. *)
Lemma check_fields_again (fs0 fs' gs : list FieldSchema) (st0 st' : scan)
    (j : nat) (p : FieldSchema) (kwargs : gmap string pyval) (desc : string)
    (e : pyval) :
  check_fields_loop 0 fs0 st0 = OK (fs', st') →
  primary_ref st0 = None → partition_ref st0 = None →
  primary_ref st' = Some j → fs' !! j = Some p →
  is_key_dtype (dtype p) = true →
  validate_partition_key (partition_key_field_name st')
    (partition_ref st' ≫= λ i, fs' !! i) (name p) = OK () →
  Forall2 (λ f g, same_flags f g ∧ dtype g = dtype f) fs' gs →
  kwargs !! "primary_field" = None → kwargs !! "partition_key_field" = None →
  kwargs !! "auto_id" = None →
  _check_fields (mkCollectionSchema kwargs gs desc e None None)
  = OK (mkCollectionSchema kwargs gs desc e (Some j) (partition_ref st')).
Proof.
  intros Hloop Hpr0 Hkr0 Hj Hp Hd Hpart Hsame Hkp Hkk Hka.
  unfold _check_fields, get. simpl. rewrite Hkp, Hkk, Hka. simpl.
  assert (follows st0 (mkScan VNone VNone None None)) as Hfol.
  { unfold follows. simpl. auto. }
  assert (Forall2 same_flags fs' gs) as Hflags.
  { eapply Forall2_impl; [exact Hsame|]. intros f g [Hfg _]. exact Hfg. }
  destruct (loop_rerun _ _ _ _ _ _ _ Hloop Hflags Hfol)
    as (st2 & Hloop2 & (_ & Hkn & Hpr & Hkr)).
  rewrite Hloop2. simpl. rewrite Hpr, Hj. simpl.
  destruct (Forall2_lookup_l _ _ _ _ _ Hsame Hp) as (q & Hq & (Hqn & _ & _) & Hqd).
  rewrite Hq. simpl. rewrite Hqd, Hd. simpl.
  assert (validate_partition_key (partition_key_field_name st2)
            (partition_ref st2 ≫= λ i, gs !! i) (name q) = OK ()) as ->.
  { rewrite Hkr. destruct (partition_ref st') as [k|]; simpl in *.
    - destruct (fs' !! k) as [pf|] eqn:Hpf.
      + destruct (Forall2_lookup_l _ _ _ _ _ Hsame Hpf) as (qf & Hqf & _ & Hqfd).
        rewrite Hqf. unfold validate_partition_key in *. rewrite Hqfd.
        destruct (negb (is_key_dtype (dtype pf))); [discriminate | reflexivity].
      + assert (gs !! k = None) as ->.
        { apply lookup_ge_None. rewrite <- (Forall2_length _ _ _ Hsame).
          apply lookup_ge_None, Hpf. }
        destruct Hkn as [-> | ->]; [reflexivity | exact Hpart].
    - destruct Hkn as [-> | ->]; [reflexivity | exact Hpart]. }
  simpl. rewrite Hkr. reflexivity.
Qed.

Section RoundTrip.
Context `{Collaborators}.

Lemma deepcopy_valid (f f' : FieldSchema) : deepcopy f = OK f' → valid_field f'.
Proof.
  unfold deepcopy, FieldSchema_construct_from_dict, FieldSchema_call.
  destruct (existsb _ _); [discriminate|]. apply FieldSchema_init_valid.
Qed.

Lemma flags_raised_valid (f f' : FieldSchema) :
  flags_raised f f' → valid_field f → valid_field f'.
Proof. intros (-> & _ & _). destruct f. exact id. Qed.

Lemma set_auto_id_valid (b : bool) (f : FieldSchema) :
  valid_field f → valid_field (set_auto_id (VBool b) f).
Proof.
  destruct f. unfold valid_field. simpl.
  intros (? & _ & ? & ? & ?). repeat split; eauto.
Qed.

(** C2, for field descriptors. *)
Lemma FieldSchema_roundtrip (n : string) (dt : dtype_arg) (desc : string)
    (kwargs : gmap string pyval) (f : FieldSchema) :
  common_type_params_ok →
  FieldSchema_init n dt desc kwargs = OK f →
  ∃ f', FieldSchema_construct_from_dict (FieldSchema_to_dict f) = OK f'
        ∧ FieldSchema_eq f' f = true.
Proof.
  intros Hcommon Hinit. apply FieldSchema_init_valid in Hinit.
  destruct (construct_from_to_dict f Hcommon Hinit) as (f' & Hf' & Heq & _).
  exists f'. split; [exact Hf'|]. apply bool_decide_eq_true_2, Heq.
Qed.

(** Rebuilding, or copying, a list of valid fields. *)
Lemma construct_from_to_dict_each (fs : list FieldSchema) :
  common_type_params_ok → Forall valid_field fs →
  ∃ gs, Forall2 (λ f g, FieldSchema_construct_from_dict (FieldSchema_to_dict f) = OK g
                        ∧ FieldSchema_to_dict g = FieldSchema_to_dict f
                        ∧ valid_field g) fs gs.
Proof.
  intros Hcommon Hvalid. induction Hvalid as [|f fs Hf Hfs [gs Hgs]].
  - exists []. constructor.
  - destruct (construct_from_to_dict f Hcommon Hf) as (g & Hg).
    exists (g :: gs). constructor; assumption.
Qed.

Lemma construct_from_to_dict_list (fs : list FieldSchema) :
  common_type_params_ok → Forall valid_field fs →
  ∃ gs, mapR FieldSchema_construct_from_dict (FieldSchema_to_dict <$> fs) = OK gs
        ∧ Forall2 (λ f g, FieldSchema_to_dict g = FieldSchema_to_dict f) fs gs
        ∧ Forall valid_field gs.
Proof.
  intros Hcommon Hvalid.
  destruct (construct_from_to_dict_each fs Hcommon Hvalid) as [gs Hgs].
  exists gs. split; [|split].
  - apply mapR_OK_Forall2, Forall2_fmap_l.
    eapply Forall2_impl; [exact Hgs|]. intros f g (Hg & _). exact Hg.
  - eapply Forall2_impl; [exact Hgs|]. intros f g (_ & Hg & _). exact Hg.
  - eapply Forall2_Forall_r; [exact Hgs|].
    apply Forall_forall. intros f _ g (_ & _ & Hg). exact Hg.
Qed.

Lemma deepcopy_list (fs : list FieldSchema) :
  common_type_params_ok → Forall valid_field fs →
  ∃ gs, mapR deepcopy fs = OK gs
        ∧ Forall2 (λ f g, FieldSchema_to_dict g = FieldSchema_to_dict f) fs gs
        ∧ Forall valid_field gs.
Proof.
  intros Hcommon Hvalid.
  destruct (construct_from_to_dict_each fs Hcommon Hvalid) as [gs Hgs].
  exists gs. split; [|split].
  - apply mapR_OK_Forall2.
    eapply Forall2_impl; [exact Hgs|]. intros f g (Hg & _). exact Hg.
  - eapply Forall2_impl; [exact Hgs|]. intros f g (_ & Hg & _). exact Hg.
  - eapply Forall2_Forall_r; [exact Hgs|].
    apply Forall_forall. intros f _ g (_ & _ & Hg). exact Hg.
Qed.

Lemma deepcopy_elem_list (fs gs : list FieldSchema) :
  mapR deepcopy fs = OK gs → mapR deepcopy_elem (inl <$> fs) = OK (inl <$> gs).
Proof.
  rewrite !mapR_OK_Forall2, Forall2_fmap. intros Hm.
  eapply Forall2_impl; [exact Hm|].
  intros f g Hg. simpl. rewrite Hg. reflexivity.
Qed.

Lemma deepcopy_elem_valid (l : list (FieldSchema + pyval)) (fs : list FieldSchema) :
  mapR deepcopy_elem l = OK (inl <$> fs) → Forall valid_field fs.
Proof.
  rewrite mapR_OK_Forall2, Forall2_fmap_r. intros Hl.
  eapply Forall2_Forall_r; [exact Hl|].
  apply Forall_forall. intros x _ g Hg. destruct x as [f|v]; simpl in Hg.
  - apply bind_OK in Hg as (f' & Hf' & Heq). simplify_eq.
    eapply deepcopy_valid, Hf'.
  - discriminate.
Qed.

Lemma fmap_to_dict_eq (fs gs : list FieldSchema) :
  Forall2 (λ f g, FieldSchema_to_dict g = FieldSchema_to_dict f) fs gs →
  FieldSchema_to_dict <$> gs = FieldSchema_to_dict <$> fs.
Proof.
  induction 1 as [|f g fs gs Hfg _ IH]; [reflexivity|].
  rewrite !fmap_cons, IH, Hfg. reflexivity.
Qed.

(** An entry that is written only when truthy reads back the same. *)
Lemma optional_entry_again (e : pyval) :
  (if truthy (default (VBool false) (if truthy e then Some e else None))
   then Some (default (VBool false) (if truthy e then Some e else None))
   else None)
  = (if truthy e then Some e else None).
Proof. destruct (truthy e) eqn:He; simpl; [rewrite He|]; reflexivity. Qed.

Lemma set_auto_id_keeps (v : pyval) (f : FieldSchema) :
  same_flags f (set_auto_id v f) ∧ dtype (set_auto_id v f) = dtype f.
Proof. destruct f. repeat split. Qed.

(** C2, for collection descriptors. *)
Lemma CollectionSchema_roundtrip (fields : fields_arg) (desc : string)
    (kwargs : gmap string pyval) (s : CollectionSchema) :
  common_type_params_ok →
  truthy (get kwargs "check_fields" (VBool true)) = true →
  CollectionSchema_init fields desc kwargs = OK s →
  ∃ d s', CollectionSchema_to_dict s = OK d
          ∧ CollectionSchema_construct_from_dict d = OK s'
          ∧ CollectionSchema_eq s' s = OK true.
Proof.
  intros Hcommon Hcheck Hinit. unfold CollectionSchema_init in Hinit.
  destruct fields as [v|l]; [discriminate|].
  apply bind_OK in Hinit as (copies & Hcopies & Hinit).
  apply bind_OK in Hinit as (fs0 & Hkw & Hinit). rewrite Hcheck in Hinit.
  apply check_kwargs_OK in Hkw as [-> Hauto].
  apply check_fields_OK in Hinit
    as (fs' & st' & j & p & Hloop & Hj & Hp & Hd & Hpart & ->).
  cbn [cs_kwargs cs_fields cs_description cs_enable_dynamic_field
       cs_primary_field cs_partition_key_field] in *.
  set (a := get kwargs "auto_id" (VBool false)).
  set (F := if truthy a then alter (set_auto_id a) j fs' else fs').
  set (e := get kwargs "enable_dynamic_field" (VBool false)).
  (* the fields of [s] *)
  assert (∃ b, a = VBool b) as [b Hb].
  { unfold a, get. destruct Hauto as [-> | [b ->]]; eauto. }
  assert (Forall valid_field fs') as Hvalid'.
  { eapply Forall2_Forall_r; [eapply loop_flags_raised, Hloop|].
    eapply Forall_impl; [eapply deepcopy_elem_valid, Hcopies|].
    intros f Hf f' Hff'. eapply flags_raised_valid; eassumption. }
  assert (Forall valid_field F) as HvalidF.
  { unfold F. destruct (truthy a); [|exact Hvalid'].
    apply Forall_alter; [exact Hvalid'|].
    intros f _ Hf. rewrite Hb. apply set_auto_id_valid, Hf. }
  assert (Forall2 (λ f g, same_flags f g ∧ dtype g = dtype f) fs' F) as HsameF.
  { unfold F. destruct (truthy a).
    - apply Forall2_alter_r.
      + apply Forall_Forall2_diag, Forall_forall. intros f _. repeat split.
      + intros f g _ _ (Hfg & Hdg).
        destruct (set_auto_id_keeps a g) as ((? & ? & ?) & ?).
        destruct Hfg as (? & ? & ?). repeat split; congruence.
    - apply Forall_Forall2_diag, Forall_forall. intros f _. repeat split. }
  assert (is_primary p = true) as Hprimary.
  { destruct (loop_refs _ _ _ _ _ Hloop) as [Hpr _]. simpl in Hpr.
    rewrite Hj in Hpr. symmetry in Hpr.
    apply last_index_Some in Hpr as [? | (k & f & -> & Hk & Hf)]; [discriminate|].
    simpl in Hp. congruence. }
  destruct (Forall2_lookup_l _ _ _ _ _ HsameF Hp) as (p' & Hp' & (_ & Hpp' & _) & _).
  (* serialising [s] *)
  eexists.
  assert (CollectionSchema_to_dict
            (mkCollectionSchema kwargs F desc e (Some j) (partition_ref st'))
          = OK (mkCollectionDict (Some (auto_id p')) (Some desc)
                  (FieldSchema_to_dict <$> F)
                  (if truthy e then Some e else None))) as Hdict.
  { unfold CollectionSchema_to_dict, CollectionSchema_auto_id, primary_field.
    simpl. rewrite Hp'. reflexivity. }
  (* rebuilding the fields, and copying them *)
  destruct (construct_from_to_dict_list F Hcommon HvalidF) as (gs1 & Hgs1 & Hsame1 & Hvalid1).
  destruct (deepcopy_list gs1 Hcommon Hvalid1) as (gs2 & Hgs2 & Hsame2 & Hvalid2).
  assert (Forall2 (λ f g, FieldSchema_to_dict g = FieldSchema_to_dict f) F gs2) as HsameF2.
  { eapply Forall2_trans; [|exact Hsame1|exact Hsame2].
    intros x y z Hxy Hyz. congruence. }
  assert (Forall2 (λ f g, same_flags f g ∧ dtype g = dtype f) fs' gs2) as Hsame02.
  { eapply Forall2_trans; [|exact HsameF|exact HsameF2].
    intros x y z ((Hn & Hpk & Hkk) & Hdy) Hyz.
    apply to_dict_eq_inv in Hyz as (? & ? & ? & ? & _).
    repeat split; congruence. }
  set (e' := default (VBool false) (if truthy e then Some e else None)).
  eexists.
  split; [exact Hdict|]. split.
  - unfold CollectionSchema_construct_from_dict. simpl. rewrite Hgs1. simpl.
    unfold CollectionSchema_init.
    rewrite (deepcopy_elem_list _ _ Hgs2). simpl.
    rewrite check_kwargs_plain by reflexivity. simpl.
    match goal with
    | |- (if truthy (get ?m "check_fields" ?d) then _ else _) = _ =>
        change (truthy (get m "check_fields" d)) with true
    end.
    cbv iota.
    eapply check_fields_again; try eassumption; reflexivity.
  - unfold CollectionSchema_eq. rewrite Hdict.
    unfold CollectionSchema_to_dict, CollectionSchema_auto_id, primary_field. simpl.
    destruct (Forall2_lookup_l _ _ _ _ _ HsameF2 Hp') as (q & Hq & Hqp).
    rewrite Hq. simpl.
    apply to_dict_eq_inv in Hqp as (_ & _ & Hqprim & _ & Hqa).
    rewrite Hqa by congruence.
    rewrite (fmap_to_dict_eq _ _ HsameF2).
    unfold get. rewrite lookup_singleton_eq. cbn [default]. unfold id.
    rewrite optional_entry_again.
    rewrite bool_decide_eq_true_2 by reflexivity. reflexivity.
Qed.

(** C2. A [FieldSchema] that [__init__] has built is rebuilt from its
    serialised form as an equal [FieldSchema]; a [CollectionSchema] that
    [__init__] has built and checked is rebuilt from its serialised form
    as an equal [CollectionSchema]. Equality is equality of the serialised
    forms. *)
Theorem serialised_form_round_trip :
  common_type_params_ok →
  (∀ n dt desc kwargs f,
     FieldSchema_init n dt desc kwargs = OK f →
     ∃ f', FieldSchema_construct_from_dict (FieldSchema_to_dict f) = OK f'
           ∧ FieldSchema_eq f' f = true)
  ∧ (∀ fields desc kwargs s,
       truthy (get kwargs "check_fields" (VBool true)) = true →
       CollectionSchema_init fields desc kwargs = OK s →
       ∃ d s', CollectionSchema_to_dict s = OK d
               ∧ CollectionSchema_construct_from_dict d = OK s'
               ∧ CollectionSchema_eq s' s = OK true).
Proof.
  intros Hcommon. split.
  - intros n dt desc kwargs f. apply FieldSchema_roundtrip, Hcommon.
  - intros fields desc kwargs s. apply CollectionSchema_roundtrip, Hcommon.
Qed.

End RoundTrip.

Definition id_field : FieldSchema :=
  mkFieldSchema "id" INT64 "" ∅ ∅ false (VBool false) (VBool false) false None.

Lemma sample_common_type_params_ok : common_type_params_ok (H := sample).
Proof.
  unfold common_type_params_ok. simpl.
  repeat constructor; apply (bool_decide_unpack _); vm_compute; exact I.
Qed.

Lemma serialised_form_round_trip_witness :
  common_type_params_ok (H := sample)
  ∧ (∃ f', FieldSchema_construct_from_dict (H := sample) (FieldSchema_to_dict vec_field)
           = OK f'
           ∧ FieldSchema_eq f' vec_field = true)
  ∧ (∃ s, CollectionSchema_init (H := sample)
            (FieldList [inl id_field; inl vec_field]) ""
            {[ "primary_field" := VStr "id" ]} = OK s
          ∧ ∃ d s', CollectionSchema_to_dict s = OK d
                    ∧ CollectionSchema_construct_from_dict (H := sample) d = OK s'
                    ∧ CollectionSchema_eq s' s = OK true).
Proof.
  split; [exact sample_common_type_params_ok|]. split.
  - apply (proj1 (serialised_form_round_trip (H := sample) sample_common_type_params_ok)
             "vec" (Dtype FLOAT_VECTOR) "" {[ "dim" := VInt 8 ]}).
    vm_compute. reflexivity.
  - eexists. split; [vm_compute; reflexivity|].
    apply (proj2 (serialised_form_round_trip (H := sample) sample_common_type_params_ok)
             (FieldList [inl id_field; inl vec_field]) ""
             {[ "primary_field" := VStr "id" ]}).
    + reflexivity.
    + vm_compute. reflexivity.
Defined.

(** ** Resolution of the primary key *)

Definition primary_error (e : exn) : Prop := ∃ m, e = PrimaryKeyException m.
Definition partition_error (e : exn) : Prop := ∃ m, e = PartitionKeyException m.

(** The hints are strings or absent, and [auto_id] is a [bool] or absent:
    what [_check_kwargs] asks of the keyword arguments. *)
Definition kwargs_well_typed (kwargs : gmap string pyval) : Prop :=
  (get kwargs "primary_field" VNone = VNone
   ∨ ∃ s, get kwargs "primary_field" VNone = VStr s)
  ∧ (get kwargs "partition_key_field" VNone = VNone
     ∨ ∃ s, get kwargs "partition_key_field" VNone = VStr s)
  ∧ (kwargs !! "auto_id" = None ∨ ∃ b, kwargs !! "auto_id" = Some (VBool b)).

(** [check_fields] is not switched off. *)
Definition checked (kwargs : gmap string pyval) : Prop :=
  truthy (get kwargs "check_fields" (VBool true)) = true.

(** No partition key is asked for: no hint, no flagged field. *)
Definition no_partition_key (kwargs : gmap string pyval) (fs : list FieldSchema) : Prop :=
  get kwargs "partition_key_field" VNone = VNone
  ∧ ∀ f, f ∈ fs → is_partition_key f = false.

Lemma check_kwargs_well_typed (kwargs : gmap string pyval) (fs : list FieldSchema) :
  kwargs_well_typed kwargs → _check_kwargs kwargs (inl <$> fs) = OK fs.
Proof.
  intros (Hp & Hk & Ha). unfold _check_kwargs.
  assert (negb (is_None (get kwargs "primary_field" VNone))
          && negb (isinstance_str (get kwargs "primary_field" VNone)) = false) as ->.
  { destruct Hp as [-> | [s ->]]; reflexivity. }
  assert (negb (is_None (get kwargs "partition_key_field" VNone))
          && negb (isinstance_str (get kwargs "partition_key_field" VNone)) = false) as ->.
  { destruct Hk as [-> | [s ->]]; reflexivity. }
  assert (mapR (λ field : FieldSchema + pyval,
                  match field with
                  | inl f => OK f
                  | inr _ => Raise (FieldTypeException FieldType)
                  end) (inl <$> fs) = OK fs) as ->.
  { apply mapR_OK_Forall2, Forall2_fmap_l, Forall2_same_length_lookup.
    split; [reflexivity|]. intros i f g Hf Hg. simpl. congruence. }
  simpl. destruct Ha as [-> | [b ->]]; reflexivity.
Qed.

Lemma transport_fields (Q : FieldSchema → Prop) (fs gs : list FieldSchema) :
  (∀ f g, FieldSchema_to_dict g = FieldSchema_to_dict f → Q f → Q g) →
  Forall2 (λ f g, FieldSchema_to_dict g = FieldSchema_to_dict f) fs gs →
  (∀ f, f ∈ fs → Q f) → ∀ g, g ∈ gs → Q g.
Proof.
  intros HQ Hsame Hfs g Hg. apply list_elem_of_lookup in Hg as [i Hi].
  destruct (Forall2_lookup_r _ _ _ _ _ Hsame Hi) as (f & Hf & Hfg).
  apply (HQ f g Hfg), Hfs. apply list_elem_of_lookup. eauto.
Qed.

(** ** The scan, one key at a time *)

(** What the loop of [_check_fields] does for one of its two keys, the
    other left aside. [held] is the name held ([primary_field_name] or
    [partition_key_field_name]), [ref] the field assigned so far. A field is
    taken when it bears the name held or is flagged; a field taken while
    another name is held is a clash, the place of the [raise]. *)
Inductive key_outcome :=
  | Clash (position : nat) (held : pyval) (found : string)
  | Settled (held : pyval) (ref : option nat).

Fixpoint key_scan (flag : FieldSchema → bool) (i : nat) (fields : list FieldSchema)
    (held : pyval) (ref : option nat) : key_outcome :=
  match fields with
  | [] => Settled held ref
  | field :: rest =>
      if flag field || eq_str held (name field) then
        if negb (is_None held) && negb (eq_str held (name field))
        then Clash i held (name field)
        else key_scan flag (S i) rest (VStr (name field)) (Some i)
      else key_scan flag (S i) rest held ref
  end.

Definition primary_clash (held : pyval) (found : string) : exn :=
  PrimaryKeyException (PrimaryKeyOnlyOne held (VStr found)).
Definition partition_clash (held : pyval) (found : string) : exn :=
  PartitionKeyException (PartitionKeyOnlyOne held (VStr found)).

(** The two scans put together: the loop stops at the first clash, and in
    one iteration the primary key is looked at first. *)
Definition scan_result (P K : key_outcome) : result scan :=
  match P, K with
  | Clash ip a b, Clash ik c d =>
      if (ip <=? ik)%nat then Raise (primary_clash a b) else Raise (partition_clash c d)
  | Clash _ a b, Settled _ _ => Raise (primary_clash a b)
  | Settled _ _, Clash _ c d => Raise (partition_clash c d)
  | Settled pn pr, Settled kn kr => OK (mkScan pn kn pr kr)
  end.

Definition primary_scan (kwargs : gmap string pyval) (fs : list FieldSchema) : key_outcome :=
  key_scan is_primary 0 fs (get kwargs "primary_field" VNone) None.
Definition partition_scan (kwargs : gmap string pyval) (fs : list FieldSchema) : key_outcome :=
  key_scan is_partition_key 0 fs (get kwargs "partition_key_field" VNone) None.

Lemma check_field_exact (i : nat) (f : FieldSchema) (st : scan) :
  check_field i f st =
  let P := is_primary f || eq_str (primary_field_name st) (name f) in
  let K := is_partition_key f || eq_str (partition_key_field_name st) (name f) in
  if P && (negb (is_None (primary_field_name st))
           && negb (eq_str (primary_field_name st) (name f)))
  then Raise (primary_clash (primary_field_name st) (name f))
  else if K && (negb (is_None (partition_key_field_name st))
                && negb (eq_str (partition_key_field_name st) (name f)))
  then Raise (partition_clash (partition_key_field_name st) (name f))
  else OK (set_is_partition_key K (set_is_primary P f),
           mkScan (if P then VStr (name f) else primary_field_name st)
                  (if K then VStr (name f) else partition_key_field_name st)
                  (if P then Some i else primary_ref st)
                  (if K then Some i else partition_ref st)).
Proof.
  destruct f as [n d ds tp kw p dy a k dv], st as [pn kn pr kr].
  unfold check_field. simpl.
  destruct (eq_str pn n) eqn:Hpn, (eq_str kn n) eqn:Hkn, p, k,
    (is_None pn) eqn:Hp0, (is_None kn) eqn:Hk0;
    do 3 (simpl; rewrite ?Hpn, ?Hkn, ?Hp0, ?Hk0); reflexivity.
Qed.

Lemma key_scan_Clash_ge (flag : FieldSchema → bool) (fs : list FieldSchema) (i : nat)
    (h : pyval) (r : option nat) (k : nat) (a : pyval) (b : string) :
  key_scan flag i fs h r = Clash k a b → (i ≤ k)%nat.
Proof.
  revert i h r. induction fs as [|f fs IH]; intros i h r Hs; simpl in Hs.
  - discriminate.
  - destruct (flag f || eq_str h (name f)).
    + destruct (negb (is_None h) && negb (eq_str h (name f))).
      * simplify_eq. lia.
      * apply IH in Hs. lia.
    + apply IH in Hs. lia.
Qed.

(** The loop is the two scans put together. *)
Lemma loop_outcome (fs : list FieldSchema) (i : nat) (st : scan) :
  (check_fields_loop i fs st ≫= λ r, OK r.2)
  = scan_result
      (key_scan is_primary i fs (primary_field_name st) (primary_ref st))
      (key_scan is_partition_key i fs (partition_key_field_name st) (partition_ref st)).
Proof.
  revert i st. induction fs as [|f fs IH]; intros i st.
  - destruct st. reflexivity.
  - cbn [check_fields_loop key_scan]. rewrite check_field_exact. cbv zeta.
    destruct st as [pn kn pr kr]. cbn [primary_field_name partition_key_field_name primary_ref partition_ref].
    destruct (is_primary f || eq_str pn (name f)) eqn:HP,
      (negb (is_None pn) && negb (eq_str pn (name f))) eqn:HPc,
      (is_partition_key f || eq_str kn (name f)) eqn:HK,
      (negb (is_None kn) && negb (eq_str kn (name f))) eqn:HKc;
      cbn [andb mbind result_bind scan_result];
      try (rewrite Nat.leb_refl; reflexivity);
      try (match goal with
           | |- context [check_fields_loop (S i) fs ?st1] =>
               pose proof (IH (S i) st1) as IH';
               cbn [primary_field_name partition_key_field_name primary_ref
                    partition_ref] in IH';
               rewrite <- IH';
               destruct (check_fields_loop (S i) fs st1) as [[? ?]|?]; reflexivity
           end).
    all: match goal with
         | |- context [key_scan ?flag (S ?j) ?l ?h ?r] =>
             destruct (key_scan flag (S j) l h r) eqn:Hs; cbn [scan_result];
             [apply key_scan_Clash_ge in Hs|]
         end;
      rewrite ?leb_correct by lia; rewrite ?leb_correct_conv by lia; reflexivity.
Qed.

Lemma key_scan_ext (flag : FieldSchema → bool) (fs gs : list FieldSchema) (i : nat)
    (h : pyval) (r : option nat) :
  Forall2 (λ f g, name g = name f ∧ flag g = flag f) fs gs →
  key_scan flag i gs h r = key_scan flag i fs h r.
Proof.
  intros Hsame. revert i h r.
  induction Hsame as [|f g fs gs [Hn Hf] _ IH]; intros i h r; simpl.
  - reflexivity.
  - rewrite Hn, Hf, !IH. reflexivity.
Qed.

(** Nothing is taken: the scan ends as it began. *)
Lemma key_scan_none (flag : FieldSchema → bool) (fs : list FieldSchema) (i : nat)
    (h : pyval) (r : option nat) :
  (∀ f, f ∈ fs → flag f = false ∧ eq_str h (name f) = false) →
  key_scan flag i fs h r = Settled h r.
Proof.
  revert i. induction fs as [|f fs IH]; intros i Hnone; simpl.
  - reflexivity.
  - destruct (Hnone f) as [-> ->]; [left|]. simpl.
    apply IH. intros g Hg. apply Hnone. right. exact Hg.
Qed.

(** A name held is held to the end. *)
Lemma key_scan_held_kept (flag : FieldSchema → bool) (fs : list FieldSchema) (i : nat)
    (s : string) (r : option nat) (h' : pyval) (r' : option nat) :
  key_scan flag i fs (VStr s) r = Settled h' r' → h' = VStr s.
Proof.
  revert i r. induction fs as [|f fs IH]; intros i r Hs; simpl in Hs.
  - congruence.
  - destruct (String.eqb s (name f)) eqn:Heq.
    + rewrite orb_true_r in Hs. simpl in Hs.
      apply String.eqb_eq in Heq as ->. eapply IH, Hs.
    + rewrite orb_false_r in Hs. simpl in Hs.
      destruct (flag f); [discriminate|]. eapply IH, Hs.
Qed.

(** A reference assigned is never taken back. *)
Lemma key_scan_ref_kept (flag : FieldSchema → bool) (fs : list FieldSchema) (i k : nat)
    (h h' : pyval) (r' : option nat) :
  key_scan flag i fs h (Some k) = Settled h' r' → r' ≠ None.
Proof.
  revert i k h. induction fs as [|f fs IH]; intros i k h Hs; simpl in Hs.
  - congruence.
  - destruct (flag f || eq_str h (name f)).
    + destruct (negb (is_None h) && negb (eq_str h (name f))); [discriminate|].
      eapply IH, Hs.
    + eapply IH, Hs.
Qed.

(** When the scan settles, every flagged field bears the name held. *)
Lemma key_scan_flagged (flag : FieldSchema → bool) (fs : list FieldSchema) (i : nat)
    (h : pyval) (r : option nat) (h' : pyval) (r' : option nat) :
  key_scan flag i fs h r = Settled h' r' →
  ∀ f, f ∈ fs → flag f = true → h' = VStr (name f).
Proof.
  revert i h r. induction fs as [|f fs IH]; intros i h r Hs g Hg Hflag.
  - inversion Hg.
  - simpl in Hs. apply elem_of_cons in Hg as [-> | Hg].
    + rewrite Hflag in Hs. simpl in Hs.
      destruct (negb (is_None h) && negb (eq_str h (name f))); [discriminate|].
      eapply key_scan_held_kept, Hs.
    + destruct (flag f || eq_str h (name f)).
      * destruct (negb (is_None h) && negb (eq_str h (name f))); [discriminate|].
        eapply IH; eauto.
      * eapply IH; eauto.
Qed.

(** Two flagged fields of different names: the scan clashes. *)
Lemma key_scan_two (flag : FieldSchema → bool) (fs : list FieldSchema) (i : nat)
    (h : pyval) (r : option nat) (f g : FieldSchema) :
  f ∈ fs → g ∈ fs → flag f = true → flag g = true → name f ≠ name g →
  ∃ k a b, key_scan flag i fs h r = Clash k a b.
Proof.
  intros Hf Hg Hff Hfg Hne.
  destruct (key_scan flag i fs h r) as [k a b | h' r'] eqn:Hs; [eauto|].
  exfalso. apply Hne.
  pose proof (key_scan_flagged _ _ _ _ _ _ _ Hs f Hf Hff).
  pose proof (key_scan_flagged _ _ _ _ _ _ _ Hs g Hg Hfg). congruence.
Qed.

(** One flagged field, alone under its name, and a name held that is its
    name if any: the scan settles on it. *)
Lemma key_scan_one (flag : FieldSchema → bool) (fs : list FieldSchema) (i j : nat)
    (f0 : FieldSchema) (h : pyval) (r : option nat) :
  fs !! j = Some f0 → flag f0 = true →
  (∀ k g, fs !! k = Some g → k ≠ j → flag g = false ∧ name g ≠ name f0) →
  h = VNone ∨ h = VStr (name f0) →
  key_scan flag i fs h r = Settled (VStr (name f0)) (Some (i + j)).
Proof.
  revert i j r. induction fs as [|f fs IH]; intros i j r Hj Hflag Hothers Hh.
  - discriminate.
  - destruct j as [|j]; simpl in Hj.
    + simplify_eq. simpl. rewrite Hflag. simpl.
      assert (negb (is_None h) && negb (eq_str h (name f0)) = false) as ->.
      { destruct Hh as [-> | ->]; [reflexivity|]. rewrite eq_str_VStr.
        apply andb_false_r. }
      rewrite Nat.add_0_r. apply key_scan_none.
      intros g Hg. apply list_elem_of_lookup in Hg as [k Hk].
      destruct (Hothers (S k) g Hk) as [Hgf Hgn]; [lia|].
      split; [exact Hgf|]. simpl. apply String.eqb_neq. congruence.
    + destruct (Hothers 0 f eq_refl) as [Hff Hfn]; [lia|].
      simpl. rewrite Hff.
      assert (eq_str h (name f) = false) as ->.
      { destruct Hh as [-> | ->]; [reflexivity|]. simpl.
        apply String.eqb_neq. congruence. }
      simpl. rewrite (IH (S i) j r Hj Hflag); [|
        intros k g Hk Hne; apply (Hothers (S k) g Hk); lia | exact Hh].
      f_equal. f_equal. lia.
Qed.

(** The field a settled scan refers to is one of the fields. *)
Lemma key_scan_ref (flag : FieldSchema → bool) (fs : list FieldSchema) (i : nat)
    (h : pyval) (r : option nat) (h' : pyval) (k : nat) :
  key_scan flag i fs h r = Settled h' (Some k) →
  r = Some k ∨ ∃ j q, k = (i + j)%nat ∧ fs !! j = Some q.
Proof.
  revert i h r. induction fs as [|f fs IH]; intros i h r Hs; simpl in Hs.
  - left. congruence.
  - assert (∀ h1 r1, key_scan flag (S i) fs h1 r1 = Settled h' (Some k) →
                     r1 = Some k ∨ ∃ j q, k = (i + j)%nat ∧ (f :: fs) !! j = Some q)
      as Hrest.
    { intros h1 r1 Hs1. apply IH in Hs1 as [-> | (j & q & -> & Hq)]; [left; reflexivity|].
      right. exists (S j), q. split; [lia|exact Hq]. }
    destruct (flag f || eq_str h (name f)).
    + destruct (negb (is_None h) && negb (eq_str h (name f))); [discriminate|].
      apply (Hrest _ _) in Hs as [Heq | Hin]; [|right; exact Hin].
      right. exists 0, f. simplify_eq. split; [lia|reflexivity].
    + apply (Hrest _ _ Hs).
Qed.

(** A scan that settles with no field has taken none. *)
Lemma key_scan_idle (flag : FieldSchema → bool) (fs : list FieldSchema) (i : nat)
    (h h' : pyval) :
  key_scan flag i fs h None = Settled h' None →
  h' = h ∧ ∀ f, f ∈ fs → flag f = false ∧ eq_str h (name f) = false.
Proof.
  revert i. induction fs as [|f fs IH]; intros i Hs; simpl in Hs.
  - split; [congruence|]. intros f Hf. inversion Hf.
  - destruct (flag f || eq_str h (name f)) eqn:Hc.
    + destruct (negb (is_None h) && negb (eq_str h (name f))); [discriminate|].
      apply key_scan_ref_kept in Hs. congruence.
    + apply IH in Hs as [-> Hrest]. split; [reflexivity|].
      apply orb_false_iff in Hc. intros g Hg.
      apply elem_of_cons in Hg as [-> | Hg]; [exact Hc | apply Hrest, Hg].
Qed.

(** No partition key is asked for exactly when the partition scan settles
    with no name and no field. *)
Lemma no_partition_key_scan (kwargs : gmap string pyval) (fs : list FieldSchema) :
  no_partition_key kwargs fs ↔ partition_scan kwargs fs = Settled VNone None.
Proof.
  unfold no_partition_key, partition_scan. split.
  - intros [Hk Hnok]. rewrite Hk. apply key_scan_none.
    intros f Hf. split; [apply Hnok, Hf | reflexivity].
  - intros Hs. apply key_scan_idle in Hs as [Hk Hnone].
    split; [congruence|]. intros f Hf. apply Hnone, Hf.
Qed.

Section PrimaryKey.
Context `{Collaborators}.

(** With checked, well-typed keyword arguments and valid fields,
    construction copies the fields and runs [_check_fields] on the copies. *)
Lemma init_checked (fs : list FieldSchema) (desc : string) (kwargs : gmap string pyval) :
  common_type_params_ok → Forall valid_field fs →
  kwargs_well_typed kwargs → checked kwargs →
  ∃ gs, Forall2 (λ f g, FieldSchema_to_dict g = FieldSchema_to_dict f) fs gs
        ∧ CollectionSchema_init (FieldList (inl <$> fs)) desc kwargs
          = _check_fields
              (mkCollectionSchema kwargs gs desc
                 (get kwargs "enable_dynamic_field" (VBool false)) None None).
Proof.
  intros Hcommon Hvalid Htyped Hchecked.
  destruct (deepcopy_list fs Hcommon Hvalid) as (gs & Hgs & Hsame & _).
  exists gs. split; [exact Hsame|].
  unfold CollectionSchema_init.
  rewrite (deepcopy_elem_list _ _ Hgs). simpl.
  rewrite (check_kwargs_well_typed _ _ Htyped). simpl.
  rewrite Hchecked. reflexivity.
Qed.

Lemma hint_agrees (hint : pyval) :
  hint = VNone ∨ (∃ s, hint = VStr s) → ∃ n, hint = VNone ∨ hint = VStr n.
Proof. intros [-> | [s ->]]; [exists "" | exists s]; auto. Qed.

(** (a) No field is flagged primary or named by the hint. *)
Lemma check_fields_no_primary (s : CollectionSchema) :
  cs_primary_field s = None →
  (get (cs_kwargs s) "primary_field" VNone = VNone
   ∨ ∃ h, get (cs_kwargs s) "primary_field" VNone = VStr h) →
  (∀ f, f ∈ cs_fields s →
        is_primary f = false
        ∧ eq_str (get (cs_kwargs s) "primary_field" VNone) (name f) = false) →
  (∃ e, _check_fields s = Raise e
        ∧ (e = PrimaryKeyException PrimaryKeyNotExist ∨ partition_error e))
  ∧ (no_partition_key (cs_kwargs s) (cs_fields s) →
     _check_fields s = Raise (PrimaryKeyException PrimaryKeyNotExist)).
Proof.
  intros Hnoref Hhint Hnone. unfold _check_fields.
  set (st := mkScan _ _ _ _).
  destruct (check_fields_loop 0 (cs_fields s) st) as [[fs' st']|e] eqn:Hloop.
  - destruct (loop_no_primary _ _ 0 st st' Hnone Hloop) as [Hpr _].
    simpl in Hpr. rewrite Hnoref in Hpr. simpl. rewrite Hpr. simpl. eauto.
  - simpl. destruct (hint_agrees _ Hhint) as [n Hn].
    assert (partition_error e) as Hpart.
    { assert (agree is_primary (primary_field_name st) (cs_fields s) n) as Hagree.
      { split; [exact Hn|]. intros f Hf Hflag.
        destruct (Hnone f Hf) as [Hflag' _]. congruence. }
      destruct (loop_Raise_partition _ 0 st _ _ Hagree Hloop) as (a & b & ->).
      eexists. reflexivity. }
    split; [eauto|].
    intros [Hk Hnok]. exfalso.
    assert (agree is_partition_key (partition_key_field_name st) (cs_fields s) "")
      as Hagree.
    { split; [left; exact Hk|]. intros f Hf Hflag. rewrite (Hnok f Hf) in Hflag.
      discriminate. }
    destruct (loop_Raise_primary _ 0 st _ _ Hagree Hloop) as (a & b & ->).
    destruct Hpart as [m Hm]. discriminate.
Qed.

(** (b) Two fields flagged primary bear different names. *)
Lemma check_fields_two_primary (s : CollectionSchema) (f g : FieldSchema) :
  f ∈ cs_fields s → g ∈ cs_fields s →
  is_primary f = true → is_primary g = true → name f ≠ name g →
  (∃ e, _check_fields s = Raise e ∧ (primary_error e ∨ partition_error e))
  ∧ (no_partition_key (cs_kwargs s) (cs_fields s) →
     ∃ a b, _check_fields s = Raise (PrimaryKeyException (PrimaryKeyOnlyOne a b))).
Proof.
  intros Hf Hg Hpf Hpg Hne. unfold _check_fields.
  set (st := mkScan _ _ _ _).
  destruct (check_fields_loop 0 (cs_fields s) st) as [[fs' st']|e] eqn:Hloop.
  - exfalso.
    pose proof (loop_flags_raised _ _ _ _ _ Hloop) as Hraised.
    destruct (loop_flagged_name _ _ _ _ _ Hloop) as [Hnames _].
    assert (∀ x, x ∈ cs_fields s → is_primary x = true →
                 primary_field_name st' = VStr (name x)) as Hall.
    { intros x Hx Hflag. apply list_elem_of_lookup in Hx as [i Hi].
      destruct (Forall2_lookup_l _ _ _ _ _ Hraised Hi) as (x' & Hi' & Hx' & Hp' & _).
      rewrite (Hnames x').
      - rewrite Hx'. destruct x. reflexivity.
      - apply list_elem_of_lookup. eauto.
      - apply Hp', Hflag. }
    apply Hne. pose proof (Hall f Hf Hpf). pose proof (Hall g Hg Hpg). congruence.
  - simpl. split.
    + exists e. split; [reflexivity|].
      apply loop_Raise in Hloop as [(a & b & ->) | (a & b & ->)];
        [left | right]; eexists; reflexivity.
    + intros [Hk Hnok].
      assert (agree is_partition_key (partition_key_field_name st) (cs_fields s) "")
        as Hagree.
      { split; [left; exact Hk|]. intros x Hx Hflag. rewrite (Hnok x Hx) in Hflag.
        discriminate. }
      destruct (loop_Raise_primary _ 0 st _ _ Hagree Hloop) as (a & b & ->). eauto.
Qed.

Lemma validate_partition_key_Raise (hint : pyval) (f : option FieldSchema)
    (n : string) (e : exn) :
  validate_partition_key hint f n = Raise e → partition_error e.
Proof.
  unfold validate_partition_key. destruct f as [f|].
  - destruct (negb _); intros Hv; simplify_eq. eexists. reflexivity.
  - destruct (negb _); intros Hv; simplify_eq. eexists. reflexivity.
Qed.

(** What [_check_fields] makes of the field at [j]: the assignment of the
    [auto_id] hint. *)
Definition with_auto_id (kwargs : gmap string pyval) (f : FieldSchema) : FieldSchema :=
  if truthy (get kwargs "auto_id" (VBool false))
  then set_auto_id (get kwargs "auto_id" (VBool false)) f
  else f.

Lemma with_auto_id_keeps (kwargs : gmap string pyval) (f : FieldSchema) :
  name (with_auto_id kwargs f) = name f
  ∧ dtype (with_auto_id kwargs f) = dtype f
  ∧ is_primary (with_auto_id kwargs f) = is_primary f.
Proof. unfold with_auto_id. destruct (truthy _), f; repeat split. Qed.

(** (c) Exactly one field is flagged primary; it has a key dtype, no other
    field bears its name, and the hint, if any, names it. *)
Lemma check_fields_one_primary (s : CollectionSchema) (j : nat) (f0 : FieldSchema) :
  cs_primary_field s = None → cs_partition_key_field s = None →
  cs_fields s !! j = Some f0 → is_primary f0 = true →
  is_key_dtype (dtype f0) = true →
  (∀ i g, cs_fields s !! i = Some g → i ≠ j →
          is_primary g = false ∧ name g ≠ name f0) →
  (get (cs_kwargs s) "primary_field" VNone = VNone
   ∨ get (cs_kwargs s) "primary_field" VNone = VStr (name f0)) →
  ((∃ s' p, _check_fields s = OK s'
            ∧ cs_primary_field s' = Some j ∧ primary_field s' = Some p
            ∧ name p = name f0 ∧ dtype p = dtype f0 ∧ is_primary p = true)
   ∨ (∃ e, _check_fields s = Raise e ∧ partition_error e))
  ∧ (no_partition_key (cs_kwargs s) (cs_fields s) →
     ∃ s', _check_fields s = OK s'
           ∧ cs_primary_field s' = Some j
           ∧ primary_field s' = Some (with_auto_id (cs_kwargs s) f0)).
Proof.
  intros Hnoref Hnokref Hj Hflag Hkey Hothers Hhint.
  assert (agree is_primary (get (cs_kwargs s) "primary_field" VNone)
            (cs_fields s) (name f0)) as Hagree.
  { split; [exact Hhint|]. intros x Hx Hpx.
    apply list_elem_of_lookup in Hx as [i Hi].
    destruct (decide (i = j)) as [-> | Hne]; [congruence|].
    destruct (Hothers i x Hi Hne) as [Hnp _]. congruence. }
  assert (no_partition_key (cs_kwargs s) (cs_fields s) →
          agree is_partition_key (get (cs_kwargs s) "partition_key_field" VNone)
            (cs_fields s) "") as Hagreek.
  { intros [Hk Hnok]. split; [left; exact Hk|].
    intros x Hx Hkx. rewrite (Hnok x Hx) in Hkx. discriminate. }
  unfold _check_fields.
  set (st := mkScan _ _ _ _).
  destruct (check_fields_loop 0 (cs_fields s) st) as [[fs' st']|e] eqn:Hloop.
  - pose proof (loop_flags_raised _ _ _ _ _ Hloop) as Hraised.
    destruct (loop_flagged_name _ _ _ _ _ Hloop) as [Hnames _].
    destruct (loop_refs _ _ _ _ _ Hloop) as [Hpr Hkr].
    destruct (Forall2_lookup_l _ _ _ _ _ Hraised Hj) as (f0' & Hj' & Hf0' & Hp0' & _).
    specialize (Hp0' Hflag).
    assert (name f0' = name f0 ∧ dtype f0' = dtype f0) as [Hn0 Hd0].
    { rewrite Hf0'. destruct f0. split; reflexivity. }
    assert (primary_field_name st' = VStr (name f0)) as Hpn'.
    { rewrite <- Hn0. apply Hnames; [|exact Hp0'].
      apply list_elem_of_lookup. eauto. }
    assert (primary_ref st' = Some j) as Hprj.
    { rewrite Hpr. apply (last_index_unique is_primary fs' 0 j f0'); try assumption.
      intros k g' Hk Hne.
      destruct (Forall2_lookup_r _ _ _ _ _ Hraised Hk) as (g & Hg & Hg' & _).
      destruct (Hothers k g Hg Hne) as [_ Hgn].
      destruct (is_primary g') eqn:Hpg'; [|reflexivity]. exfalso. apply Hgn.
      assert (primary_field_name st' = VStr (name g')) as Hpn''.
      { apply Hnames; [|exact Hpg']. apply list_elem_of_lookup. eauto. }
      rewrite Hg' in Hpn''. destruct g. simpl in *. congruence. }
    simpl. rewrite Hprj. simpl. rewrite Hj'. simpl.
    rewrite Hd0, Hkey. simpl.
    set (fields' := if truthy _ then _ else fs').
    assert (fields' !! j = Some (with_auto_id (cs_kwargs s) f0')) as Hfields'.
    { unfold fields', with_auto_id. destruct (truthy _); [|exact Hj'].
      rewrite list_lookup_alter_eq, Hj'. reflexivity. }
    destruct (with_auto_id_keeps (cs_kwargs s) f0') as (Hwn & Hwd & Hwp).
    split.
    + destruct (validate_partition_key _ _ _) as [[]|e] eqn:Hvalid; simpl.
      * left. do 2 eexists. split; [reflexivity|].
        unfold primary_field. simpl. rewrite Hfields'.
        repeat split; congruence.
      * right. exists e. split; [reflexivity|].
        eapply validate_partition_key_Raise, Hvalid.
    + intros Hnopart. pose proof Hnopart as [Hk Hnok].
      assert (∀ f, f ∈ cs_fields s →
                   is_partition_key f = false
                   ∧ eq_str (partition_key_field_name st) (name f) = false) as Hnone.
      { intros f Hf. split; [apply Hnok, Hf|]. simpl. rewrite Hk. reflexivity. }
      destruct (loop_no_partition _ _ 0 st st' Hnone Hloop) as (Hkr' & Hkn' & Hflags').
      simpl in Hkr', Hkn'. rewrite Hkr', Hkn', Hnokref, Hk. simpl.
      eexists. split; [reflexivity|]. split; [reflexivity|].
      unfold primary_field. simpl. rewrite Hfields'. f_equal. f_equal.
      rewrite Hf0', Hp0'.
      rewrite (Hflags' f0') by (apply list_elem_of_lookup; eauto).
      rewrite <- Hflag.
      rewrite <- (Hnok f0) at 1 by (apply list_elem_of_lookup; eauto).
      apply set_flags_same.
  - simpl.
    destruct (loop_Raise_partition _ 0 st _ _ Hagree Hloop) as (a & b & ->).
    split.
    + right. eexists. split; [reflexivity|]. eexists. reflexivity.
    + intros Hnopart.
      destruct (loop_Raise_primary _ 0 st _ _ (Hagreek Hnopart) Hloop) as (a' & b' & Heq).
      discriminate.
Qed.

(** [_check_fields] once the loop has ended with a primary field of a key
    dtype: what is left is [validate_partition_key] and the [auto_id] hint. *)
Lemma check_fields_after_scan (s : CollectionSchema) (fs' : list FieldSchema)
    (st' : scan) (j : nat) (g : FieldSchema) :
  check_fields_loop 0 (cs_fields s)
    (mkScan (get (cs_kwargs s) "primary_field" VNone)
            (get (cs_kwargs s) "partition_key_field" VNone)
            (cs_primary_field s) (cs_partition_key_field s)) = OK (fs', st') →
  primary_ref st' = Some j → fs' !! j = Some g → is_key_dtype (dtype g) = true →
  _check_fields s
  = (validate_partition_key (partition_key_field_name st')
       (partition_ref st' ≫= λ i, fs' !! i) (name g) ≫= λ _,
     OK (mkCollectionSchema (cs_kwargs s)
           (if truthy (get (cs_kwargs s) "auto_id" (VBool false))
            then alter (set_auto_id (get (cs_kwargs s) "auto_id" (VBool false))) j fs'
            else fs')
           (cs_description s) (cs_enable_dynamic_field s)
           (Some j) (partition_ref st'))).
Proof.
  intros Hloop Hj Hg Hkey. unfold _check_fields. rewrite Hloop.
  cbn [mbind result_bind]. rewrite Hj. cbn [mbind option_bind]. rewrite Hg.
  cbn [validate_primary_key]. rewrite Hkey. reflexivity.
Qed.

Lemma scan_result_Raise (s : CollectionSchema) (e : exn) :
  scan_result
    (key_scan is_primary 0 (cs_fields s) (get (cs_kwargs s) "primary_field" VNone)
       (cs_primary_field s))
    (key_scan is_partition_key 0 (cs_fields s)
       (get (cs_kwargs s) "partition_key_field" VNone) (cs_partition_key_field s))
  = Raise e →
  _check_fields s = Raise e.
Proof.
  intros Hs. unfold _check_fields.
  pose proof (loop_outcome (cs_fields s) 0
                (mkScan (get (cs_kwargs s) "primary_field" VNone)
                   (get (cs_kwargs s) "partition_key_field" VNone)
                   (cs_primary_field s) (cs_partition_key_field s))) as Hout.
  cbn [primary_field_name partition_key_field_name primary_ref partition_ref] in Hout.
  rewrite Hs in Hout.
  destruct (check_fields_loop _ _ _) as [[fs' st']|e']; simpl in Hout; [discriminate|].
  simpl. congruence.
Qed.

Lemma scan_result_OK (s : CollectionSchema) (st' : scan) :
  scan_result
    (key_scan is_primary 0 (cs_fields s) (get (cs_kwargs s) "primary_field" VNone)
       (cs_primary_field s))
    (key_scan is_partition_key 0 (cs_fields s)
       (get (cs_kwargs s) "partition_key_field" VNone) (cs_partition_key_field s))
  = OK st' →
  ∃ fs', check_fields_loop 0 (cs_fields s)
           (mkScan (get (cs_kwargs s) "primary_field" VNone)
              (get (cs_kwargs s) "partition_key_field" VNone)
              (cs_primary_field s) (cs_partition_key_field s)) = OK (fs', st').
Proof.
  intros Hs.
  pose proof (loop_outcome (cs_fields s) 0
                (mkScan (get (cs_kwargs s) "primary_field" VNone)
                   (get (cs_kwargs s) "partition_key_field" VNone)
                   (cs_primary_field s) (cs_partition_key_field s))) as Hout.
  cbn [primary_field_name partition_key_field_name primary_ref partition_ref] in Hout.
  rewrite Hs in Hout.
  destruct (check_fields_loop _ _ _) as [[fs' st'']|e']; simpl in Hout; [|discriminate].
  exists fs'. congruence.
Qed.

(** C3, amended. Construction with [check_fields] on, well-typed keyword
    arguments and valid [FieldSchema] objects. [primary_scan] and
    [partition_scan] are the scan of the fields for each of the two keys,
    started with the hint as the name held.
    (a) No field is flagged primary and the [primary_field] hint names none:
    construction fails, with the [PartitionKeyOnlyOne] error when the
    partition scan clashes, with [PrimaryKeyNotExist] otherwise.
    (b) Two fields flagged primary bear different names: the primary scan
    clashes and construction fails, with the [PartitionKeyOnlyOne] error when
    the partition scan clashes at an earlier field, with the
    [PrimaryKeyOnlyOne] error otherwise.
    (c) Exactly one field is flagged primary, of dtype [INT64] or [VARCHAR],
    no other field bears its name and the hint, if any, names it:
    construction fails with [PartitionKeyOnlyOne] when the partition scan
    clashes, with [PartitionKeyFieldNotExist] when it ends with a name held
    and no field, with [PartitionKeyType] when it ends with a field of
    another dtype; in every other case it succeeds, and [primary_field] is
    that field: its copy, at its position, equal to it when no partition key
    is asked for and [auto_id] is not set.
    No partition key is asked for (no hint, no flagged field) exactly when
    the partition scan ends with no name held and no field. *)
Theorem primary_key_resolution (fs : list FieldSchema) (desc : string)
    (kwargs : gmap string pyval) :
  common_type_params_ok → Forall valid_field fs →
  kwargs_well_typed kwargs → checked kwargs →
  ((∀ f, f ∈ fs → is_primary f = false
                  ∧ eq_str (get kwargs "primary_field" VNone) (name f) = false) →
   match partition_scan kwargs fs with
   | Clash _ held found =>
       CollectionSchema_init (FieldList (inl <$> fs)) desc kwargs
       = Raise (partition_clash held found)
   | Settled _ _ =>
       CollectionSchema_init (FieldList (inl <$> fs)) desc kwargs
       = Raise (PrimaryKeyException PrimaryKeyNotExist)
   end)
  ∧ (∀ f g, f ∈ fs → g ∈ fs → is_primary f = true → is_primary g = true →
            name f ≠ name g →
      ∃ ip a b, primary_scan kwargs fs = Clash ip a b
        ∧ match partition_scan kwargs fs with
          | Clash ik held found =>
              CollectionSchema_init (FieldList (inl <$> fs)) desc kwargs
              = if (ik <? ip)%nat then Raise (partition_clash held found)
                else Raise (primary_clash a b)
          | Settled _ _ =>
              CollectionSchema_init (FieldList (inl <$> fs)) desc kwargs
              = Raise (primary_clash a b)
          end)
  ∧ (∀ j f0, fs !! j = Some f0 → is_primary f0 = true →
             is_key_dtype (dtype f0) = true →
             (∀ i g, fs !! i = Some g → i ≠ j →
                     is_primary g = false ∧ name g ≠ name f0) →
             (get kwargs "primary_field" VNone = VNone
              ∨ get kwargs "primary_field" VNone = VStr (name f0)) →
      match partition_scan kwargs fs with
      | Clash _ held found =>
          CollectionSchema_init (FieldList (inl <$> fs)) desc kwargs
          = Raise (partition_clash held found)
      | Settled held None =>
          if is_None held
          then ∃ s p, CollectionSchema_init (FieldList (inl <$> fs)) desc kwargs = OK s
                 ∧ cs_primary_field s = Some j ∧ cs_partition_key_field s = None
                 ∧ primary_field s = Some p
                 ∧ name p = name f0 ∧ dtype p = dtype f0 ∧ is_primary p = true
                 ∧ (truthy (get kwargs "auto_id" (VBool false)) = false →
                    FieldSchema_eq p f0 = true)
          else CollectionSchema_init (FieldList (inl <$> fs)) desc kwargs
               = Raise (PartitionKeyException (PartitionKeyFieldNotExist held))
      | Settled _ (Some k) =>
          ∃ q, fs !! k = Some q
            ∧ if is_key_dtype (dtype q)
              then ∃ s p, CollectionSchema_init (FieldList (inl <$> fs)) desc kwargs = OK s
                     ∧ cs_primary_field s = Some j ∧ cs_partition_key_field s = Some k
                     ∧ primary_field s = Some p
                     ∧ name p = name f0 ∧ dtype p = dtype f0 ∧ is_primary p = true
              else CollectionSchema_init (FieldList (inl <$> fs)) desc kwargs
                   = Raise (PartitionKeyException PartitionKeyType)
      end)
  ∧ (no_partition_key kwargs fs ↔ partition_scan kwargs fs = Settled VNone None).
Proof.
  intros Hcommon Hvalid Htyped Hchecked.
  destruct (init_checked fs desc kwargs Hcommon Hvalid Htyped Hchecked)
    as (gs & Hsame & ->).
  set (s := mkCollectionSchema kwargs gs desc _ None None).
  assert (key_scan is_primary 0 gs (get kwargs "primary_field" VNone) None
          = primary_scan kwargs fs) as HP.
  { apply key_scan_ext. eapply Forall2_impl; [exact Hsame|].
    intros f g Hfg. apply to_dict_eq_inv in Hfg as (? & _ & ? & _). auto. }
  assert (key_scan is_partition_key 0 gs (get kwargs "partition_key_field" VNone) None
          = partition_scan kwargs fs) as HK.
  { apply key_scan_ext. eapply Forall2_impl; [exact Hsame|].
    intros f g Hfg. apply to_dict_eq_inv in Hfg as (? & _ & _ & ? & _). auto. }
  assert (∀ e, scan_result (primary_scan kwargs fs) (partition_scan kwargs fs) = Raise e →
               _check_fields s = Raise e) as Hraise.
  { intros e He. apply scan_result_Raise. cbn [s cs_fields cs_kwargs cs_primary_field
      cs_partition_key_field]. rewrite HP, HK. exact He. }
  assert (∀ st', scan_result (primary_scan kwargs fs) (partition_scan kwargs fs) = OK st' →
                 ∃ fs', check_fields_loop 0 gs
                          (mkScan (get kwargs "primary_field" VNone)
                             (get kwargs "partition_key_field" VNone) None None)
                        = OK (fs', st')) as Hok.
  { intros st' Hst. apply (scan_result_OK s). cbn [s cs_fields cs_kwargs cs_primary_field
      cs_partition_key_field]. rewrite HP, HK. exact Hst. }
  split; [|split; [|split]].
  - intros Hnone.
    assert (primary_scan kwargs fs = Settled (get kwargs "primary_field" VNone) None)
      as HPs by (apply key_scan_none, Hnone).
    destruct (partition_scan kwargs fs) as [ik c d | kn kr] eqn:HKs.
    + apply Hraise. rewrite HPs. reflexivity.
    + destruct (Hok (mkScan (get kwargs "primary_field" VNone) kn None kr))
        as (fs' & Hloop); [rewrite HPs; reflexivity|].
      unfold _check_fields. cbn [s cs_fields cs_kwargs cs_primary_field
        cs_partition_key_field]. rewrite Hloop. reflexivity.
  - intros f g Hf Hg Hpf Hpg Hne.
    destruct (key_scan_two is_primary fs 0 (get kwargs "primary_field" VNone) None
                f g Hf Hg Hpf Hpg Hne) as (ip & a & b & HPs).
    exists ip, a, b. split; [exact HPs|]. fold (primary_scan kwargs fs) in HPs.
    destruct (partition_scan kwargs fs) as [ik c d | kn kr] eqn:HKs.
    + destruct (ik <? ip)%nat eqn:Hlt; apply Hraise; rewrite HPs; cbn [scan_result].
      * apply Nat.ltb_lt in Hlt. rewrite leb_correct_conv by lia. reflexivity.
      * apply Nat.ltb_ge in Hlt. rewrite leb_correct by lia. reflexivity.
    + apply Hraise. rewrite HPs. reflexivity.
  - intros j f0 Hj Hflag Hkey Hothers Hh.
    pose proof (key_scan_one is_primary fs 0 j f0 (get kwargs "primary_field" VNone) None
                  Hj Hflag Hothers Hh) as HPs.
    fold (primary_scan kwargs fs) in HPs. rewrite Nat.add_0_l in HPs.
    destruct (Forall2_lookup_l _ _ _ _ _ Hsame Hj) as (g0 & Hj' & Hfg0).
    pose proof Hfg0 as Hdict0.
    apply to_dict_eq_inv in Hfg0 as (Hn0 & Hd0 & Hp0 & Hk0 & _).
    destruct (partition_scan kwargs fs) as [ik c d | kn kr] eqn:HKs.
    { apply Hraise. rewrite HPs. reflexivity. }
    destruct (Hok (mkScan (VStr (name f0)) kn (Some j) kr)) as (fs' & Hloop);
      [rewrite HPs; reflexivity|].
    pose proof (loop_flags_raised _ _ _ _ _ Hloop) as Hraised.
    destruct (Forall2_lookup_l _ _ _ _ _ Hraised Hj') as (g0' & Hj'' & Hg0' & Hp0' & Hk0').
    assert (name g0' = name g0 ∧ dtype g0' = dtype g0) as [Hn0' Hd0'].
    { rewrite Hg0'. destruct g0. split; reflexivity. }
    rewrite (check_fields_after_scan s fs' _ j g0' Hloop eq_refl Hj'')
      by congruence.
    cbn [partition_key_field_name partition_ref s cs_kwargs cs_description
         cs_enable_dynamic_field].
    set (fields' := if truthy _ then _ else fs').
    assert (fields' !! j = Some (with_auto_id kwargs g0')) as Hfields'.
    { unfold fields', with_auto_id. destruct (truthy _); [|exact Hj''].
      rewrite list_lookup_alter_eq, Hj''. reflexivity. }
    destruct (with_auto_id_keeps kwargs g0') as (Hwn & Hwd & Hwp).
    destruct kr as [k|].
    + destruct (key_scan_ref _ _ _ _ _ _ _ HKs) as [? | (k' & q & Hk' & Hq)];
        [discriminate|].
      rewrite Nat.add_0_l in Hk'. subst k'. exists q. split; [exact Hq|].
      destruct (Forall2_lookup_l _ _ _ _ _ Hsame Hq) as (q1 & Hq1 & Hqq1).
      apply to_dict_eq_inv in Hqq1 as (_ & Hqd & _).
      destruct (Forall2_lookup_l _ _ _ _ _ Hraised Hq1) as (q' & Hq' & Hqq' & _).
      assert (dtype q' = dtype q) as Hqd'.
      { rewrite Hqq'. destruct q1. simpl in *. congruence. }
      cbn [mbind option_bind]. rewrite Hq'. cbn [validate_partition_key].
      rewrite Hqd'. destruct (is_key_dtype (dtype q)); [|reflexivity].
      cbn [negb mbind result_bind].
      eexists _, _. split; [reflexivity|].
      cbn [cs_primary_field cs_partition_key_field]. unfold primary_field.
      cbn [cs_primary_field cs_fields mbind option_bind]. rewrite Hfields'.
      repeat split; try congruence. rewrite Hwp. apply Hp0'. congruence.
    + cbn [mbind option_bind validate_partition_key].
      destruct (is_None kn) eqn:Hnone; [|reflexivity].
      cbn [negb mbind result_bind].
      eexists _, _. split; [reflexivity|].
      cbn [cs_primary_field cs_partition_key_field]. unfold primary_field.
      cbn [cs_primary_field cs_fields mbind option_bind]. rewrite Hfields'.
      assert (is_primary g0' = true) as Hpg by (apply Hp0'; congruence).
      repeat split; try congruence.
      intros Hfalse. unfold with_auto_id. rewrite Hfalse.
      apply key_scan_idle in HKs as [_ Hidle].
      assert (∀ g, g ∈ gs → is_partition_key g = false
                ∧ eq_str (get kwargs "partition_key_field" VNone) (name g) = false)
        as Hidle'.
      { apply (transport_fields _ fs gs); [|exact Hsame|exact Hidle].
        intros f g Hfg [Hf Hn]. apply to_dict_eq_inv in Hfg as (Hname & _ & _ & Hkk & _).
        split; congruence. }
      destruct (loop_no_partition gs fs' 0 (mkScan _ _ _ _) _ Hidle' Hloop)
        as (_ & _ & Hflags').
      assert (g0' = g0) as ->.
      { assert (is_partition_key g0' = false) as Hkg'
          by (apply Hflags', list_elem_of_lookup; eauto).
        assert (is_partition_key g0 = false) as Hkg
          by (apply Hidle', list_elem_of_lookup; eauto).
        assert (is_primary g0 = true) as Hpg0 by congruence.
        etransitivity; [exact Hg0'|]. rewrite Hpg, Hkg', <- Hpg0, <- Hkg.
        apply set_flags_same. }
      apply bool_decide_eq_true_2, Hdict0.
  - apply no_partition_key_scan.
Qed.

End PrimaryKey.

(** Valid fields without type params or default value. *)
Lemma plain_field_valid `{Collaborators} (n : string) (d : DataType) (desc : string)
    (kw : gmap string pyval) (p k : bool) (a : bool) :
  d ≠ UNKNOWN → valid_field (mkFieldSchema n d desc ∅ kw p (VBool false) (VBool a) k None).
Proof.
  intros Hd. unfold valid_field, dtype. simpl.
  split; [exact Hd|]. split; [eauto|]. split; [discriminate|]. split; [|reflexivity].
  intros key [v Hv]. rewrite lookup_empty in Hv. discriminate.
Qed.

Lemma vec_field_valid : valid_field (H := sample) vec_field.
Proof.
  unfold valid_field, dtype. simpl.
  split; [discriminate|]. split; [eauto|]. split; [discriminate|].
  split; [|discriminate].
  intros key [v Hv]. destruct (decide (key = "dim")) as [-> | Hne]; [left|].
  rewrite lookup_singleton_ne in Hv by congruence. discriminate.
Qed.

Definition id_primary : FieldSchema :=
  mkFieldSchema "id" INT64 "" ∅ ∅ true (VBool false) (VBool false) false None.
Definition score_partition : FieldSchema :=
  mkFieldSchema "score" FLOAT "" ∅ ∅ false (VBool false) (VBool false) true None.
Definition tag_partition : FieldSchema :=
  mkFieldSchema "tag" VARCHAR "" ∅ ∅ false (VBool false) (VBool false) true None.
Definition group_partition : FieldSchema :=
  mkFieldSchema "group" VARCHAR "" ∅ ∅ false (VBool false) (VBool false) true None.

(** C3, as stated, fails. With exactly one field flagged primary, of dtype
    [INT64], construction still fails when the partition key has a dtype
    that is not allowed, or when the [primary_field] hint names another
    field; and with no primary field at all the exception is a
    [PartitionKeyException] when two partition-key names clash. *)
Lemma one_primary_flag_is_not_enough :
  CollectionSchema_init (H := sample) (FieldList [inl id_primary; inl score_partition]) "" ∅
  = Raise (PartitionKeyException PartitionKeyType)
  ∧ CollectionSchema_init (H := sample) (FieldList [inl id_primary]) ""
      {[ "primary_field" := VStr "other" ]}
    = Raise (PrimaryKeyException (PrimaryKeyOnlyOne (VStr "other") (VStr "id")))
  ∧ CollectionSchema_init (H := sample)
      (FieldList [inl tag_partition; inl group_partition]) "" ∅
    = Raise (PartitionKeyException (PartitionKeyOnlyOne (VStr "tag") (VStr "group"))).
Proof. repeat split; vm_compute; reflexivity. Qed.

Lemma primary_key_resolution_witness :
  (∃ s p, CollectionSchema_init (H := sample)
            (FieldList (inl <$> [id_primary; tag_partition])) "" ∅ = OK s
          ∧ cs_primary_field s = Some 0 ∧ cs_partition_key_field s = Some 1
          ∧ primary_field s = Some p
          ∧ name p = name id_primary ∧ dtype p = dtype id_primary
          ∧ is_primary p = true)
  ∧ CollectionSchema_init (H := sample) (FieldList (inl <$> [tag_partition])) "" ∅
    = Raise (PrimaryKeyException PrimaryKeyNotExist).
Proof.
  assert (kwargs_well_typed ∅) as Htyped.
  { repeat split; left; reflexivity. }
  split.
  - assert (Forall (valid_field (H := sample)) [id_primary; tag_partition]) as Hvalid.
    { constructor; [|constructor; [|constructor]];
        apply (plain_field_valid (H := sample)); discriminate. }
    destruct (proj1 (proj2 (proj2 (primary_key_resolution (H := sample)
                [id_primary; tag_partition] "" ∅ sample_common_type_params_ok
                Hvalid Htyped eq_refl)))
                0 id_primary eq_refl eq_refl eq_refl) as (q & Hq & Hc).
    + intros i g Hi Hne. destruct i as [|[|i]]; simpl in Hi; [congruence| |discriminate].
      injection Hi as <-. split; [reflexivity | discriminate].
    + left. reflexivity.
    + injection Hq as <-. exact Hc.
  - assert (Forall (valid_field (H := sample)) [tag_partition]) as Hvalid.
    { constructor; [|constructor].
      apply (plain_field_valid (H := sample)). discriminate. }
    apply (proj1 (primary_key_resolution (H := sample) [tag_partition] "" ∅
                    sample_common_type_params_ok Hvalid Htyped eq_refl)).
    intros f Hf. apply list_elem_of_singleton in Hf as ->. split; reflexivity.
Defined.

(** ** Column preparation *)

Section ColumnPreparation.
Context `{Collaborators}.

(** The enumeration member a column's numpy dtype maps to. *)
Definition mapped_dtype (c : column) : DataType :=
  map_numpy_dtype_to_datatype (col_dtype c).

(** The type of a column after sampling: the mapped one, or the one inferred
    from the value in the first row when the mapped one is unknown. *)
Definition sampled_dtype (c : column) : DataType :=
  if bool_decide (mapped_dtype c = UNKNOWN)
  then infer_dtype_bydata (col_cell c 0)
  else mapped_dtype c.

(** The type params sampling captures for a column, if any. *)
Definition captured (c : column) : option (gmap string pyval) :=
  if bool_decide (mapped_dtype c = UNKNOWN) then
    match infer_dtype_bydata (col_cell c 0), py_len (col_cell c 0) with
    | BINARY_VECTOR, OK n => Some {[ "dim" := VInt (Z.of_nat n * 8) ]}
    | FLOAT_VECTOR, OK n => Some {[ "dim" := VInt (Z.of_nat n) ]}
    | _, _ => None
    end
  else None.

Definition capture (m : gmap string (gmap string pyval)) (c : column)
    : gmap string (gmap string pyval) :=
  match captured c with
  | Some type_params => <[col_name c := type_params]> m
  | None => m
  end.

(** The type inference reports a vector type only for values that have a
    length. *)
Definition vectors_sized : Prop :=
  ∀ v, infer_dtype_bydata v = BINARY_VECTOR ∨ infer_dtype_bydata v = FLOAT_VECTOR →
       ∃ n, py_len v = OK n.

Lemma sample_columns_OK (cols : list column) (m : gmap string (gmap string pyval)) :
  vectors_sized →
  sample_columns cols (mapped_dtype <$> cols) m
  = OK (sampled_dtype <$> cols, fold_left capture cols m).
Proof.
  intros Hsized. revert m. induction cols as [|c cols IH]; intros m.
  - reflexivity.
  - rewrite !fmap_cons. cbn [sample_columns fold_left].
    unfold capture at 2, captured, sampled_dtype at 1.
    destruct (bool_decide (mapped_dtype c = UNKNOWN)) eqn:Hu.
    + destruct (infer_dtype_bydata (col_cell c 0)) eqn:Hinfer;
        try (simpl; rewrite IH; reflexivity);
        (destruct (Hsized (col_cell c 0)) as [n Hn]; [auto|]);
        rewrite Hn; simpl; rewrite IH; reflexivity.
    + rewrite IH. reflexivity.
Qed.

Lemma fold_capture_other (cols : list column) (m : gmap string (gmap string pyval))
    (k : string) :
  k ∉ col_name <$> cols → fold_left capture cols m !! k = m !! k.
Proof.
  revert m. induction cols as [|c cols IH]; intros m Hk; [reflexivity|].
  rewrite fmap_cons in Hk. apply not_elem_of_cons in Hk as [Hne Hk].
  simpl. rewrite IH by exact Hk. unfold capture.
  destruct (captured c); [apply lookup_insert_ne; congruence | reflexivity].
Qed.

(** With distinct labels, the map of type params holds for each column what
    was captured for it. *)
Lemma fold_capture_lookup (cols : list column) (m : gmap string (gmap string pyval))
    (c : column) :
  NoDup (col_name <$> cols) → c ∈ cols →
  (∀ k, k ∈ col_name <$> cols → m !! k = None) →
  fold_left capture cols m !! col_name c = captured c.
Proof.
  revert m. induction cols as [|c' cols IH]; intros m Hnodup Hc Hfresh.
  - inversion Hc.
  - rewrite fmap_cons in Hnodup. apply NoDup_cons in Hnodup as [Hnotin Hnodup].
    simpl. apply elem_of_cons in Hc as [-> | Hc].
    + rewrite fold_capture_other by exact Hnotin. unfold capture.
      destruct (captured c'); [apply lookup_insert_eq|].
      apply Hfresh. rewrite fmap_cons. left.
    + apply IH; [exact Hnodup | exact Hc |].
      intros k Hk. unfold capture.
      assert (m !! k = None) as Hm by (apply Hfresh; rewrite fmap_cons; right; exact Hk).
      destruct (captured c'); [|exact Hm].
      rewrite lookup_insert_ne; [exact Hm|]. intros <-. contradiction.
Qed.

(** C5. [prepare_fields_from_dataframe] maps the dtype of every column to the
    enumeration; a column whose mapped type is unknown gets the type inferred
    from the value in the first row, and a vector type has its dimension
    captured under the column's label: eight times the length for a binary
    vector, the length for a float vector. It raises
    [CannotInferSchemaException] exactly when some mapped type is unknown
    and either the frame is empty or some type is still unknown after
    sampling, and it raises nothing else. *)
Theorem prepare_fields_from_dataframe_cases (df : DataFrame) :
  vectors_sized →
  (UNKNOWN ∉ mapped_dtype <$> df_columns df →
     prepare_fields_from_dataframe df
     = OK (columns df, mapped_dtype <$> df_columns df, ∅))
  ∧ (UNKNOWN ∈ mapped_dtype <$> df_columns df → df_len df ≠ 0 →
     UNKNOWN ∉ sampled_dtype <$> df_columns df →
     ∃ m, prepare_fields_from_dataframe df
          = OK (columns df, sampled_dtype <$> df_columns df, m)
          ∧ (NoDup (columns df) →
             ∀ c, c ∈ df_columns df → m !! col_name c = captured c))
  ∧ (∀ c n, mapped_dtype c = UNKNOWN → py_len (col_cell c 0) = OK n →
       (infer_dtype_bydata (col_cell c 0) = BINARY_VECTOR →
          captured c = Some {[ "dim" := VInt (Z.of_nat n * 8) ]})
       ∧ (infer_dtype_bydata (col_cell c 0) = FLOAT_VECTOR →
          captured c = Some {[ "dim" := VInt (Z.of_nat n) ]}))
  ∧ (∀ e, prepare_fields_from_dataframe df = Raise e ↔
          e = CannotInferSchemaException DataFrameInvalid
          ∧ UNKNOWN ∈ mapped_dtype <$> df_columns df
          ∧ (df_len df = 0 ∨ UNKNOWN ∈ sampled_dtype <$> df_columns df)).
Proof.
  intros Hsized.
  assert (map_numpy_dtype_to_datatype <$> (col_dtype <$> df_columns df)
          = mapped_dtype <$> df_columns df) as Hmapped.
  { rewrite <- list_fmap_compose. reflexivity. }
  unfold prepare_fields_from_dataframe. rewrite Hmapped.
  split; [|split; [|split]].
  - intros Hknown. rewrite (bool_decide_eq_false_2 _ Hknown). simpl.
    rewrite (bool_decide_eq_false_2 _ Hknown). reflexivity.
  - intros Hunknown Hlen Hsampled.
    rewrite (bool_decide_eq_true_2 _ Hunknown).
    destruct (Nat.eqb_spec (df_len df) 0) as [|_]; [contradiction|].
    rewrite (sample_columns_OK _ _ Hsized). simpl.
    rewrite (bool_decide_eq_false_2 _ Hsampled).
    eexists. split; [reflexivity|].
    intros Hnodup c Hc. apply fold_capture_lookup; [exact Hnodup | exact Hc |].
    intros k _. apply lookup_empty.
  - intros c n Hu Hn. unfold captured.
    rewrite (bool_decide_eq_true_2 _ Hu), Hn.
    split; intros ->; reflexivity.
  - intros e. destruct (decide (UNKNOWN ∈ mapped_dtype <$> df_columns df)) as [Hu | Hu].
    + rewrite (bool_decide_eq_true_2 _ Hu).
      destruct (Nat.eqb_spec (df_len df) 0) as [Hlen | Hlen]; simpl.
      * split; [intros [= <-]; auto | intros (-> & _); reflexivity].
      * rewrite (sample_columns_OK _ _ Hsized). simpl.
        case_bool_decide as Hs; simpl.
        -- split; [intros [= <-]; auto | intros (-> & _); reflexivity].
        -- split; [discriminate|]. intros (_ & _ & [? | ?]); contradiction.
    + rewrite (bool_decide_eq_false_2 _ Hu). simpl.
      rewrite (bool_decide_eq_false_2 _ Hu).
      split; [discriminate|]. intros (_ & ? & _). contradiction.
Qed.

End ColumnPreparation.

Lemma sample_vectors_sized : vectors_sized (H := sample).
Proof.
  intros v Hv. simpl in Hv.
  destruct v as [| | | | |bs|l| |]; simpl in Hv;
    try (destruct Hv; discriminate); eauto.
Qed.

(** A frame with one row: a float vector of two elements, a binary vector
    of two bytes and a flag. *)
Definition vec_column : column :=
  mkColumn "vec" "object" (λ _, VList [VFloat (FFin 1 0); VFloat (FFin 3 (-1))]).
Definition bits_column : column := mkColumn "bits" "object" (λ _, VBytes [255; 0]%Z).
Definition ok_column : column := mkColumn "ok" "bool" (λ _, VBool true).

Definition sample_frame : DataFrame :=
  mkDataFrame 1 [vec_column; bits_column; ok_column].

Lemma prepare_fields_from_dataframe_cases_witness :
  vectors_sized (H := sample)
  ∧ ∃ m, prepare_fields_from_dataframe (H := sample) sample_frame
         = OK (["vec"; "bits"; "ok"], [FLOAT_VECTOR; BINARY_VECTOR; BOOL], m)
         ∧ m !! "vec" = Some {[ "dim" := VInt 2 ]}
         ∧ m !! "bits" = Some {[ "dim" := VInt 16 ]}
         ∧ m !! "ok" = None.
Proof.
  split; [exact sample_vectors_sized|].
  destruct (proj1 (proj2 (prepare_fields_from_dataframe_cases (H := sample) sample_frame
                            sample_vectors_sized)))
    as (m & Hm & Hlookup).
  - apply (bool_decide_unpack _). vm_compute. exact I.
  - discriminate.
  - apply (bool_decide_unpack _). vm_compute. exact I.
  - exists m. split; [exact Hm|].
    assert (NoDup (columns sample_frame)) as Hnodup.
    { apply (bool_decide_unpack _). vm_compute. exact I. }
    split; [|split].
    + change (m !! col_name vec_column = Some {[ "dim" := VInt 2 ]}).
      rewrite (Hlookup Hnodup vec_column) by left. reflexivity.
    + change (m !! col_name bits_column = Some {[ "dim" := VInt 16 ]}).
      rewrite (Hlookup Hnodup bits_column) by (right; left). reflexivity.
    + change (m !! col_name ok_column = None).
      rewrite (Hlookup Hnodup ok_column) by (right; right; left). reflexivity.
Defined.

(** ** Insert-time check on a frame with the auto-id column *)

Lemma df_isnull_all_true (df : DataFrame) (n : string) :
  df_isnull_all df n = true ↔
  ∀ c r, c ∈ df_columns df → col_name c = n → r < df_len df →
         isnull (col_cell c r) = true.
Proof.
  unfold df_isnull_all. rewrite forallb_forall. split.
  - intros Hall c r Hc Hn Hr.
    assert (forallb (λ r, isnull (col_cell c r)) (seq 0 (df_len df)) = true) as Hcol.
    { apply Hall, list_elem_of_In, list_elem_of_filter. auto. }
    rewrite forallb_forall in Hcol. apply Hcol, in_seq. lia.
  - intros Hall c Hc. apply list_elem_of_In, list_elem_of_filter in Hc as [Hn Hc].
    apply forallb_forall. intros r Hr. apply in_seq in Hr.
    apply (Hall c r Hc Hn). lia.
Qed.

Lemma columns_df_drop (df : DataFrame) (n : string) :
  columns (df_drop df n) = filter (λ m, m ≠ n) (columns df).
Proof.
  unfold columns, df_drop. simpl.
  induction (df_columns df) as [|c cols IH]; [reflexivity|].
  rewrite fmap_cons, !filter_cons. simpl.
  destruct (decide (col_name c ≠ n)); [rewrite fmap_cons|]; rewrite IH; reflexivity.
Qed.

(** C10. For a schema whose primary field has [auto_id] set and a frame with
    a column under the primary field's label, [check_insert_schema] raises
    [DataNotMatchException] if that column holds a value that is not null,
    and otherwise goes on with the frame without that column: inference and
    reconciliation see the remaining columns only. *)
Theorem check_insert_schema_auto_id_column `{Collaborators} (schema : CollectionSchema)
    (df : DataFrame) (f : FieldSchema) :
  primary_field schema = Some f → truthy (auto_id f) = true →
  df_contains df (name f) = true →
  ((∃ c r, c ∈ df_columns df ∧ col_name c = name f ∧ r < df_len df
           ∧ isnull (col_cell c r) = false) →
   check_insert_schema (Some schema) (Frame df)
   = Raise (DataNotMatchException (ExpectNoDataForAutoID (name f))))
  ∧ ((∀ c r, c ∈ df_columns df → col_name c = name f → r < df_len df →
             isnull (col_cell c r) = true) →
     check_insert_schema (Some schema) (Frame df)
     = ('(infer_fields, tmp_fields, is_data_frame) ←
          parse_fields_from_data schema (Frame (df_drop df (name f)));
        check_infer_fields_valid infer_fields tmp_fields is_data_frame)
     ∧ (name f ∉ columns (df_drop df (name f)))
     ∧ columns (df_drop df (name f)) = filter (λ m, m ≠ name f) (columns df)).
Proof.
  intros Hprimary Hauto Hcontains.
  unfold check_insert_schema, CollectionSchema_auto_id.
  rewrite Hprimary. simpl. rewrite Hauto, Hcontains.
  split.
  - intros (c & r & Hc & Hn & Hr & Hnull).
    destruct (df_isnull_all df (name f)) eqn:Hall; [|reflexivity].
    rewrite df_isnull_all_true in Hall.
    rewrite (Hall c r Hc Hn Hr) in Hnull. discriminate.
  - intros Hall. apply df_isnull_all_true in Hall. rewrite Hall. simpl.
    split; [reflexivity|]. split; [|apply columns_df_drop].
    rewrite columns_df_drop. intros Hin.
    apply list_elem_of_filter in Hin as [Hne _]. contradiction.
Qed.

Definition auto_id_primary : FieldSchema :=
  mkFieldSchema "id" INT64 "" ∅ ∅ true (VBool false) (VBool true) false None.

Definition auto_id_schema : CollectionSchema :=
  mkCollectionSchema ∅ [auto_id_primary; vec_field] "" (VBool false) (Some 0) None.

Definition null_id_column : column := mkColumn "id" "object" (λ _, VNone).
Definition given_id_column : column := mkColumn "id" "int64" (λ _, VInt 7).

Lemma check_insert_schema_auto_id_column_witness :
  check_insert_schema (H := sample) (Some auto_id_schema)
    (Frame (mkDataFrame 1 [given_id_column; vec_column]))
  = Raise (DataNotMatchException (ExpectNoDataForAutoID "id"))
  ∧ check_insert_schema (H := sample) (Some auto_id_schema)
      (Frame (mkDataFrame 1 [null_id_column; vec_column]))
    = OK ().
Proof.
  split.
  - apply (proj1 (check_insert_schema_auto_id_column (H := sample) auto_id_schema
                    (mkDataFrame 1 [given_id_column; vec_column]) auto_id_primary
                    eq_refl eq_refl eq_refl)).
    exists given_id_column, 0. repeat split; [left | simpl; lia].
  - assert (∀ c r, c ∈ [null_id_column; vec_column] → col_name c = "id" → r < 1 →
                   isnull (col_cell c r) = true) as Hnull.
    { intros c r Hc Hn Hr.
      apply elem_of_cons in Hc as [-> | Hc]; [reflexivity|].
      apply elem_of_cons in Hc as [-> | Hc]; [discriminate | inversion Hc]. }
    rewrite (proj1 (proj2 (check_insert_schema_auto_id_column (H := sample) auto_id_schema
                       (mkDataFrame 1 [null_id_column; vec_column]) auto_id_primary
                       eq_refl eq_refl eq_refl) Hnull)).
    vm_compute. reflexivity.
Defined.

(** ** Field inference from a list of columns *)

(** No field that satisfies [cond] is directly followed by another one. *)
Fixpoint no_two_in_a_row (cond : FieldSchema → bool) (l : list FieldSchema) : Prop :=
  match l with
  | f :: rest =>
      match rest with
      | g :: _ => (cond f = true → cond g = false) ∧ no_two_in_a_row cond rest
      | [] => True
      end
  | [] => True
  end.

(** What the walk that pops makes of the part of the list not walked yet:
    the field after a popped one is passed over. *)
Fixpoint popped (cond : FieldSchema → bool) (l : list FieldSchema) : list FieldSchema :=
  match l with
  | [] => []
  | f :: rest =>
      if cond f then
        match rest with
        | [] => []
        | g :: rest' => g :: popped cond rest'
        end
      else f :: popped cond rest
  end.

Lemma pop_while_walking_popped (cond : FieldSchema → bool) (steps : nat)
    (pre rest : list FieldSchema) :
  (length rest ≤ steps)%nat →
  pop_while_walking cond steps (length pre) (pre ++ rest)%list
  = (pre ++ popped cond rest)%list.
Proof.
  revert pre rest. induction steps as [|steps IH]; intros pre rest Hlen.
  - destruct rest; [reflexivity | simpl in Hlen; lia].
  - simpl. destruct rest as [|f rest].
    + rewrite lookup_ge_None_2 by (rewrite length_app; simpl; lia). reflexivity.
    + rewrite list_lookup_middle by reflexivity. simpl in Hlen.
      destruct (cond f) eqn:Hf; simpl; rewrite Hf.
      * assert (delete (length pre) (pre ++ f :: rest) = pre ++ rest)%list as ->.
        { rewrite delete_middle. reflexivity. }
        destruct rest as [|g rest].
        -- destruct steps; simpl; [reflexivity|].
           rewrite lookup_ge_None_2 by (rewrite length_app; simpl; lia). reflexivity.
        -- replace (pre ++ g :: rest)%list with ((pre ++ [g]) ++ rest)%list
             by (rewrite <- app_assoc; reflexivity).
           replace (S (length pre)) with (length (pre ++ [g]))
             by (rewrite length_app; simpl; lia).
           rewrite IH by (simpl in Hlen; lia).
           rewrite <- app_assoc. reflexivity.
      * replace (pre ++ f :: rest)%list with ((pre ++ [f]) ++ rest)%list
          by (rewrite <- app_assoc; reflexivity).
        replace (S (length pre)) with (length (pre ++ [f]))
          by (rewrite length_app; simpl; lia).
        rewrite IH by lia. rewrite <- app_assoc. reflexivity.
Qed.

Lemma popped_filter (cond : FieldSchema → bool) (l : list FieldSchema) :
  no_two_in_a_row cond l → popped cond l = filter (λ f, cond f = false) l.
Proof.
  assert (∀ n l, (length l ≤ n)%nat → no_two_in_a_row cond l →
                 popped cond l = filter (λ f, cond f = false) l) as Hgen.
  { clear l. induction n as [|n IH]; intros l Hlen Hno.
    - destruct l; [reflexivity | simpl in Hlen; lia].
    - destruct l as [|f rest]; [reflexivity|]. simpl in Hlen.
      cbn [popped]. rewrite filter_cons.
      destruct (cond f) eqn:Hf.
      + rewrite decide_False by discriminate.
        destruct rest as [|g rest']; [reflexivity|].
        destruct Hno as [Hfg Hno]. rewrite filter_cons.
        rewrite decide_True by exact (Hfg Hf).
        f_equal. apply IH; [simpl in Hlen; lia|].
        destruct rest'; [exact I | apply Hno].
      + rewrite decide_True by reflexivity. f_equal.
        apply IH; [lia|]. destruct rest; [exact I | apply Hno]. }
  apply (Hgen (length l)). reflexivity.
Qed.

(** The walk over the copied fields removes the auto-id primary fields,
    provided no two of them stand in a row. *)
Lemma pop_while_walking_filter (cond : FieldSchema → bool) (l : list FieldSchema) :
  no_two_in_a_row cond l →
  pop_while_walking cond (length l) 0 l = filter (λ f, cond f = false) l.
Proof.
  intros Hno. rewrite <- (popped_filter cond l Hno).
  apply (pop_while_walking_popped cond (length l) [] l). reflexivity.
Qed.

Section ListInference.
Context `{Collaborators}.

(** The dtype inferred at position [i] for the schema field [field]: the
    one of the first element of [data[i]] if there is one, the declared one
    if [data[i]] is missing, [None] or empty. *)
Definition inferred_dtype (data : list pyval) (i : nat) (field : FieldSchema)
    : DataType :=
  match data !! i with
  | Some (VList (elem :: _)) => infer_dtype_bydata elem
  | _ => dtype field
  end.

Lemma new_field_plain (d : DataType) :
  d ≠ UNKNOWN → ∃ x, new_field "" d ∅ = OK x ∧ name x = "" ∧ dtype x = d.
Proof.
  intros Hd. unfold new_field, FieldSchema_call.
  assert (existsb (contains ∅) init_parameters = false) as -> by reflexivity.
  rewrite (FieldSchema_init_intro "" d "" ∅ false false false None);
    try (exact Hd); try reflexivity; try (left; split; reflexivity).
  eexists. repeat split.
Qed.

(** The first loop of [parse_fields_from_data] on a payload whose columns
    are lists or [None] and whose first elements have a known type. *)
Lemma infer_expected_loop_OK (data : list pyval) (fs : list FieldSchema) (i : nat) :
  Forall (λ f, dtype f ≠ UNKNOWN) fs →
  (∀ j d, j < i + length fs → data !! j = Some d → d = VNone ∨ ∃ l, d = VList l) →
  (∀ j elem rest, data !! j = Some (VList (elem :: rest)) →
                  infer_dtype_bydata elem ≠ UNKNOWN) →
  ∃ xs, infer_expected_loop data i fs = OK xs
        ∧ Forall2 (λ x kf, name x = "" ∧ dtype x = inferred_dtype data (fst kf) (snd kf))
            xs (imap (λ k f, (i + k, f)) fs).
Proof.
  intros Hvalid Hcols Hknown. revert i Hcols.
  induction Hvalid as [|f fs Hf _ IH]; intros i Hcols.
  - exists []. split; [reflexivity | constructor].
  - destruct (IH (S i)) as (xs & Hxs & Hall).
    { intros j d Hj. apply Hcols. simpl. lia. }
    assert (∃ x, infer_expected data i f = OK x
                 ∧ name x = "" ∧ dtype x = inferred_dtype data i f) as (x & Hx & Hn & Hd).
    { unfold infer_expected, inferred_dtype.
      destruct (data !! i) as [d|] eqn:Hdi; [|apply new_field_plain, Hf].
      destruct (Hcols i d ltac:(simpl; lia) Hdi) as [-> | [l ->]]; simpl;
        [apply new_field_plain, Hf|].
      destruct l as [|elem rest]; simpl; [apply new_field_plain, Hf|].
      apply new_field_plain. eapply Hknown, Hdi. }
    exists (x :: xs). split.
    + simpl. rewrite Hx. simpl. rewrite Hxs. reflexivity.
    + simpl. constructor.
      * simpl. rewrite Nat.add_0_r. auto.
      * rewrite (imap_ext _ (λ k f, (S i + k, f))); [exact Hall|].
        intros k g _. simpl. f_equal. lia.
Qed.

(** The second loop, on columns that are non-empty lists. *)
Lemma infer_extra_OK (extra : list pyval) :
  (∀ d, d ∈ extra → ∃ elem rest, d = VList (elem :: rest)
                                 ∧ infer_dtype_bydata elem ≠ UNKNOWN) →
  ∃ ys, mapR infer_extra extra = OK ys
        ∧ Forall2 (λ y d, ∃ elem rest, d = VList (elem :: rest)
                                       ∧ dtype y = infer_dtype_bydata elem) ys extra.
Proof.
  induction extra as [|d extra IH]; intros Hextra.
  - exists []. split; [reflexivity | constructor].
  - destruct IH as (ys & Hys & Hall).
    { intros d' Hd'. apply Hextra. right. exact Hd'. }
    destruct (Hextra d) as (elem & rest & -> & Hknown); [left|].
    destruct (new_field_plain _ Hknown) as (y & Hy & _ & Hd).
    exists (y :: ys). split.
    + apply mapR_OK_Forall2. constructor; [exact Hy | apply mapR_OK_Forall2, Hys].
    + constructor; [eauto | exact Hall].
Qed.

Lemma no_two_in_a_row_same (cond : FieldSchema → bool) (fs gs : list FieldSchema) :
  Forall2 (λ f g, cond g = cond f) fs gs →
  no_two_in_a_row cond fs → no_two_in_a_row cond gs.
Proof.
  induction 1 as [|f g fs gs Hfg Hrest IH]; [exact id|].
  destruct Hrest as [|f' g' fs' gs' Hfg' Hrest']; [exact id|].
  intros [Hcond Hno]. split; [|apply IH, Hno].
  rewrite Hfg, Hfg'. exact Hcond.
Qed.

Lemma filter_same (cond : FieldSchema → bool) (R : FieldSchema → FieldSchema → Prop)
    (fs gs : list FieldSchema) :
  Forall2 (λ f g, R f g ∧ cond g = cond f) fs gs →
  Forall2 R (filter (λ f, cond f = false) fs) (filter (λ f, cond f = false) gs).
Proof.
  induction 1 as [|f g fs gs [Hfg Hcond] _ IH]; [constructor|].
  rewrite !filter_cons. rewrite Hcond.
  destruct (decide (cond f = false)); [constructor|]; assumption.
Qed.

Lemma to_dict_eq_auto_id_primary (f g : FieldSchema) :
  FieldSchema_to_dict g = FieldSchema_to_dict f →
  is_auto_id_primary g = is_auto_id_primary f.
Proof.
  intros Heq. apply to_dict_eq_inv in Heq as (_ & _ & Hp & _ & Ha).
  unfold is_auto_id_primary. rewrite Hp.
  destruct (is_primary f) eqn:Hf; [|reflexivity].
  rewrite Ha by congruence. reflexivity.
Qed.

(** The schema's fields without the auto-id primary ones. *)
Definition without_auto_id (schema : CollectionSchema) : list FieldSchema :=
  filter (λ f, is_auto_id_primary f = false) (fields schema).

(** C4, amended. For a schema with valid fields, no two auto-id primary
    fields in a row, and a payload that is a list whose columns at the
    expected positions are lists or [None], whose further columns are
    non-empty lists, and whose first elements all have an inferred type
    other than the unknown one: [parse_fields_from_data] returns; the
    expected fields are the copies of the schema's fields without the
    auto-id primary ones, in order; the field inferred at an expected
    position has the schema field's dtype when the column is missing, [None]
    or empty and the dtype inferred from its first element otherwise; the
    further columns are appended with the dtype inferred from their first
    element; and the flag is false. *)
Theorem parse_fields_from_list (schema : CollectionSchema) (data : list pyval) :
  common_type_params_ok → Forall valid_field (fields schema) →
  no_two_in_a_row is_auto_id_primary (fields schema) →
  (∀ j d, j < length (without_auto_id schema) → data !! j = Some d →
          d = VNone ∨ ∃ l, d = VList l) →
  (∀ j d, (length (without_auto_id schema) ≤ j)%nat → data !! j = Some d →
          ∃ elem rest, d = VList (elem :: rest)) →
  (∀ j elem rest, data !! j = Some (VList (elem :: rest)) →
                  infer_dtype_bydata elem ≠ UNKNOWN) →
  ∃ inferred expected,
    parse_fields_from_data schema (Value (VList data)) = OK (inferred, expected, false)
    ∧ Forall2 (λ f g, FieldSchema_eq g f = true) (without_auto_id schema) expected
    ∧ length inferred = Nat.max (length expected) (length data)
    ∧ (∀ i field, expected !! i = Some field →
         ∃ x, inferred !! i = Some x ∧ name x = ""
              ∧ dtype x = inferred_dtype data i field)
    ∧ (∀ i elem rest, (length expected ≤ i)%nat →
         data !! i = Some (VList (elem :: rest)) →
         ∃ x, inferred !! i = Some x ∧ dtype x = infer_dtype_bydata elem).
Proof.
  intros Hcommon Hvalid Hno Hcols Hextra Hknown.
  destruct (deepcopy_list (fields schema) Hcommon Hvalid)
    as (copies & Hcopies & Hsame & Hvalidc).
  assert (Forall2 (λ f g, FieldSchema_to_dict g = FieldSchema_to_dict f
                          ∧ is_auto_id_primary g = is_auto_id_primary f)
            (fields schema) copies) as Hsame'.
  { eapply Forall2_impl; [exact Hsame|]. intros f g Hfg.
    split; [exact Hfg | apply to_dict_eq_auto_id_primary, Hfg]. }
  set (expected := filter (λ f, is_auto_id_primary f = false) copies).
  assert (Forall2 (λ f g, FieldSchema_to_dict g = FieldSchema_to_dict f)
            (without_auto_id schema) expected) as Hexpected.
  { apply (filter_same is_auto_id_primary), Hsame'. }
  assert (length expected = length (without_auto_id schema)) as Hlen.
  { symmetry. eapply Forall2_length, Hexpected. }
  assert (pop_while_walking is_auto_id_primary (length copies) 0 copies = expected)
    as Hpop.
  { apply pop_while_walking_filter.
    eapply no_two_in_a_row_same; [|exact Hno].
    eapply Forall2_impl; [exact Hsame'|]. intros f g [_ Hfg]. exact Hfg. }
  destruct (infer_expected_loop_OK data expected 0) as (xs & Hxs & Hxall).
  { apply Forall_forall. intros f Hf. apply list_elem_of_filter in Hf as [_ Hf].
    rewrite Forall_forall in Hvalidc. apply (Hvalidc f Hf). }
  { intros j d Hj. apply Hcols. simpl in Hj. lia. }
  { exact Hknown. }
  destruct (infer_extra_OK (drop (length expected) data)) as (ys & Hys & Hyall).
  { intros d Hd. apply list_elem_of_lookup in Hd as [k Hk].
    rewrite lookup_drop in Hk.
    assert (length (without_auto_id schema) ≤ length expected + k)%nat as Hge by lia.
    destruct (Hextra _ d Hge Hk) as (elem & rest & ->).
    exists elem, rest. split; [reflexivity|]. eapply Hknown, Hk. }
  assert (length xs = length expected) as Hxlen.
  { rewrite (Forall2_length _ _ _ Hxall). apply length_imap. }
  exists (xs ++ ys)%list, expected.
  split; [|split; [|split; [|split]]].
  - unfold parse_fields_from_data. rewrite Hcopies. simpl.
    rewrite Hpop, Hxs. simpl. rewrite Hys. reflexivity.
  - eapply Forall2_impl; [exact Hexpected|].
    intros f g Hfg. apply bool_decide_eq_true_2, Hfg.
  - rewrite length_app, Hxlen, (Forall2_length _ _ _ Hyall), length_drop. lia.
  - intros i field Hi.
    assert (imap (λ k f, (0 + k, f)) expected !! i = Some (i, field)) as Himap.
    { rewrite list_lookup_imap, Hi. reflexivity. }
    destruct (Forall2_lookup_r _ _ _ _ _ Hxall Himap) as (x & Hx & Hn & Hd).
    exists x. split; [|split; [exact Hn | exact Hd]].
    apply lookup_app_l_Some, Hx.
  - intros i elem rest Hi Hdata.
    assert (drop (length expected) data !! (i - length expected) = Some (VList (elem :: rest)))
      as Hdrop.
    { rewrite lookup_drop. rewrite <- Hdata. f_equal. lia. }
    destruct (Forall2_lookup_r _ _ _ _ _ Hyall Hdrop) as (y & Hy & elem' & rest' & Heq & Hd).
    injection Heq as <- <-.
    exists y. split; [|exact Hd].
    rewrite lookup_app_r by lia. rewrite Hxlen. exact Hy.
Qed.

End ListInference.

Definition plain_schema : CollectionSchema :=
  mkCollectionSchema ∅ [id_primary; vec_field] "" (VBool false) (Some 0) None.

Definition two_auto_id_schema : CollectionSchema :=
  mkCollectionSchema ∅ [auto_id_primary; auto_id_primary] "" (VBool false) (Some 1) None.

Definition float_column : pyval :=
  VList [VList [VFloat (FFin 1 0); VFloat (FFin 3 (-1))]].

(** C4, as stated, fails. A further column that is empty makes
    [parse_fields_from_data] raise [IndexError]; a first element whose
    inferred type is the unknown one makes it raise
    [DataTypeNotSupportException]; and of two auto-id primary fields in a
    row the second stays among the expected fields. *)
Lemma parse_fields_from_data_does_not_return :
  parse_fields_from_data (H := sample) plain_schema
    (Value (VList [VList [VInt 1]; float_column; VList []]))
  = Raise IndexError
  ∧ parse_fields_from_data (H := sample) plain_schema
      (Value (VList [VList [VDict []]]))
    = Raise (DataTypeNotSupportException FieldDtype)
  ∧ ∃ inferred expected,
      parse_fields_from_data (H := sample) two_auto_id_schema (Value (VList []))
      = OK (inferred, expected, false)
      ∧ is_auto_id_primary <$> expected = [true].
Proof.
  split; [vm_compute; reflexivity|].
  split; [vm_compute; reflexivity|].
  do 2 eexists. split; vm_compute; reflexivity.
Qed.

Lemma parse_fields_from_list_witness :
  ∃ inferred expected,
    parse_fields_from_data (H := sample) auto_id_schema
      (Value (VList [float_column; VList [VStr "x"]]))
    = OK (inferred, expected, false)
    ∧ length expected = 1 ∧ length inferred = 2
    ∧ (∃ x, inferred !! 0 = Some x ∧ name x = "" ∧ dtype x = FLOAT_VECTOR)
    ∧ (∃ x, inferred !! 1 = Some x ∧ dtype x = VARCHAR).
Proof.
  assert (Forall (valid_field (H := sample)) (fields auto_id_schema)) as Hvalid.
  { constructor; [|constructor; [|constructor]].
    - apply (plain_field_valid (H := sample)). discriminate.
    - exact vec_field_valid. }
  assert (no_two_in_a_row is_auto_id_primary (fields auto_id_schema)) as Hno.
  { simpl. split; [reflexivity | exact I]. }
  destruct (parse_fields_from_list (H := sample) auto_id_schema
              [float_column; VList [VStr "x"]]
              sample_common_type_params_ok Hvalid Hno)
    as (inferred & expected & Hparse & Hexpected & Hlen & Hfirst & Hmore).
  - intros j d Hj Hd. destruct j as [|j]; [|simpl in Hj; lia].
    injection Hd as <-. right. eexists. reflexivity.
  - intros j d Hj Hd. destruct j as [|[|j]]; simpl in Hj, Hd; [lia| |discriminate].
    injection Hd as <-. do 2 eexists. reflexivity.
  - intros j elem rest Hd. destruct j as [|[|j]]; simpl in Hd; [| |discriminate];
      injection Hd as <- <-; discriminate.
  - assert (length expected = 1) as Hone.
    { rewrite <- (Forall2_length _ _ _ Hexpected). reflexivity. }
    exists inferred, expected. split; [exact Hparse|]. split; [exact Hone|].
    split; [rewrite Hlen, Hone; reflexivity|]. split.
    + destruct expected as [|field rest]; [discriminate|].
      destruct (Hfirst 0 field eq_refl) as (x & Hx & Hn & Hd). eauto.
    + apply (Hmore 1 (VStr "x") []); [rewrite Hone; lia | reflexivity].
Defined.

(** * Further properties *)

(** ** Readiness check *)

(** X1. [check_schema] returns exactly when the schema is given and one of
    its fields has a vector dtype. Otherwise it raises
    [SchemaNotReadyException]: for no schema, for a schema without fields,
    and for a schema none of whose fields has a vector dtype, each with its
    own message. The primary key plays no part. *)
Theorem check_schema_cases (schema : option CollectionSchema) :
  (check_schema schema = OK ()
   ↔ ∃ s f, schema = Some s ∧ f ∈ fields s ∧ is_vector_dtype (dtype f) = true)
  ∧ (schema = None → check_schema schema = Raise (SchemaNotReadyException NoSchema))
  ∧ (∀ s, schema = Some s → fields s = [] →
       check_schema schema = Raise (SchemaNotReadyException EmptySchema))
  ∧ (∀ s, schema = Some s → fields s ≠ [] →
       (∀ f, f ∈ fields s → is_vector_dtype (dtype f) = false) →
       check_schema schema = Raise (SchemaNotReadyException NoVector)).
Proof.
  assert (∀ fs : list FieldSchema,
            length (name <$> filter (λ f, is_vector_dtype (dtype f) = true) fs) = 0
            ↔ ∀ f, f ∈ fs → is_vector_dtype (dtype f) = false) as Hnone.
  { intros fs. rewrite length_fmap. induction fs as [|f0 fs IH].
    - split; [intros _ f Hf; inversion Hf | reflexivity].
    - rewrite filter_cons. destruct (decide (is_vector_dtype (dtype f0) = true)) as [Hv|Hv].
      + split; [discriminate|]. intros Hall.
        rewrite (Hall f0) in Hv by left. discriminate.
      + rewrite IH. split.
        * intros Hall f Hf. apply elem_of_cons in Hf as [->|Hf]; [|auto].
          destruct (is_vector_dtype (dtype f0)); [contradiction | reflexivity].
        * intros Hall f Hf. apply Hall. right. exact Hf. }
  repeat split.
  - destruct schema as [s|]; [|discriminate]. simpl.
    destruct (fields s) as [|f0 fs] eqn:Hfs; [discriminate|].
    cbn [length Nat.ltb Nat.leb]. rewrite <- Hfs.
    destruct (length (name <$> filter (λ f, is_vector_dtype (dtype f) = true) (fields s)))
      as [|n] eqn:Hlen; [discriminate|].
    intros _.
    destruct (decide (Forall (λ f, is_vector_dtype (dtype f) = false) (fields s)))
      as [Hall|Hex].
    + rewrite Forall_forall in Hall. rewrite (proj2 (Hnone _) Hall) in Hlen.
      discriminate.
    + apply not_Forall_Exists in Hex; [|intros f; apply _].
      apply Exists_exists in Hex as (f & Hf & Hv).
      exists s, f. split; [reflexivity|]. split; [exact Hf|].
      simpl in Hv. destruct (is_vector_dtype (dtype f)); [reflexivity | contradiction].
  - intros (s & f & -> & Hf & Hv). simpl.
    destruct (fields s) as [|f0 fs] eqn:Hfs; [inversion Hf|].
    cbn [length Nat.ltb Nat.leb]. rewrite <- Hfs in *.
    destruct (length (name <$> filter (λ f, is_vector_dtype (dtype f) = true) (fields s)))
      as [|n] eqn:Hlen; [|reflexivity].
    rewrite (proj1 (Hnone _) Hlen f Hf) in Hv. discriminate.
  - intros ->. reflexivity.
  - intros s -> Hnil. simpl. rewrite Hnil. reflexivity.
  - intros s -> Hne Hall. simpl.
    destruct (fields s) as [|f0 fs] eqn:Hfs; [contradiction|].
    cbn [length Nat.ltb Nat.leb]. rewrite <- Hfs in *.
    rewrite (proj2 (Hnone _) Hall). reflexivity.
Qed.

(** ** Field construction *)

Section FieldConstruction.
Context `{Collaborators}.

(** X2. What [FieldSchema.__init__] leaves behind when it returns: the name,
    dtype and description it was given; a dtype other than the unknown one;
    [auto_id] truthy only on a primary field; as type params exactly the
    keyword arguments whose key is listed in [COMMON_TYPE_PARAMS], and only
    for a vector or varchar dtype; and a default value that, when present,
    has a member set. *)
Theorem FieldSchema_init_invariants (n : string) (dt : dtype_arg) (desc : string)
    (kwargs : gmap string pyval) (f : FieldSchema) :
  FieldSchema_init n dt desc kwargs = OK f →
  name f = n ∧ description f = desc ∧ dt = Dtype (dtype f) ∧ dtype f ≠ UNKNOWN
  ∧ (truthy (auto_id f) = true → is_primary f = true)
  ∧ (∀ k v, params f !! k = Some v
            ↔ has_type_params (dtype f) = true ∧ k ∈ COMMON_TYPE_PARAMS
              ∧ kwargs !! k = Some v)
  ∧ (∀ v, default_value f = Some v → WhichOneof v ≠ None).
Proof.
  intros Hinit.
  apply FieldSchema_init_OK in Hinit
    as (d & p & a & k & dv & -> & Hd & Hp & Ha & Hpa & Hk & Hdv & ->).
  cbn [name description _description dtype _dtype auto_id is_primary params
       _type_params default_value].
  split; [reflexivity|]. split; [reflexivity|]. split; [reflexivity|].
  split; [exact Hd|]. split.
  { simpl. intros ->. destruct p; [reflexivity|]. discriminate (Hpa eq_refl). }
  split; [|exact Hdv].
  intros key v. rewrite parse_type_params_lookup.
  destruct (has_type_params d); simpl.
  - case_bool_decide as Hkey.
    + split; [intros Hv; auto | intros (_ & _ & Hv); exact Hv].
    + split; [discriminate | intros (_ & Hin & _); contradiction].
  - split; [discriminate | intros ([=] & _)].
Qed.

(** X3. Reading a type parameter off a constructed field. For a vector or
    varchar dtype and a key listed in [COMMON_TYPE_PARAMS], [__getattr__]
    returns the keyword argument of that name, [None] when it was not
    given; for any other dtype or key it returns [None]: a [dim] given to a
    scalar field is dropped without an error. *)
Theorem type_param_attribute (n : string) (dt : dtype_arg) (desc : string)
    (kwargs : gmap string pyval) (f : FieldSchema) (item : string) :
  FieldSchema_init n dt desc kwargs = OK f →
  __getattr__ f item
  = if has_type_params (dtype f) && bool_decide (item ∈ COMMON_TYPE_PARAMS)
    then get kwargs item VNone
    else VNone.
Proof.
  intros Hinit.
  apply FieldSchema_init_OK in Hinit
    as (d & p & a & k & dv & -> & Hd & Hp & Ha & Hpa & Hk & Hdv & ->).
  unfold __getattr__, contains, get. cbn [_type_params dtype _dtype].
  pose proof (parse_type_params_lookup d kwargs item) as Hlook.
  destruct (has_type_params d && bool_decide (item ∈ COMMON_TYPE_PARAMS)).
  - rewrite Hlook. destruct (kwargs !! item) as [v|] eqn:Hv.
    + rewrite bool_decide_eq_false_2.
      * rewrite bool_decide_eq_true_2 by eauto. reflexivity.
      * intros Hempty. rewrite Hempty, lookup_empty in Hlook. discriminate.
    + rewrite (bool_decide_eq_false_2 (is_Some None)) by (intros [? [=]]).
      rewrite andb_false_r. reflexivity.
  - rewrite Hlook.
    rewrite (bool_decide_eq_false_2 (is_Some None)) by (intros [? [=]]).
    rewrite andb_false_r. reflexivity.
Qed.

(** X4. [infer_default_value_bydata] returns [None] for [None] only; it
    raises [ParamError] for a value that is neither [None] nor a scalar; and a
    [ValueField] it returns holds, in one member, what the protobuf setter
    stored for the value, which is then a scalar. *)
Theorem infer_default_value_bydata_cases (data : pyval) :
  (infer_default_value_bydata data = OK None ↔ data = VNone)
  ∧ (data ≠ VNone → is_scalar data = false →
     infer_default_value_bydata data = Raise (ParamError (DefaultValueUnsupported UNKNOWN)))
  ∧ (∀ v, infer_default_value_bydata data = OK (Some v) →
          is_scalar data = true
          ∧ ∃ m s, proto_set m data = OK s ∧ v = MkValueField (Some (m, s))).
Proof.
  unfold infer_default_value_bydata, assign. repeat split.
  - destruct data; simpl; try reflexivity;
      intros Hnone; exfalso;
      destruct (is_scalar _); try discriminate;
      destruct (infer_dtype_by_scaladata _); try discriminate;
      match type of Hnone with
      | context [proto_set ?m ?d] => destruct (proto_set m d); discriminate
      end.
  - intros ->. reflexivity.
  - intros Hdata Hscalar. rewrite Hscalar.
    destruct data; try reflexivity. contradiction.
  - destruct (is_None data); [discriminate|].
    destruct (is_scalar data); [reflexivity|]. discriminate.
  - destruct (is_None data); [discriminate|].
    destruct (is_scalar data); [|discriminate].
    destruct (infer_dtype_by_scaladata data); try discriminate;
      match goal with
      | H0 : context [proto_set ?m ?d] |- _ =>
          destruct (proto_set m d) as [s|] eqn:Hs; [|discriminate];
          simpl in H0; injection H0 as <-; exists m, s; split; [exact Hs | reflexivity]
      end.
Qed.

(** Construction reads the reserved keyword arguments only through [get]. *)
Lemma FieldSchema_init_same_reserved (n : string) (dt : dtype_arg) (desc : string)
    (kw1 kw2 : gmap string pyval) (f1 f2 : FieldSchema) :
  (∀ k, k ∈ reserved_kwargs → kw1 !! k = kw2 !! k) →
  FieldSchema_init n dt desc kw1 = OK f1 →
  FieldSchema_init n dt desc kw2 = OK f2 →
  f2 = mkFieldSchema (name f1) (_dtype f1) (_description f1)
         (_parse_type_params (_dtype f1) kw2) kw2
         (is_primary f1) (is_dynamic f1) (auto_id f1) (is_partition_key f1)
         (default_value f1).
Proof.
  intros Hsame. unfold FieldSchema_init, get.
  rewrite !(Hsame "is_primary"), !(Hsame "auto_id"), !(Hsame "is_partition_key"),
    !(Hsame "default_value"), !(Hsame "is_dynamic")
    by (unfold reserved_kwargs; set_solver).
  destruct dt as [d|v]; simpl; [|discriminate].
  destruct (bool_decide (d = UNKNOWN)); [discriminate|].
  destruct (default (VBool false) (kw2 !! "is_primary")) as [| p | | | | | | |];
    simpl; try discriminate.
  destruct (match kw2 !! "auto_id" with
            | None => OK (VBool false)
            | Some (VBool a) =>
                if negb p && a then Raise (PrimaryKeyException AutoIDOnlyOnPK)
                else OK (VBool a)
            | Some _ => Raise (AutoIDException AutoIDType)
            end) as [a|]; simpl; [|discriminate].
  destruct (default (VBool false) (kw2 !! "is_partition_key")) as [| k | | | | | | |];
    simpl; try discriminate.
  destruct (match default VNone (kw2 !! "default_value") with
            | VValueField v =>
                OK (match WhichOneof v with None => None | Some _ => Some v end)
            | data => infer_default_value_bydata data
            end) as [dv|]; simpl; [|discriminate].
  intros [= <-] [= <-]. reflexivity.
Qed.

(** X5. The serialised form of a field shows the recognised keyword
    arguments only. Two fields built from the same name, dtype and
    description, and from keyword arguments that hold the same values under
    the reserved keys and under the keys listed in [COMMON_TYPE_PARAMS],
    differ in nothing but the keyword arguments they keep in [_kwargs], and
    [to_dict] gives the same keys and the same values for both. *)
Theorem to_dict_recognised_kwargs (n : string) (dt : dtype_arg) (desc : string)
    (kw1 kw2 : gmap string pyval) (f1 f2 : FieldSchema) :
  (∀ k, k ∈ (reserved_kwargs ++ COMMON_TYPE_PARAMS)%list → kw1 !! k = kw2 !! k) →
  FieldSchema_init n dt desc kw1 = OK f1 →
  FieldSchema_init n dt desc kw2 = OK f2 →
  f2 = mkFieldSchema (name f1) (_dtype f1) (_description f1) (_type_params f1) kw2
         (is_primary f1) (is_dynamic f1) (auto_id f1) (is_partition_key f1)
         (default_value f1)
  ∧ FieldSchema_to_dict f2 = FieldSchema_to_dict f1.
Proof.
  intros Hsame Hinit1 Hinit2.
  assert (∀ k, k ∈ reserved_kwargs → kw1 !! k = kw2 !! k) as Hreserved.
  { intros k Hk. apply Hsame, elem_of_app. left. exact Hk. }
  pose proof (FieldSchema_init_same_reserved n dt desc kw1 kw2 f1 f2
                Hreserved Hinit1 Hinit2) as ->.
  apply FieldSchema_init_OK in Hinit1
    as (d & p & a & k & dv & -> & Hd & Hp & Ha & Hpa & Hk & Hdv & ->).
  cbn [name _dtype _description _type_params is_primary is_dynamic auto_id
       is_partition_key default_value].
  assert (_parse_type_params d kw2 = _parse_type_params d kw1) as ->.
  { apply map_eq. intros key. rewrite !parse_type_params_lookup.
    destruct (has_type_params d); [|reflexivity]. simpl.
    case_bool_decide as Hkey; [|reflexivity].
    symmetry. apply Hsame, elem_of_app. right. exact Hkey. }
  split; reflexivity.
Qed.

End FieldConstruction.

Lemma FieldSchema_init_invariants_witness :
  ∃ f, FieldSchema_init (H := sample) "vec" (Dtype FLOAT_VECTOR) ""
         {[ "dim" := VInt 8 ]} = OK f
       ∧ name f = "vec".
Proof.
  eexists. split; [reflexivity|].
  exact (proj1 (FieldSchema_init_invariants (H := sample) "vec" (Dtype FLOAT_VECTOR) ""
                  {[ "dim" := VInt 8 ]} _ eq_refl)).
Defined.

Lemma type_param_attribute_witness :
  ∃ f, FieldSchema_init (H := sample) "n" (Dtype INT64) "" {[ "dim" := VInt 8 ]} = OK f
       ∧ __getattr__ f "dim" = VNone.
Proof.
  eexists. split; [reflexivity|].
  exact (type_param_attribute (H := sample) "n" (Dtype INT64) "" {[ "dim" := VInt 8 ]}
           _ "dim" eq_refl).
Defined.

Lemma to_dict_recognised_kwargs_witness :
  ∃ f1 f2,
    FieldSchema_init (H := sample) "id" (Dtype INT64) "" {[ "is_primary" := VBool true ]}
    = OK f1
    ∧ FieldSchema_init (H := sample) "id" (Dtype INT64) ""
        (<[ "comment" := VStr "x" ]> {[ "is_primary" := VBool true ]}) = OK f2
    ∧ FieldSchema_to_dict f2 = FieldSchema_to_dict f1.
Proof.
  do 2 eexists. split; [reflexivity|]. split; [reflexivity|].
  apply (to_dict_recognised_kwargs (H := sample) "id" (Dtype INT64) ""
           {[ "is_primary" := VBool true ]}
           (<[ "comment" := VStr "x" ]> {[ "is_primary" := VBool true ]}));
    [|reflexivity|reflexivity].
  intros k Hk. rewrite lookup_insert_ne; [reflexivity|].
  intros <-. vm_compute in Hk. set_solver.
Defined.

(** ** Constructed collection descriptors *)

Lemma check_kwargs_typed (kwargs : gmap string pyval) (copies : list (FieldSchema + pyval))
    (fs : list FieldSchema) :
  _check_kwargs kwargs copies = OK fs → kwargs_well_typed kwargs.
Proof.
  intros Hck. pose proof (check_kwargs_OK _ _ _ Hck) as (_ & Hauto).
  unfold _check_kwargs in Hck. unfold kwargs_well_typed.
  destruct (get kwargs "primary_field" VNone) eqn:Hp; simpl in Hck; try discriminate;
    destruct (get kwargs "partition_key_field" VNone) eqn:Hk; simpl in Hck;
    try discriminate; (split; [eauto | split; [eauto | exact Hauto]]).
Qed.

Lemma last_index_dflt (flag : FieldSchema → bool) (fs : list FieldSchema) (i j : nat)
    (dflt : option nat) :
  last_index flag i fs None = Some j → last_index flag i fs dflt = Some j.
Proof.
  revert i dflt. induction fs as [|f fs IH]; intros i dflt; simpl; [discriminate|].
  destruct (flag f); [trivial | apply IH].
Qed.

Lemma last_index_stable (flag : FieldSchema → bool) (fs : list FieldSchema) (i : nat)
    (r : option nat) :
  last_index flag i fs None = r → last_index flag i fs r = r.
Proof.
  intros Hr. destruct r as [j|]; [apply last_index_dflt |]; exact Hr.
Qed.

Lemma last_index_app (flag : FieldSchema → bool) (fs gs : list FieldSchema) (i : nat)
    (dflt : option nat) :
  last_index flag i (fs ++ gs) dflt
  = last_index flag (i + length fs) gs (last_index flag i fs dflt).
Proof.
  revert i dflt. induction fs as [|f fs IH]; intros i dflt; simpl.
  - rewrite Nat.add_0_r. reflexivity.
  - rewrite IH. f_equal. lia.
Qed.

(** The references a scan starts from do not steer it. *)
Lemma loop_refs_free (fs fs' : list FieldSchema) (i : nat) (st st' : scan)
    (pr kr : option nat) :
  check_fields_loop i fs st = OK (fs', st') →
  check_fields_loop i fs
    (mkScan (primary_field_name st) (partition_key_field_name st) pr kr)
  = OK (fs', mkScan (primary_field_name st') (partition_key_field_name st')
               (last_index is_primary i fs' pr)
               (last_index is_partition_key i fs' kr)).
Proof.
  revert fs' i st st' pr kr.
  induction fs as [|f fs IH]; intros fs' i st st' pr kr Hloop.
  - simpl in Hloop. injection Hloop as <- <-. reflexivity.
  - apply loop_cons_OK in Hloop as (f' & st1 & fs1 & Hf & Hrest & ->).
    apply check_field_OK in Hf as (Hf' & HP & HK & Hst1). cbv zeta in *.
    assert (check_field i f
              (mkScan (primary_field_name st) (partition_key_field_name st) pr kr)
            = OK (f', mkScan (primary_field_name st1) (partition_key_field_name st1)
                        (if is_primary f' then Some i else pr)
                        (if is_partition_key f' then Some i else kr))) as Hf2.
    { apply check_field_OK. cbv zeta.
      cbn [primary_field_name partition_key_field_name primary_ref partition_ref].
      split; [exact Hf'|]. split; [exact HP|]. split; [exact HK|].
      rewrite Hst1, Hf'. reflexivity. }
    cbn [check_fields_loop]. rewrite Hf2. cbn [mbind result_bind].
    rewrite (IH _ _ _ _ _ _ Hrest). reflexivity.
Qed.

Lemma loop_app (fs gs : list FieldSchema) (i : nat) (st : scan) :
  check_fields_loop i (fs ++ gs) st
  = ('(fs', st') ← check_fields_loop i fs st;
     '(gs', st'') ← check_fields_loop (i + length fs) gs st';
     OK ((fs' ++ gs')%list, st'')).
Proof.
  revert i st. induction fs as [|f fs IH]; intros i st.
  - simpl. rewrite Nat.add_0_r.
    destruct (check_fields_loop i gs st) as [[gs' st'']|]; reflexivity.
  - simpl. destruct (check_field i f st) as [[f' st1]|]; [|reflexivity]. simpl.
    rewrite IH. replace (i + S (length fs)) with (S i + length fs) by lia.
    destruct (check_fields_loop (S i) fs st1) as [[fs' st']|]; [|reflexivity]. simpl.
    destruct (check_fields_loop _ gs st') as [[gs' st'']|]; reflexivity.
Qed.

Lemma alter_fixed {A} (f : A → A) (l : list A) (i : nat) (x : A) :
  l !! i = Some x → f x = x → alter f i l = l.
Proof.
  revert i. induction l as [|y l IH]; intros [|i]; simpl; try discriminate.
  - intros [= ->] Hf. unfold alter. simpl. rewrite Hf. reflexivity.
  - intros Hl Hf. unfold alter. simpl. f_equal. apply IH; assumption.
Qed.

Lemma set_auto_id_same (f : FieldSchema) : set_auto_id (auto_id f) f = f.
Proof. destruct f. reflexivity. Qed.

(** A descriptor that [_check_fields] has checked, starting with no
    reference set: the primary field it refers to, the name of the
    partition key that a scan ends with, and the scan of its fields, which
    leaves them as they are. *)
Lemma constructed_scan (s0 s : CollectionSchema) :
  cs_primary_field s0 = None → cs_partition_key_field s0 = None →
  _check_fields s0 = OK s →
  ∃ j p kn,
    cs_primary_field s = Some j ∧ cs_fields s !! j = Some p
    ∧ is_primary p = true ∧ is_key_dtype (dtype p) = true
    ∧ (truthy (get (cs_kwargs s0) "auto_id" (VBool false)) = true →
       auto_id p = get (cs_kwargs s0) "auto_id" (VBool false))
    ∧ check_fields_loop 0 (cs_fields s)
        (mkScan (get (cs_kwargs s0) "primary_field" VNone)
                (get (cs_kwargs s0) "partition_key_field" VNone)
                (Some j) (cs_partition_key_field s))
      = OK (cs_fields s, mkScan (VStr (name p)) kn (Some j) (cs_partition_key_field s))
    ∧ (kn = VNone ∧ cs_partition_key_field s = None
       ∨ ∃ k q, cs_partition_key_field s = Some k ∧ cs_fields s !! k = Some q
                ∧ is_partition_key q = true ∧ is_key_dtype (dtype q) = true
                ∧ kn = VStr (name q))
    ∧ (∀ f, f ∈ cs_fields s → is_primary f = true → name f = name p)
    ∧ (∀ f, f ∈ cs_fields s → is_partition_key f = true → kn = VStr (name f))
    ∧ (∀ h, get (cs_kwargs s0) "primary_field" VNone = VStr h → h = name p)
    ∧ (∀ h, get (cs_kwargs s0) "partition_key_field" VNone = VStr h → kn = VStr h)
    ∧ cs_kwargs s = cs_kwargs s0 ∧ cs_description s = cs_description s0
    ∧ cs_enable_dynamic_field s = cs_enable_dynamic_field s0.
Proof.
  intros Hp0 Hk0 Hcheck.
  apply check_fields_OK in Hcheck
    as (fs' & st' & j & p0 & Hloop & Hj & Hlook & Hkey & Hval & ->).
  rewrite Hp0, Hk0 in Hloop.
  set (a := get (cs_kwargs s0) "auto_id" (VBool false)) in *.
  set (st0 := mkScan (get (cs_kwargs s0) "primary_field" VNone)
                (get (cs_kwargs s0) "partition_key_field" VNone) None None) in *.
  set (F := if truthy a then alter (set_auto_id a) j fs' else fs').
  cbn [cs_primary_field cs_fields cs_partition_key_field cs_kwargs cs_description
       cs_enable_dynamic_field].
  assert (Forall2 (λ f g, same_flags f g ∧ dtype g = dtype f) fs' F) as Hsame.
  { assert (Forall2 (λ f g, same_flags f g ∧ dtype g = dtype f) fs' fs') as Hrefl.
    { apply Forall_Forall2_diag, Forall_forall. intros f _.
      split; [|reflexivity]. repeat split. }
    unfold F. destruct (truthy a); [|exact Hrefl].
    apply Forall2_alter_r; [exact Hrefl|].
    intros x y _ _ [(Hn & Hp & Hk) Hd]. repeat split; simpl; assumption. }
  assert (Forall2 same_flags fs' F) as Hflags.
  { eapply Forall2_impl; [exact Hsame|]. intros f g [Hfg _]. exact Hfg. }
  destruct (Forall2_lookup_l _ _ _ _ _ Hsame Hlook) as (p & Hp & (Hpn & Hpp & Hpk) & Hpd).
  destruct (loop_refs _ _ _ _ _ Hloop) as (Hpr & Hkr). simpl in Hpr, Hkr.
  assert (is_primary p0 = true) as Hprim.
  { rewrite Hj in Hpr. symmetry in Hpr.
    apply last_index_Some in Hpr as [[=] | (k & f & -> & Hf & Hflag)].
    simpl in Hlook. congruence. }
  destruct (loop_rerun _ _ F _ _ _ st0 Hloop Hflags) as (st2 & Hrerun & Hfollows).
  { repeat split; right; reflexivity. }
  destruct Hfollows as (Hfpn & Hfkn & Hfpr & Hfkr).
  destruct (loop_refs _ _ _ _ _ Hrerun) as (Hpr2 & Hkr2). simpl in Hpr2, Hkr2.
  destruct (loop_flagged_name _ _ _ _ _ Hrerun) as (Hnames & Hknames).
  destruct (loop_name_kept _ _ _ _ _ Hrerun) as (Hkept & Hkkept).
  assert (p ∈ F) as HpF by (apply list_elem_of_lookup; eauto).
  assert (is_primary p = true) as Hprim' by congruence.
  pose proof (Hnames p HpF Hprim') as Hpname.
  pose proof (loop_refs_free _ _ 0 _ _ (Some j) (partition_ref st') Hrerun) as Hfree.
  cbn [primary_field_name partition_key_field_name st0] in Hfree.
  rewrite Hpname in Hfree.
  rewrite (last_index_dflt _ _ _ j) in Hfree by congruence.
  rewrite (last_index_stable _ _ _ (partition_ref st')) in Hfree by congruence.
  exists j, p, (partition_key_field_name st2).
  split; [reflexivity|]. split; [exact Hp|]. split; [exact Hprim'|].
  split; [congruence|]. split.
  { intros Ha. unfold F in Hp. rewrite Ha in Hp.
    rewrite list_lookup_alter in Hp. rewrite decide_True in Hp by reflexivity.
    rewrite Hlook in Hp. injection Hp as <-. reflexivity. }
  split; [exact Hfree|]. split.
  { destruct (partition_ref st') as [k|] eqn:Hk.
    - right. symmetry in Hkr.
      apply last_index_Some in Hkr as [[=] | (k' & q0 & -> & Hq0 & Hflag)].
      simpl in *. rewrite Hq0 in Hval.
      destruct (Forall2_lookup_l _ _ _ _ _ Hsame Hq0)
        as (q & Hq & (Hqn & Hqp & Hqk) & Hqd).
      assert (is_partition_key q = true) as Hqflag by congruence.
      exists k', q. split; [reflexivity|]. split; [exact Hq|]. split; [exact Hqflag|].
      split.
      + rewrite Hqd. unfold validate_partition_key in Hval.
        destruct (is_key_dtype (dtype q0)); [reflexivity | discriminate].
      + apply Hknames; [|exact Hqflag]. apply list_elem_of_lookup. eauto.
    - left. split; [|reflexivity]. simpl in Hval.
      destruct (is_None (partition_key_field_name st')) eqn:Hnone; [|discriminate].
      apply is_None_true in Hnone. destruct Hfkn as [->| ->]; [reflexivity | exact Hnone]. }
  split.
  { intros f Hf Hflag. pose proof (Hnames f Hf Hflag) as Hname. congruence. }
  split; [exact Hknames|]. split.
  { intros h Hh. pose proof (Hkept h Hh) as Hname. congruence. }
  split; [exact Hkkept|]. repeat split.
Qed.

Lemma validate_partition_key_resolved (s : CollectionSchema) (kn : pyval) (n : string) :
  (kn = VNone ∧ cs_partition_key_field s = None
   ∨ ∃ k q, cs_partition_key_field s = Some k ∧ cs_fields s !! k = Some q
            ∧ is_partition_key q = true ∧ is_key_dtype (dtype q) = true
            ∧ kn = VStr (name q)) →
  validate_partition_key kn (partition_key_field s) n = OK ().
Proof.
  unfold partition_key_field.
  intros [(-> & ->) | (k & q & -> & Hq & _ & Hkey & _)]; simpl; [reflexivity|].
  rewrite Hq. apply validate_partition_key_ignores_primary, Hkey.
Qed.

Lemma Forall2_compose {A B C} (P : A → B → Prop) (Q : B → C → Prop) (R : A → C → Prop)
    (l : list A) (k : list B) (m : list C) :
  (∀ x y z, P x y → Q y z → R x z) →
  Forall2 P l k → Forall2 Q k m → Forall2 R l m.
Proof.
  intros HR Hlk. revert m. induction Hlk as [|x y l k Hxy Hlk IH]; intros m Hkm.
  - inversion Hkm. constructor.
  - inversion Hkm as [|? z ? m' Hyz Hkm']; subst. constructor; eauto.
Qed.

Section Construction.
Context `{Collaborators}.

Lemma deepcopy_keeps (f g : FieldSchema) :
  deepcopy f = OK g →
  name g = name f ∧ dtype g = dtype f ∧ description g = description f
  ∧ is_primary g = is_primary f ∧ is_partition_key g = is_partition_key f.
Proof.
  unfold deepcopy, FieldSchema_construct_from_dict, FieldSchema_call.
  destruct (existsb _ _); [discriminate|]. intros Hinit.
  apply FieldSchema_init_OK in Hinit
    as (d & p & a & k & dv & Hdt & Hd & Hp & Ha & Hpa & Hk & Hdv & ->).
  unfold get in Hp, Hk.
  rewrite dict_kwargs_is_primary in Hp. rewrite dict_kwargs_is_partition_key in Hk.
  simpl in Hdt, Hp, Hk. injection Hdt as <-.
  repeat split; simpl.
  - destruct (is_primary f); simpl in Hp; congruence.
  - destruct (is_partition_key f); simpl in Hk; congruence.
Qed.

Lemma deepcopy_elem_inv (l : list (FieldSchema + pyval)) (gs : list FieldSchema) :
  mapR deepcopy_elem l = OK (inl <$> gs) →
  ∃ fs, l = inl <$> fs ∧ Forall2 (λ f g, deepcopy f = OK g) fs gs.
Proof.
  rewrite mapR_OK_Forall2. revert gs.
  induction l as [|x l IH]; intros gs Hall.
  - destruct gs as [|g gs]; [|inversion Hall].
    exists []. split; [reflexivity | constructor].
  - destruct gs as [|g gs]; [inversion Hall|].
    rewrite fmap_cons in Hall. apply Forall2_cons in Hall as [Hx Hrest].
    destruct (IH gs Hrest) as (fs & -> & Hfs).
    destruct x as [f|v]; simpl in Hx; [|discriminate].
    destruct (deepcopy f) as [g'|] eqn:Hg; simpl in Hx; [|discriminate].
    injection Hx as ->. exists (f :: fs). split; [reflexivity|].
    constructor; assumption.
Qed.

(** What a construction that returns has done. *)
Lemma init_OK_inv (arg : fields_arg) (desc : string) (kwargs : gmap string pyval)
    (s : CollectionSchema) :
  CollectionSchema_init arg desc kwargs = OK s →
  ∃ fs gs,
    arg = FieldList (inl <$> fs)
    ∧ Forall2 (λ f g, deepcopy f = OK g) fs gs
    ∧ kwargs_well_typed kwargs
    ∧ (if truthy (get kwargs "check_fields" (VBool true))
       then _check_fields
              (mkCollectionSchema kwargs gs desc
                 (get kwargs "enable_dynamic_field" (VBool false)) None None) = OK s
       else s = mkCollectionSchema kwargs gs desc
                  (get kwargs "enable_dynamic_field" (VBool false)) None None).
Proof.
  unfold CollectionSchema_init. destruct arg as [v|l]; [discriminate|].
  intros Hinit. apply bind_OK in Hinit as (copies & Hcopies & Hinit).
  apply bind_OK in Hinit as (gs & Hck & Hinit).
  pose proof (check_kwargs_typed _ _ _ Hck) as Htyped.
  apply check_kwargs_OK in Hck as (-> & _).
  apply deepcopy_elem_inv in Hcopies as (fs & -> & Hfs).
  exists fs, gs. split; [reflexivity|]. split; [exact Hfs|]. split; [exact Htyped|].
  destruct (truthy (get kwargs "check_fields" (VBool true))); [exact Hinit|].
  injection Hinit as <-. reflexivity.
Qed.

(** X6. A collection descriptor constructed with the field checks on has a
    primary field: it is flagged, its dtype is [INT64] or [VARCHAR], every
    field flagged primary bears its name, it is the field the
    [primary_field] hint names, and it has [auto_id] set when the [auto_id]
    keyword argument is true. Its partition-key field, if any, is flagged
    and of dtype [INT64] or [VARCHAR]; a field flagged partition key, or a
    [partition_key_field] hint, bears the name of the partition-key field. *)
Theorem checked_construction_invariants (arg : fields_arg) (desc : string)
    (kwargs : gmap string pyval) (s : CollectionSchema) :
  checked kwargs →
  CollectionSchema_init arg desc kwargs = OK s →
  ∃ p, primary_field s = Some p
       ∧ is_primary p = true ∧ is_key_dtype (dtype p) = true
       ∧ (∀ f, f ∈ fields s → is_primary f = true → name f = name p)
       ∧ (∀ h, get kwargs "primary_field" VNone = VStr h → name p = h)
       ∧ (truthy (get kwargs "auto_id" (VBool false)) = true → auto_id p = VBool true)
       ∧ (∀ q, partition_key_field s = Some q →
               is_partition_key q = true ∧ is_key_dtype (dtype q) = true)
       ∧ (∀ f, f ∈ fields s → is_partition_key f = true →
               ∃ q, partition_key_field s = Some q ∧ name q = name f)
       ∧ (∀ h, get kwargs "partition_key_field" VNone = VStr h →
               ∃ q, partition_key_field s = Some q ∧ name q = h).
Proof.
  intros Hchecked Hinit.
  apply init_OK_inv in Hinit as (fs & gs & -> & Hcopies & Htyped & Hcheck).
  unfold checked in Hchecked. rewrite Hchecked in Hcheck.
  apply constructed_scan in Hcheck
    as (j & p & kn & Hj & Hp & Hprim & Hkey & Hauto & _ & Hpart & Hnames & Hknames
        & Hhint & Hkhint & _); [|reflexivity|reflexivity].
  cbn [cs_kwargs] in *.
  assert (∀ n, kn = VStr n → ∃ q, partition_key_field s = Some q ∧ name q = n
                                  ∧ is_partition_key q = true
                                  ∧ is_key_dtype (dtype q) = true) as Hresolved.
  { intros n ->. destruct Hpart as [([=] & _) | (k & q & Hk & Hq & Hflag & Hqkey & [= ->])].
    exists q. unfold partition_key_field. rewrite Hk. simpl. auto. }
  exists p. unfold primary_field, fields. rewrite Hj. simpl.
  split; [exact Hp|]. split; [exact Hprim|]. split; [exact Hkey|].
  split; [exact Hnames|]. split.
  { intros h Hh. symmetry. apply Hhint, Hh. }
  split.
  { intros Ha. rewrite (Hauto Ha).
    destruct Htyped as (_ & _ & [Hnone | [b Hb]]); unfold get in *.
    - rewrite Hnone in Ha. discriminate.
    - rewrite Hb in *. simpl in *. rewrite Ha. reflexivity. }
  split.
  { intros q Hq. unfold partition_key_field in Hq.
    destruct Hpart as [(_ & Hnone) | (k & q' & Hk & Hq' & Hflag & Hqkey & _)].
    - rewrite Hnone in Hq. discriminate.
    - rewrite Hk in Hq. simpl in Hq. rewrite Hq' in Hq. injection Hq as <-. auto. }
  split.
  { intros f Hf Hflag. destruct (Hresolved _ (Hknames f Hf Hflag)) as (q & Hq & Hn & _).
    eauto. }
  intros h Hh. destruct (Hresolved _ (Hkhint h Hh)) as (q & Hq & Hn & _). eauto.
Qed.

(** X7. With the field checks switched off, construction from valid fields
    and well-typed keyword arguments always returns; the descriptor holds a
    copy of each field, and no primary or partition-key field, whatever the
    flags of the fields; reading [auto_id], [to_dict], [check_insert_schema]
    and [check_upsert_schema] then raise [AttributeError]. *)
Theorem unchecked_construction (fs : list FieldSchema) (desc : string)
    (kwargs : gmap string pyval) :
  common_type_params_ok → Forall valid_field fs → kwargs_well_typed kwargs →
  truthy (get kwargs "check_fields" (VBool true)) = false →
  ∃ s, CollectionSchema_init (FieldList (inl <$> fs)) desc kwargs = OK s
       ∧ Forall2 (λ f g, FieldSchema_eq g f = true) fs (fields s)
       ∧ primary_field s = None ∧ partition_key_field s = None
       ∧ CollectionSchema_auto_id s = Raise AttributeError
       ∧ CollectionSchema_to_dict s = Raise AttributeError
       ∧ (∀ data, check_insert_schema (Some s) data = Raise AttributeError)
       ∧ (∀ data, check_upsert_schema (Some s) data = Raise AttributeError).
Proof.
  intros Hcommon Hvalid Htyped Hoff.
  destruct (deepcopy_list fs Hcommon Hvalid) as (gs & Hgs & Heq & _).
  unfold CollectionSchema_init.
  rewrite (deepcopy_elem_list _ _ Hgs). cbn [mbind result_bind].
  rewrite (check_kwargs_well_typed _ _ Htyped). cbn [mbind result_bind].
  rewrite Hoff. eexists. split; [reflexivity|].
  split.
  { unfold fields. cbn [cs_fields]. eapply Forall2_impl; [exact Heq|].
    intros f g Hfg. unfold FieldSchema_eq. apply bool_decide_eq_true_2. exact Hfg. }
  repeat split.
Qed.

(** X8. Construction keeps the fields it is given: when it returns, every
    element of [fields] was a field descriptor, and the descriptor holds, in
    the same order, one field for each, with the same name, dtype and
    description; a flag a field came with is still set (the checks only
    raise flags); and the description, the keyword arguments and
    [enable_dynamic_field] are stored as given. *)
Theorem construction_keeps_fields (arg : fields_arg) (desc : string)
    (kwargs : gmap string pyval) (s : CollectionSchema) :
  CollectionSchema_init arg desc kwargs = OK s →
  (∃ fs, arg = FieldList (inl <$> fs)
         ∧ Forall2 (λ f g, name g = name f ∧ dtype g = dtype f
                           ∧ description g = description f
                           ∧ (is_primary f = true → is_primary g = true)
                           ∧ (is_partition_key f = true → is_partition_key g = true))
             fs (fields s))
  ∧ cs_description s = desc
  ∧ cs_kwargs s = kwargs
  ∧ enable_dynamic_field s = get kwargs "enable_dynamic_field" (VBool false).
Proof.
  intros Hinit.
  apply init_OK_inv in Hinit as (fs & gs & -> & Hcopies & Htyped & Hcheck).
  assert (Forall2 (λ f g, name g = name f ∧ dtype g = dtype f
                          ∧ description g = description f
                          ∧ (is_primary f = true → is_primary g = true)
                          ∧ (is_partition_key f = true → is_partition_key g = true))
            fs gs) as Hkept.
  { eapply Forall2_impl; [exact Hcopies|]. intros f g Hfg.
    apply deepcopy_keeps in Hfg as (Hn & Hd & Hdesc & Hp & Hk).
    repeat split; congruence. }
  destruct (truthy (get kwargs "check_fields" (VBool true))).
  - apply check_fields_OK in Hcheck
      as (fs' & st' & j & p0 & Hloop & Hj & Hlook & Hkey & Hval & ->).
    cbn [cs_kwargs cs_fields cs_description cs_enable_dynamic_field] in *.
    apply loop_flags_raised in Hloop.
    unfold enable_dynamic_field, fields.
    cbn [cs_kwargs cs_fields cs_description cs_enable_dynamic_field].
    split; [|repeat split]. exists fs. split; [reflexivity|].
    assert (Forall2 (λ f g, name g = name f ∧ dtype g = dtype f
                            ∧ description g = description f
                            ∧ (is_primary f = true → is_primary g = true)
                            ∧ (is_partition_key f = true → is_partition_key g = true))
              fs fs') as Hraised.
    { eapply Forall2_compose; [|exact Hkept|exact Hloop].
      intros f g g' (Hn & Hd & Hdesc & Hp & Hk) (-> & Hp' & Hk').
      simpl. repeat split; auto. }
    destruct (truthy (get kwargs "auto_id" (VBool false))); [|exact Hraised].
    apply Forall2_alter_r; [exact Hraised|].
    intros f g _ _ Hfg. exact Hfg.
  - subst s. split; [|repeat split]. exists fs. split; [reflexivity | exact Hkept].
Qed.

(** X9. [verify] accepts a descriptor constructed with the field checks on,
    and leaves it as it is: the checks that construction ran give the same
    answer when they are run again on their own result. *)
Theorem verify_constructed (arg : fields_arg) (desc : string)
    (kwargs : gmap string pyval) (s : CollectionSchema) :
  checked kwargs →
  CollectionSchema_init arg desc kwargs = OK s →
  verify s = OK s.
Proof.
  intros Hchecked Hinit.
  apply init_OK_inv in Hinit as (fs & gs & -> & Hcopies & Htyped & Hcheck).
  unfold checked in Hchecked. rewrite Hchecked in Hcheck.
  apply constructed_scan in Hcheck
    as (j & p & kn & Hj & Hp & Hprim & Hkey & Hauto & Hscan & Hpart & _ & _ & _ & _
        & Hkw & _); [|reflexivity|reflexivity].
  cbn [cs_kwargs] in *.
  unfold verify, _check. rewrite Hkw.
  rewrite (check_kwargs_well_typed _ _ Htyped). cbn [mbind result_bind].
  unfold _check_fields. rewrite Hkw, Hj, Hscan. cbn [mbind result_bind].
  cbn [primary_ref partition_ref partition_key_field_name mbind option_bind].
  rewrite Hp.
  unfold validate_primary_key. rewrite Hkey. cbn [negb mbind result_bind].
  pose proof (validate_partition_key_resolved s kn (name p) Hpart) as Hval.
  unfold partition_key_field in Hval. rewrite Hval. cbn [mbind result_bind].
  assert ((if truthy (get kwargs "auto_id" (VBool false))
           then alter (set_auto_id (get kwargs "auto_id" (VBool false))) j (cs_fields s)
           else cs_fields s) = cs_fields s) as ->.
  { destruct (truthy (get kwargs "auto_id" (VBool false))) eqn:Ha; [|reflexivity].
    apply (alter_fixed _ _ _ p Hp). rewrite <- (Hauto eq_refl).
    apply set_auto_id_same. }
  destruct s; simpl in *. congruence.
Qed.

Lemma check_field_second_primary (i : nat) (f : FieldSchema) (st : scan) (n : string) :
  primary_field_name st = VStr n → is_primary f = true → name f ≠ n →
  check_field i f st
  = Raise (PrimaryKeyException (PrimaryKeyOnlyOne (VStr n) (VStr (name f)))).
Proof.
  intros Hn Hflag Hne. unfold check_field. rewrite Hn.
  assert (String.eqb n (name f) = false) as Hneq.
  { apply String.eqb_neq. congruence. }
  change (eq_str (VStr n) (name f)) with (String.eqb n (name f)). rewrite Hneq.
  destruct (eq_str (partition_key_field_name st) (name f)); simpl;
    rewrite Hflag; simpl; rewrite Hneq; reflexivity.
Qed.

(** X10. [add_field] appends the new field without checking the descriptor:
    the primary field stays the one it was. When the field added to a
    checked descriptor is flagged primary and bears another name than the
    primary field, it is [verify] that raises [PrimaryKeyException], naming
    both. *)
Theorem add_field_second_primary (arg : fields_arg) (desc : string)
    (kwargs : gmap string pyval) (s s' : CollectionSchema) (n : string)
    (dt : dtype_arg) (fdesc : string) (fkwargs : gmap string pyval) :
  checked kwargs →
  CollectionSchema_init arg desc kwargs = OK s →
  add_field s n dt fdesc fkwargs = OK s' →
  ∃ p f,
    primary_field s = Some p
    ∧ fields s' = (fields s ++ [f])%list ∧ name f = n
    ∧ primary_field s' = Some p
    ∧ partition_key_field s' = partition_key_field s
    ∧ (get fkwargs "is_primary" (VBool false) = VBool true → n ≠ name p →
       verify s'
       = Raise (PrimaryKeyException (PrimaryKeyOnlyOne (VStr (name p)) (VStr n)))).
Proof.
  intros Hchecked Hinit Hadd.
  apply init_OK_inv in Hinit as (fs & gs & -> & Hcopies & Htyped & Hcheck).
  unfold checked in Hchecked. rewrite Hchecked in Hcheck.
  apply constructed_scan in Hcheck
    as (j & p & kn & Hj & Hp & Hprim & Hkey & Hauto & Hscan & Hpart & _ & _ & _ & _
        & Hkw & _); [|reflexivity|reflexivity].
  cbn [cs_kwargs] in *.
  unfold add_field in Hadd. apply bind_OK in Hadd as (f & Hf & [= <-]).
  unfold FieldSchema_call in Hf. destruct (existsb _ _); [discriminate|].
  apply FieldSchema_init_OK in Hf
    as (d & fp & a & k & dv & -> & Hd & Hfp & Ha & Hpa & Hk & Hdv & Hfeq).
  assert (j < length (cs_fields s)) as Hlt by (eapply lookup_lt_Some; exact Hp).
  exists p, f. unfold primary_field, partition_key_field, fields.
  cbn [cs_fields cs_primary_field cs_partition_key_field]. rewrite Hj.
  cbn [mbind option_bind].
  split; [exact Hp|]. split; [reflexivity|]. split; [rewrite Hfeq; reflexivity|].
  split; [rewrite lookup_app_l by exact Hlt; exact Hp|]. split.
  { destruct Hpart as [(_ & ->) | (k' & q & -> & Hq & _)]; [reflexivity|].
    cbn [mbind option_bind]. rewrite lookup_app_l; [reflexivity|].
    eapply lookup_lt_Some; exact Hq. }
  intros Hflag Hne.
  unfold verify, _check. cbn [cs_kwargs cs_fields]. rewrite Hkw.
  rewrite (check_kwargs_well_typed _ _ Htyped). cbn [mbind result_bind].
  unfold _check_fields.
  cbn [cs_kwargs cs_fields cs_primary_field cs_partition_key_field].
  rewrite loop_app, Hscan. cbn [mbind result_bind].
  assert (check_field (0 + length (cs_fields s)) f
            (mkScan (VStr (name p)) kn (Some j) (cs_partition_key_field s))
          = Raise (PrimaryKeyException (PrimaryKeyOnlyOne (VStr (name p)) (VStr n))))
    as Hraise.
  { replace (VStr n) with (VStr (name f)) by (rewrite Hfeq; reflexivity).
    apply check_field_second_primary; [reflexivity| |].
    - rewrite Hfeq. simpl. congruence.
    - rewrite Hfeq. simpl. exact Hne. }
  cbn [check_fields_loop]. rewrite Hraise. reflexivity.
Qed.

(** X11. A field that is neither flagged primary nor partition key, and
    whose name differs from those of the primary and partition-key fields,
    can be added to a checked descriptor without breaking it: [verify]
    accepts the descriptor with the field appended, and leaves it as it is. *)
Theorem add_field_plain_verify (arg : fields_arg) (desc : string)
    (kwargs : gmap string pyval) (s s' : CollectionSchema) (n : string)
    (dt : dtype_arg) (fdesc : string) (fkwargs : gmap string pyval) :
  checked kwargs →
  CollectionSchema_init arg desc kwargs = OK s →
  add_field s n dt fdesc fkwargs = OK s' →
  get fkwargs "is_primary" (VBool false) = VBool false →
  get fkwargs "is_partition_key" (VBool false) = VBool false →
  (∀ p, primary_field s = Some p → n ≠ name p) →
  (∀ q, partition_key_field s = Some q → n ≠ name q) →
  verify s' = OK s'
  ∧ CollectionSchema_len s' = S (CollectionSchema_len s)
  ∧ primary_field s' = primary_field s.
Proof.
  intros Hchecked Hinit Hadd Hnp Hnk Hpname Hkname.
  apply init_OK_inv in Hinit as (fs & gs & -> & Hcopies & Htyped & Hcheck).
  unfold checked in Hchecked. rewrite Hchecked in Hcheck.
  apply constructed_scan in Hcheck
    as (j & p & kn & Hj & Hp & Hprim & Hkey & Hauto & Hscan & Hpart & _ & _ & _ & _
        & Hkw & _); [|reflexivity|reflexivity].
  cbn [cs_kwargs] in *.
  unfold add_field in Hadd. apply bind_OK in Hadd as (f & Hf & [= <-]).
  unfold FieldSchema_call in Hf. destruct (existsb _ _); [discriminate|].
  apply FieldSchema_init_OK in Hf
    as (d & fp & a & k & dv & -> & Hd & Hfp & Ha & Hpa & Hk & Hdv & Hfeq).
  rewrite Hnp in Hfp. injection Hfp as <-.
  rewrite Hnk in Hk. injection Hk as <-.
  assert (j < length (cs_fields s)) as Hlt by (eapply lookup_lt_Some; exact Hp).
  assert (n ≠ name p) as Hne.
  { apply Hpname. unfold primary_field. rewrite Hj. exact Hp. }
  assert (eq_str kn n = false) as Hkne.
  { destruct Hpart as [(-> & _) | (k' & q & Hk' & Hq & _ & _ & ->)]; [reflexivity|].
    simpl. apply String.eqb_neq. intros Heq.
    apply (Hkname q); [|congruence].
    unfold partition_key_field. rewrite Hk'. exact Hq. }
  assert (validate_partition_key kn
            (cs_partition_key_field s ≫= λ i, (cs_fields s ++ [f])%list !! i) (name p)
          = OK ()) as Hval.
  { pose proof (validate_partition_key_resolved s kn (name p) Hpart) as Hval.
    unfold partition_key_field in Hval.
    destruct Hpart as [(_ & Hnone) | (k' & q & Hk' & Hq & _)].
    - rewrite Hnone in *. exact Hval.
    - rewrite Hk' in *. cbn [mbind option_bind] in *.
      rewrite lookup_app_l; [exact Hval|]. eapply lookup_lt_Some; exact Hq. }
  assert (name f = n ∧ is_primary f = false ∧ is_partition_key f = false)
    as (Hfn & Hfp & Hfk) by (rewrite Hfeq; repeat split).
  assert (check_field (0 + length (cs_fields s)) f
            (mkScan (VStr (name p)) kn (Some j) (cs_partition_key_field s))
          = OK (f, mkScan (VStr (name p)) kn (Some j) (cs_partition_key_field s)))
    as Hstep.
  { apply check_field_OK. cbv zeta.
    cbn [primary_field_name partition_key_field_name primary_ref partition_ref].
    rewrite Hfn, Hkne.
    assert (eq_str (VStr (name p)) n = false) as ->.
    { simpl. apply String.eqb_neq. congruence. }
    rewrite !orb_false_r. split; [symmetry; apply set_flags_same|].
    rewrite Hfp, Hfk.
    split; [discriminate|]. split; [discriminate | reflexivity]. }
  split; [|split].
  - unfold verify, _check. cbn [cs_kwargs cs_fields]. rewrite Hkw.
    rewrite (check_kwargs_well_typed _ _ Htyped). cbn [mbind result_bind].
    unfold _check_fields.
    cbn [cs_kwargs cs_fields cs_primary_field cs_partition_key_field
         cs_description cs_enable_dynamic_field].
    rewrite Hj, loop_app, Hscan. cbn [mbind result_bind].
    cbn [check_fields_loop]. rewrite Hstep. cbn [mbind result_bind].
    cbn [primary_ref partition_ref partition_key_field_name mbind option_bind].
    rewrite lookup_app_l by exact Hlt. rewrite Hp.
    unfold validate_primary_key. rewrite Hkey. cbn [negb mbind result_bind].
    rewrite Hval. cbn [mbind result_bind].
    assert ((if truthy (get kwargs "auto_id" (VBool false))
             then alter (set_auto_id (get kwargs "auto_id" (VBool false))) j
                    (cs_fields s ++ [f])%list
             else (cs_fields s ++ [f])%list) = (cs_fields s ++ [f])%list) as ->.
    { destruct (truthy (get kwargs "auto_id" (VBool false))) eqn:Hau; [|reflexivity].
      rewrite alter_app_l by exact Hlt. f_equal.
      apply (alter_fixed _ _ _ p Hp). rewrite <- (Hauto eq_refl).
      apply set_auto_id_same. }
    reflexivity.
  - unfold CollectionSchema_len, fields. cbn [cs_fields].
    rewrite length_app. simpl. lia.
  - unfold primary_field. cbn [cs_fields cs_primary_field]. rewrite Hj.
    cbn [mbind option_bind]. rewrite lookup_app_l by exact Hlt. reflexivity.
Qed.

End Construction.

Lemma sample_fields_valid : Forall (valid_field (H := sample)) [id_primary; vec_field].
Proof.
  constructor; [|constructor; [|constructor]].
  - apply (plain_field_valid (H := sample)). discriminate.
  - exact vec_field_valid.
Qed.

Lemma checked_empty : checked ∅.
Proof. reflexivity. Qed.

Lemma checked_construction_invariants_witness :
  ∃ s, CollectionSchema_init (H := sample) (FieldList [inl id_primary; inl vec_field]) "" ∅
       = OK s
       ∧ ∃ p, primary_field s = Some p ∧ is_primary p = true.
Proof.
  eexists. split; [reflexivity|].
  destruct (checked_construction_invariants (H := sample)
              (FieldList [inl id_primary; inl vec_field]) "" ∅ _ checked_empty eq_refl)
    as (p & Hp & Hprim & _).
  exists p. split; assumption.
Defined.

Lemma unchecked_construction_witness :
  ∃ s, CollectionSchema_init (H := sample) (FieldList (inl <$> [id_primary; vec_field])) ""
         {[ "check_fields" := VBool false ]} = OK s
       ∧ primary_field s = None.
Proof.
  destruct (unchecked_construction (H := sample) [id_primary; vec_field] ""
              {[ "check_fields" := VBool false ]}
              sample_common_type_params_ok sample_fields_valid)
    as (s & Hs & _ & Hp & _).
  - repeat split; left; reflexivity.
  - reflexivity.
  - exists s. split; assumption.
Defined.

Lemma construction_keeps_fields_witness :
  ∃ s, CollectionSchema_init (H := sample) (FieldList [inl id_primary; inl vec_field]) "" ∅
       = OK s
       ∧ cs_description s = "".
Proof.
  eexists. split; [reflexivity|].
  exact (proj1 (proj2 (construction_keeps_fields (H := sample)
                         (FieldList [inl id_primary; inl vec_field]) "" ∅ _ eq_refl))).
Defined.

Lemma verify_constructed_witness :
  ∃ s, CollectionSchema_init (H := sample) (FieldList [inl id_primary; inl vec_field]) "" ∅
       = OK s
       ∧ verify s = OK s.
Proof.
  eexists. split; [reflexivity|].
  exact (verify_constructed (H := sample)
           (FieldList [inl id_primary; inl vec_field]) "" ∅ _ checked_empty eq_refl).
Defined.

Lemma add_field_second_primary_witness :
  ∃ s s', CollectionSchema_init (H := sample) (FieldList [inl id_primary; inl vec_field]) "" ∅
          = OK s
          ∧ add_field (H := sample) s "other" (Dtype INT64) "" {[ "is_primary" := VBool true ]}
            = OK s'
          ∧ verify s'
            = Raise (PrimaryKeyException (PrimaryKeyOnlyOne (VStr "id") (VStr "other"))).
Proof.
  do 2 eexists. split; [reflexivity|]. split; [reflexivity|].
  epose proof (add_field_second_primary (H := sample)
                 (FieldList [inl id_primary; inl vec_field]) "" ∅ _ _
                 "other" (Dtype INT64) "" {[ "is_primary" := VBool true ]}
                 checked_empty) as Hadd.
  destruct Hadd as (p & f & Hp & _ & _ & _ & _ & Hraise); [reflexivity | reflexivity |].
  injection Hp as <-. apply Hraise; [reflexivity | discriminate].
Defined.

Lemma add_field_plain_verify_witness :
  ∃ s s', CollectionSchema_init (H := sample) (FieldList [inl id_primary; inl vec_field]) "" ∅
          = OK s
          ∧ add_field (H := sample) s "score" (Dtype DOUBLE) "" ∅ = OK s'
          ∧ verify s' = OK s'.
Proof.
  do 2 eexists. split; [reflexivity|]. split; [reflexivity|].
  eapply (add_field_plain_verify (H := sample)
            (FieldList [inl id_primary; inl vec_field]) "" ∅ _ _
            "score" (Dtype DOUBLE) "" ∅ checked_empty).
  - reflexivity.
  - reflexivity.
  - reflexivity.
  - reflexivity.
  - intros p Hp. injection Hp as <-. discriminate.
  - intros q Hq. discriminate Hq.
Defined.

(** ** The [primary_field] hint and the [auto_id] property *)

Lemma check_field_named (i : nat) (f : FieldSchema) (st : scan) :
  eq_str (primary_field_name st) (name f) = true →
  check_field i (set_is_primary true f) st = check_field i f st.
Proof.
  intros Hn. unfold check_field.
  change (name (set_is_primary true f)) with (name f). rewrite Hn. reflexivity.
Qed.

(** A field that the hint names is flagged by the scan: flagging it
    beforehand changes nothing. *)
Lemma loop_alter_named (fs : list FieldSchema) (i j : nat) (st : scan)
    (f : FieldSchema) (h : string) :
  primary_field_name st = VStr h → fs !! j = Some f → name f = h →
  check_fields_loop i (alter (set_is_primary true) j fs) st = check_fields_loop i fs st.
Proof.
  revert i j st. induction fs as [|g fs IH]; intros i j st Hst Hj Hn; [discriminate|].
  destruct j as [|j]; simpl in Hj.
  - injection Hj as ->.
    change (alter (set_is_primary true) 0 (f :: fs)) with (set_is_primary true f :: fs).
    cbn [check_fields_loop]. rewrite check_field_named; [reflexivity|].
    rewrite Hst, Hn. apply eq_str_VStr.
  - change (alter (set_is_primary true) (S j) (g :: fs))
      with (g :: alter (set_is_primary true) j fs).
    cbn [check_fields_loop].
    destruct (check_field i g st) as [[g' st1]|] eqn:Hg; [|reflexivity].
    cbn [mbind result_bind].
    rewrite (IH (S i) j st1); [reflexivity| |exact Hj|exact Hn].
    apply check_field_step in Hg as (_ & _ & _ & _ & Hpn & _ & _ & _ & Hnamed & _).
    rewrite Hpn. destruct (is_primary g'); [|exact Hst].
    destruct (Hnamed eq_refl) as [Hnone|Hsame]; congruence.
Qed.

Section Hint.
Context `{Collaborators}.

(** The field that the [primary_field] hint names becomes the primary field. *)
Lemma hint_resolves (fs : list FieldSchema) (desc : string)
    (kwargs : gmap string pyval) (j : nat) (f0 : FieldSchema) (h : string) :
  common_type_params_ok → Forall valid_field fs →
  kwargs_well_typed kwargs → checked kwargs →
  no_partition_key kwargs fs →
  get kwargs "primary_field" VNone = VStr h →
  fs !! j = Some f0 → name f0 = h → is_key_dtype (dtype f0) = true →
  (∀ i g, fs !! i = Some g → i ≠ j → is_primary g = false ∧ name g ≠ h) →
  ∃ s p, CollectionSchema_init (FieldList (inl <$> fs)) desc kwargs = OK s
         ∧ cs_primary_field s = Some j ∧ primary_field s = Some p
         ∧ name p = h ∧ dtype p = dtype f0 ∧ is_primary p = true.
Proof.
  intros Hcommon Hvalid Htyped Hchecked [Hkhint Hnok] Hhint Hj Hname Hkey Hothers.
  destruct (init_checked fs desc kwargs Hcommon Hvalid Htyped Hchecked)
    as (gs & Hcopies & ->).
  destruct (Forall2_lookup_l _ _ _ _ _ Hcopies Hj) as (g0 & Hg0 & Hdict).
  apply to_dict_eq_inv in Hdict as (Hgn & Hgd & _ & _ & _).
  set (e := get kwargs "enable_dynamic_field" (VBool false)).
  assert (_check_fields (mkCollectionSchema kwargs gs desc e None None)
          = _check_fields
              (mkCollectionSchema kwargs (alter (set_is_primary true) j gs) desc e
                 None None)) as ->.
  { unfold _check_fields.
    cbn [cs_kwargs cs_fields cs_description cs_enable_dynamic_field cs_primary_field
         cs_partition_key_field].
    rewrite (loop_alter_named gs 0 j _ g0 h); [reflexivity|exact Hhint|exact Hg0|].
    congruence. }
  destruct (check_fields_one_primary
              (mkCollectionSchema kwargs (alter (set_is_primary true) j gs) desc e
                 None None) j (set_is_primary true g0)) as [_ Hone].
  - reflexivity.
  - reflexivity.
  - cbn [cs_fields]. rewrite list_lookup_alter, decide_True by reflexivity.
    rewrite Hg0. reflexivity.
  - reflexivity.
  - change (dtype (set_is_primary true g0)) with (dtype g0). congruence.
  - cbn [cs_fields]. intros i g Hg Hij.
    rewrite list_lookup_alter_ne in Hg by congruence.
    destruct (Forall2_lookup_r _ _ _ _ _ Hcopies Hg) as (f & Hf & Hdict).
    apply to_dict_eq_inv in Hdict as (Hn & _ & Hp & _).
    destruct (Hothers i f Hf Hij) as [Hflag Hne].
    change (name (set_is_primary true g0)) with (name g0).
    split; congruence.
  - right. cbn [cs_kwargs]. change (name (set_is_primary true g0)) with (name g0).
    congruence.
  - destruct Hone as (s' & Hs' & Hj' & Hp').
    { split; [exact Hkhint|]. cbn [cs_fields]. intros g Hg.
      apply list_elem_of_lookup in Hg as (i & Hg).
      assert (∀ g', gs !! i = Some g' → is_partition_key g' = false) as Hplain.
      { intros g' Hg'. destruct (Forall2_lookup_r _ _ _ _ _ Hcopies Hg')
          as (f & Hf & Hdict).
        apply to_dict_eq_inv in Hdict as (_ & _ & _ & Hk & _).
        rewrite Hk. apply Hnok, list_elem_of_lookup. eauto. }
      rewrite list_lookup_alter in Hg. destruct (decide (j = i)) as [->|Hne].
      - rewrite Hg0 in Hg. injection Hg as <-. apply (Hplain g0 Hg0).
      - apply Hplain, Hg. }
    exists s', (with_auto_id kwargs (set_is_primary true g0)).
    split; [exact Hs'|]. split; [exact Hj'|]. split; [exact Hp'|].
    destruct (with_auto_id_keeps kwargs (set_is_primary true g0)) as (-> & -> & ->).
    change (name (set_is_primary true g0)) with (name g0).
    change (dtype (set_is_primary true g0)) with (dtype g0).
    repeat split; congruence.
Qed.

(** X12. The [primary_field] keyword argument makes a primary key of the
    field it names: when exactly one field bears that name, has dtype
    [INT64] or [VARCHAR], no other field is flagged primary and no partition
    key is asked for, construction returns, and the field at that position,
    flagged or not beforehand, is the primary field, now flagged. *)
Theorem primary_field_hint_resolves (fs : list FieldSchema) (desc : string)
    (kwargs : gmap string pyval) (j : nat) (f0 : FieldSchema) (h : string) :
  common_type_params_ok → Forall valid_field fs →
  kwargs_well_typed kwargs → checked kwargs →
  no_partition_key kwargs fs →
  get kwargs "primary_field" VNone = VStr h →
  fs !! j = Some f0 → name f0 = h → is_key_dtype (dtype f0) = true →
  (∀ i g, fs !! i = Some g → i ≠ j → is_primary g = false ∧ name g ≠ h) →
  ∃ s p, CollectionSchema_init (FieldList (inl <$> fs)) desc kwargs = OK s
         ∧ cs_primary_field s = Some j ∧ primary_field s = Some p
         ∧ name p = h ∧ dtype p = dtype f0 ∧ is_primary p = true.
Proof. apply hint_resolves. Qed.

End Hint.

Lemma primary_field_hint_resolves_witness :
  ∃ s p, CollectionSchema_init (H := sample) (FieldList (inl <$> [id_field; vec_field])) ""
           {[ "primary_field" := VStr "id" ]} = OK s
         ∧ cs_primary_field s = Some 0 ∧ primary_field s = Some p
         ∧ name p = "id" ∧ dtype p = dtype id_field ∧ is_primary p = true.
Proof.
  apply (primary_field_hint_resolves (H := sample) [id_field; vec_field] ""
           {[ "primary_field" := VStr "id" ]} 0 id_field "id"
           sample_common_type_params_ok).
  - constructor; [|constructor; [|constructor]].
    + apply (plain_field_valid (H := sample)). discriminate.
    + exact vec_field_valid.
  - split; [right; exists "id"; reflexivity|]. split; left; reflexivity.
  - reflexivity.
  - split; [reflexivity|]. intros f Hf.
    apply elem_of_cons in Hf as [->|Hf]; [reflexivity|].
    apply elem_of_cons in Hf as [->|Hf]; [reflexivity|]. inversion Hf.
  - reflexivity.
  - reflexivity.
  - reflexivity.
  - reflexivity.
  - intros i g Hg Hi. destruct i as [|[|i]]; [congruence| |discriminate].
    injection Hg as <-. split; [reflexivity | discriminate].
Defined.

(** X13. The setter of [auto_id] writes [bool(value)] to the primary field
    and to nothing else, so that the getter reads it back; the last write
    wins; and on a descriptor without a primary field the setter does
    nothing, while the getter raises [AttributeError]. *)
Theorem auto_id_setter (s : CollectionSchema) (value : pyval) :
  (∀ p, primary_field s = Some p →
        CollectionSchema_auto_id (CollectionSchema_set_auto_id value s)
        = OK (VBool (truthy value))
        ∧ primary_field (CollectionSchema_set_auto_id value s)
          = Some (set_auto_id (VBool (truthy value)) p)
        ∧ CollectionSchema_len (CollectionSchema_set_auto_id value s)
          = CollectionSchema_len s
        ∧ (∀ i, cs_primary_field s ≠ Some i →
                fields (CollectionSchema_set_auto_id value s) !! i = fields s !! i))
  ∧ (primary_field s = None →
     CollectionSchema_set_auto_id value s = s
     ∧ CollectionSchema_auto_id (CollectionSchema_set_auto_id value s)
       = Raise AttributeError)
  ∧ (∀ w, CollectionSchema_set_auto_id w (CollectionSchema_set_auto_id value s)
          = CollectionSchema_set_auto_id w s).
Proof.
  unfold CollectionSchema_set_auto_id, CollectionSchema_auto_id, CollectionSchema_len,
    primary_field, fields.
  destruct (cs_primary_field s) as [j|] eqn:Hj; cbn [mbind option_bind].
  - destruct (cs_fields s !! j) as [p|] eqn:Hp.
    + cbn [cs_fields cs_primary_field cs_kwargs cs_description cs_enable_dynamic_field
           cs_partition_key_field mbind option_bind].
      rewrite !list_lookup_alter, !decide_True by reflexivity. rewrite Hp.
      cbn [fmap option_fmap option_map].
      split; [|split; [discriminate|]].
      * intros p' [= <-]. split; [reflexivity|]. split; [reflexivity|].
        split; [apply length_alter|].
        intros i Hi. apply list_lookup_alter_ne. congruence.
      * intros w. rewrite list_alter_alter_eq. reflexivity.
    + rewrite Hj. cbn [mbind option_bind]. rewrite Hp.
      split; [discriminate|]. split; [intros _; split; reflexivity|].
      reflexivity.
  - rewrite Hj. cbn [mbind option_bind].
    split; [discriminate|]. split; [intros _; split; reflexivity|].
    reflexivity.
Qed.

(** ** Upsert *)

(** X14. [check_upsert_schema] raises [UpsertAutoIDTrueException] for a
    schema whose primary field has [auto_id] set, whatever the payload; for
    any other schema it does what [check_insert_schema] does, on every
    payload; and without a schema both raise [SchemaNotReadyException]. *)
Theorem check_upsert_schema_cases `{Collaborators} (schema : CollectionSchema)
    (data : pydata) :
  (∀ p, primary_field schema = Some p → truthy (auto_id p) = true →
        check_upsert_schema (Some schema) data
        = Raise (UpsertAutoIDTrueException UpsertAutoIDTrue))
  ∧ ((∀ p, primary_field schema = Some p → truthy (auto_id p) = false) →
     check_upsert_schema (Some schema) data = check_insert_schema (Some schema) data)
  ∧ check_upsert_schema None data = Raise (SchemaNotReadyException SchemaIsNone)
  ∧ check_insert_schema None data = Raise (SchemaNotReadyException SchemaIsNone).
Proof.
  unfold check_upsert_schema, check_insert_schema, CollectionSchema_auto_id.
  split; [|split; [|split; reflexivity]].
  - intros p -> Ha. cbn [mbind result_bind]. rewrite Ha. reflexivity.
  - intros Hoff. destruct (primary_field schema) as [p|]; [|reflexivity].
    cbn [mbind result_bind]. rewrite (Hoff p eq_refl).
    destruct data as [df|v]; reflexivity.
Qed.

(** ** Reconciling a list payload *)

Section ListPayload.
Context `{Collaborators}.

(** The list branch of [parse_fields_from_data], once the expected fields
    are copied and the auto-id primary field is popped. *)
Lemma parse_list_expected (schema : CollectionSchema) (data : list pyval) :
  common_type_params_ok → Forall valid_field (fields schema) →
  no_two_in_a_row is_auto_id_primary (fields schema) →
  ∃ expected,
    Forall2 (λ f g, FieldSchema_to_dict g = FieldSchema_to_dict f)
      (without_auto_id schema) expected
    ∧ Forall (λ f, dtype f ≠ UNKNOWN) expected
    ∧ parse_fields_from_data schema (Value (VList data))
      = (infer_fields ← infer_expected_loop data 0 expected;
         extra ← mapR infer_extra (drop (length expected) data);
         OK ((infer_fields ++ extra)%list, expected, false)).
Proof.
  intros Hcommon Hvalid Hno.
  destruct (deepcopy_list (fields schema) Hcommon Hvalid)
    as (copies & Hcopies & Hsame & Hvalidc).
  assert (Forall2 (λ f g, FieldSchema_to_dict g = FieldSchema_to_dict f
                          ∧ is_auto_id_primary g = is_auto_id_primary f)
            (fields schema) copies) as Hsame'.
  { eapply Forall2_impl; [exact Hsame|]. intros f g Hfg.
    split; [exact Hfg | apply to_dict_eq_auto_id_primary, Hfg]. }
  exists (filter (λ f, is_auto_id_primary f = false) copies).
  split; [apply (filter_same is_auto_id_primary), Hsame'|]. split.
  - apply Forall_forall. intros f Hf. apply list_elem_of_filter in Hf as [_ Hf].
    rewrite Forall_forall in Hvalidc. apply (Hvalidc f Hf).
  - unfold parse_fields_from_data. rewrite Hcopies. cbn [mbind result_bind].
    rewrite pop_while_walking_filter; [reflexivity|].
    eapply no_two_in_a_row_same; [|exact Hno].
    eapply Forall2_impl; [exact Hsame'|]. intros f g [_ Hfg]. exact Hfg.
Qed.

Lemma infer_extra_names (extra : list pyval) (ys : list FieldSchema) :
  mapR infer_extra extra = OK ys → Forall (λ y, name y = "") ys.
Proof.
  rewrite mapR_OK_Forall2. intros Hall. apply Forall_forall. intros y Hy.
  apply list_elem_of_lookup in Hy as [k Hk].
  destruct (Forall2_lookup_r _ _ _ _ _ Hall Hk) as (d & _ & Hd).
  unfold infer_extra in Hd. apply bind_OK in Hd as (elem & _ & Hnew).
  unfold new_field, FieldSchema_call in Hnew.
  destruct (existsb _ _); [discriminate|].
  apply FieldSchema_init_OK in Hnew as (? & ? & ? & ? & ? & _ & _ & _ & _ & _ & _ & _ & ->).
  reflexivity.
Qed.

Lemma new_field_unknown (n : string) (tp : gmap string pyval) :
  existsb (contains tp) init_parameters = false →
  new_field n UNKNOWN tp = Raise (DataTypeNotSupportException FieldDtype).
Proof.
  intros Htp. unfold new_field, FieldSchema_call. rewrite Htp.
  unfold FieldSchema_init. reflexivity.
Qed.

(** The first loop of [parse_fields_from_data] stops at a column whose first
    element has no known type. *)
Lemma infer_expected_loop_unknown (data : list pyval) (fs : list FieldSchema)
    (i j : nat) (elem : pyval) (rest : list pyval) :
  Forall (λ f, dtype f ≠ UNKNOWN) fs →
  (∀ k d, k < i + length fs → data !! k = Some d → d = VNone ∨ ∃ l, d = VList l) →
  (i ≤ j)%nat → j < i + length fs →
  data !! j = Some (VList (elem :: rest)) → infer_dtype_bydata elem = UNKNOWN →
  infer_expected_loop data i fs = Raise (DataTypeNotSupportException FieldDtype).
Proof.
  intros Hvalid. revert i. induction Hvalid as [|f fs Hf _ IH]; intros i Hcols Hij Hj Hd Hu.
  - simpl in Hj. lia.
  - cbn [infer_expected_loop].
    assert (infer_expected data i f = Raise (DataTypeNotSupportException FieldDtype)
            ∨ (i ≠ j ∧ ∃ x, infer_expected data i f = OK x)) as [Hx | [Hne (x & Hx)]].
    { unfold infer_expected.
      destruct (data !! i) as [d|] eqn:Hdi.
      - destruct (Hcols i d ltac:(simpl; lia) Hdi) as [-> | [l ->]]; cbn [is_None].
        + right. split; [congruence|].
          destruct (new_field_plain _ Hf) as (x & Hx & _). eauto.
        + cbn [is_list_like negb]. destruct l as [|e l]; cbn [getitem0].
          * right. split; [congruence|].
            destruct (new_field_plain _ Hf) as (x & Hx & _). eauto.
          * destruct (decide (infer_dtype_bydata e = UNKNOWN)) as [He|He].
            -- left. rewrite He. apply new_field_unknown. reflexivity.
            -- right. split; [congruence|].
               destruct (new_field_plain _ He) as (x & Hx & _). eauto.
      - right. split; [congruence|].
        destruct (new_field_plain _ Hf) as (x & Hx & _). eauto. }
    + rewrite Hx. reflexivity.
    + rewrite Hx. cbn [mbind result_bind].
      rewrite (IH (S i)); [reflexivity| | | |exact Hd|exact Hu]; simpl in *.
      * intros k d Hk. apply Hcols. lia.
      * lia.
      * lia.
Qed.

Lemma infer_expected_loop_length (data : list pyval) (fs xs : list FieldSchema) (i : nat) :
  infer_expected_loop data i fs = OK xs → length xs = length fs.
Proof.
  revert i xs. induction fs as [|f fs IH]; intros i xs Hxs; simpl in Hxs.
  - simplify_eq. reflexivity.
  - apply bind_OK in Hxs as (x & _ & Hxs). apply bind_OK in Hxs as (xs' & Hxs' & Heq).
    simplify_eq. simpl. f_equal. eapply IH, Hxs'.
Qed.

(** The first loop looks at the columns at the expected positions only. *)
Lemma infer_expected_loop_returns (data : list pyval) (fs : list FieldSchema) (i : nat) :
  Forall (λ f, dtype f ≠ UNKNOWN) fs →
  (∀ j d, j < i + length fs → data !! j = Some d → d = VNone ∨ ∃ l, d = VList l) →
  (∀ j elem rest, j < i + length fs → data !! j = Some (VList (elem :: rest)) →
                  infer_dtype_bydata elem ≠ UNKNOWN) →
  ∃ xs, infer_expected_loop data i fs = OK xs.
Proof.
  intros Hvalid. revert i. induction Hvalid as [|f fs Hf _ IH]; intros i Hcols Hknown.
  - exists []. reflexivity.
  - destruct (IH (S i)) as (xs & Hxs).
    { intros j d Hj. apply Hcols. simpl. lia. }
    { intros j elem rest Hj. apply Hknown. simpl. lia. }
    assert (∃ x, infer_expected data i f = OK x) as (x & Hx).
    { unfold infer_expected.
      destruct (data !! i) as [d|] eqn:Hdi;
        [|destruct (new_field_plain _ Hf) as (x & Hx & _); eauto].
      destruct (Hcols i d ltac:(simpl; lia) Hdi) as [-> | [l ->]]; simpl;
        [destruct (new_field_plain _ Hf) as (x & Hx & _); eauto|].
      destruct l as [|elem rest]; simpl;
        [destruct (new_field_plain _ Hf) as (x & Hx & _); eauto|].
      assert (infer_dtype_bydata elem ≠ UNKNOWN) as He.
      { eapply (Hknown i); [simpl; lia | exact Hdi]. }
      destruct (new_field_plain _ He) as (x & Hx & _). eauto. }
    exists (x :: xs). simpl. rewrite Hx. simpl. rewrite Hxs. reflexivity.
Qed.

(** The second loop stops with [IndexError] at an empty column. *)
Lemma infer_extra_empty (extra : list pyval) (j : nat) :
  extra !! j = Some (VList []) →
  (∀ k d, k < j → extra !! k = Some d →
          ∃ elem rest, d = VList (elem :: rest) ∧ infer_dtype_bydata elem ≠ UNKNOWN) →
  mapR infer_extra extra = Raise IndexError.
Proof.
  revert j. induction extra as [|d extra IH]; intros j Hj Hbefore; [discriminate|].
  change (mapR infer_extra (d :: extra))
    with (y ← infer_extra d; ys ← mapR infer_extra extra; OK (y :: ys)).
  destruct j as [|j]; simpl in Hj.
  - simplify_eq. reflexivity.
  - destruct (Hbefore 0 d ltac:(lia) eq_refl) as (elem & rest & -> & Hknown).
    destruct (new_field_plain _ Hknown) as (y & Hy & _).
    assert (infer_extra (VList (elem :: rest)) = OK y) as -> by exact Hy.
    cbn [mbind result_bind].
    rewrite (IH j Hj); [reflexivity|].
    intros k d' Hk. apply (Hbefore (S k)). lia.
Qed.

(** The columns of [data] at the expected positions agree with the schema:
    the first element of each, if there is one, has the dtype of the field
    expected there. *)
Definition columns_match (schema : CollectionSchema) (data : list pyval) : Prop :=
  ∀ j elem rest f,
    data !! j = Some (VList (elem :: rest)) → without_auto_id schema !! j = Some f →
    infer_dtype_bydata elem = dtype f.

(** X15. A schema with valid fields, no two auto-id primary fields in a
    row and a primary field; a list payload with no more columns than the
    schema expects, each a list or [None]. When the first element of some
    column has no known type, [check_insert_schema] raises
    [DataTypeNotSupportException]. When all first elements have a known
    type, it accepts the payload if the first element of every column given
    has the dtype of the field expected at its position, and raises
    [DataNotMatchException] for the dtype if one has not. A column that is
    missing at the end, [None] or empty is not looked at, so that the empty
    payload is accepted. *)
Theorem list_payload_reconciled (schema : CollectionSchema) (data : list pyval)
    (p : FieldSchema) :
  common_type_params_ok → Forall valid_field (fields schema) →
  no_two_in_a_row is_auto_id_primary (fields schema) →
  primary_field schema = Some p →
  (length data ≤ length (without_auto_id schema))%nat →
  (∀ j d, data !! j = Some d → d = VNone ∨ ∃ l, d = VList l) →
  ((∃ j elem rest, data !! j = Some (VList (elem :: rest))
                   ∧ infer_dtype_bydata elem = UNKNOWN) →
   check_insert_schema (Some schema) (Value (VList data))
   = Raise (DataTypeNotSupportException FieldDtype))
  ∧ ((∀ j elem rest, data !! j = Some (VList (elem :: rest)) →
                     infer_dtype_bydata elem ≠ UNKNOWN) →
     (columns_match schema data →
      check_insert_schema (Some schema) (Value (VList data)) = OK ())
     ∧ (¬ columns_match schema data →
        ∃ f d1 d2, check_insert_schema (Some schema) (Value (VList data))
                   = Raise (DataNotMatchException (DtypeDontMatch f d1 d2))))
  ∧ check_insert_schema (Some schema) (Value (VList [])) = OK ().
Proof.
  intros Hcommon Hvalid Hno Hp.
  assert (∀ data : list pyval,
            (length data ≤ length (without_auto_id schema))%nat →
            (∀ j d, data !! j = Some d → d = VNone ∨ ∃ l, d = VList l) →
            (∀ j elem rest, data !! j = Some (VList (elem :: rest)) →
                            infer_dtype_bydata elem ≠ UNKNOWN) →
            (columns_match schema data →
             check_insert_schema (Some schema) (Value (VList data)) = OK ())
            ∧ (¬ columns_match schema data →
               ∃ f d1 d2, check_insert_schema (Some schema) (Value (VList data))
                          = Raise (DataNotMatchException (DtypeDontMatch f d1 d2))))
    as Hboth.
  { clear data. intros data Hlen Hcols Hknown.
    destruct (parse_list_expected schema data Hcommon Hvalid Hno)
      as (expected & Hexpected & Hdtypes & Hparse).
    assert (length (without_auto_id schema) = length expected) as Hlen'.
    { eapply Forall2_length, Hexpected. }
    destruct (infer_expected_loop_OK data expected 0 Hdtypes) as (xs & Hxs & Hxall).
    { intros j d _. apply Hcols. }
    { exact Hknown. }
    assert (length xs = length expected) as Hxlen.
    { rewrite (Forall2_length _ _ _ Hxall). apply length_imap. }
    assert (check_insert_schema (Some schema) (Value (VList data))
            = check_pairs xs expected false) as ->.
    { unfold check_insert_schema, CollectionSchema_auto_id. rewrite Hp.
      cbn [mbind result_bind]. rewrite Hparse, Hxs. cbn [mbind result_bind].
      rewrite drop_ge by lia. cbn [mapR mbind result_bind]. rewrite app_nil_r.
      unfold check_infer_fields_valid. rewrite Hxlen, Nat.eqb_refl. reflexivity. }
    assert (dtype_differs xs expected → ¬ columns_match schema data) as Hdiff.
    { intros (i & x & y & Hx & Hy & Hne) Hmatch. apply Hne.
      assert (imap (λ k f, (0 + k, f)) expected !! i = Some (i, y)) as Himap.
      { rewrite list_lookup_imap, Hy. reflexivity. }
      destruct (Forall2_lookup_l _ _ _ _ _ Hxall Hx) as (kf & Hkf & _ & Hd).
      rewrite Himap in Hkf. injection Hkf as <-. rewrite Hd.
      unfold inferred_dtype. cbn [fst snd].
      destruct (data !! i) as [[| | | | | |[|elem rest]| |]|] eqn:Hdata; try reflexivity.
      destruct (Forall2_lookup_r _ _ _ _ _ Hexpected Hy) as (f & Hf & Hdict).
      rewrite (Hmatch i elem rest f Hdata Hf).
      apply to_dict_eq_inv in Hdict as (_ & Hsame & _). congruence. }
    assert (¬ dtype_differs xs expected → columns_match schema data) as Hsame.
    { intros Hnd j elem rest f Hdata Hf.
      destruct (Forall2_lookup_l _ _ _ _ _ Hexpected Hf) as (y & Hy & Hdict).
      assert (imap (λ k f, (0 + k, f)) expected !! j = Some (j, y)) as Himap.
      { rewrite list_lookup_imap, Hy. reflexivity. }
      destruct (Forall2_lookup_r _ _ _ _ _ Hxall Himap) as (x & Hx & _ & Hd).
      unfold inferred_dtype in Hd. cbn [fst snd] in Hd. rewrite Hdata in Hd.
      apply to_dict_eq_inv in Hdict as (_ & Hyf & _).
      destruct (decide (dtype x = dtype y)) as [Heq|Hne]; [congruence|].
      exfalso. apply Hnd. exists j, x, y. auto. }
    destruct (check_pairs_cases xs expected false)
      as [(Hok & Hnd & _) | ((m & Hm) & [Hd | [[=] _]])].
    - split; [intros _; exact Hok|]. intros Hnot. exfalso. apply Hnot, Hsame, Hnd.
    - split; [intros Hmatch; exfalso; exact (Hdiff Hd Hmatch)|].
      intros _. destruct (check_pairs_false xs expected) as [Hok | Hbad]; [|exact Hbad].
      congruence. }
  intros Hlen Hcols. split; [|split].
  - intros (j & elem & rest & Hj & Hu).
    destruct (parse_list_expected schema data Hcommon Hvalid Hno)
      as (expected & Hexpected & Hdtypes & Hparse).
    assert (length (without_auto_id schema) = length expected) as Hlen'.
    { eapply Forall2_length, Hexpected. }
    unfold check_insert_schema, CollectionSchema_auto_id. rewrite Hp.
    cbn [mbind result_bind]. rewrite Hparse.
    rewrite (infer_expected_loop_unknown data expected 0 j elem rest Hdtypes);
      [reflexivity| |lia| |exact Hj|exact Hu].
    + intros k d _. apply Hcols.
    + apply lookup_lt_Some in Hj. simpl. lia.
  - apply (Hboth data Hlen Hcols).
  - apply (Hboth []).
    + simpl. lia.
    + intros j d Hd. destruct j; discriminate.
    + intros j elem rest Hd. destruct j; discriminate.
    + intros j elem rest f Hd. destruct j; discriminate.
Qed.

(** X16. A schema with valid fields, no two auto-id primary fields in a
    row and a primary field; a list payload with more columns than the schema
    expects. [check_insert_schema] never accepts it. When the columns at the
    expected positions are lists or [None], the further columns are
    non-empty lists and all first elements have a known type, it raises
    [DataNotMatchException], whose message lists the names of the expected
    fields and one empty name for each column of the payload. When a further
    column is an empty list and the columns before it are as above, it
    raises [IndexError]. *)
Theorem list_payload_too_long (schema : CollectionSchema) (data : list pyval)
    (p : FieldSchema) :
  common_type_params_ok → Forall valid_field (fields schema) →
  no_two_in_a_row is_auto_id_primary (fields schema) →
  primary_field schema = Some p →
  length (without_auto_id schema) < length data →
  (∃ e, check_insert_schema (Some schema) (Value (VList data)) = Raise e)
  ∧ ((∀ j d, j < length (without_auto_id schema) → data !! j = Some d →
             d = VNone ∨ ∃ l, d = VList l) →
     (∀ j d, (length (without_auto_id schema) ≤ j)%nat → data !! j = Some d →
             ∃ elem rest, d = VList (elem :: rest)) →
     (∀ j elem rest, data !! j = Some (VList (elem :: rest)) →
                     infer_dtype_bydata elem ≠ UNKNOWN) →
     check_insert_schema (Some schema) (Value (VList data))
     = Raise (DataNotMatchException
                (FieldsDontMatch (name <$> without_auto_id schema)
                   (replicate (length data) ""))))
  ∧ (∀ j, (length (without_auto_id schema) ≤ j)%nat → data !! j = Some (VList []) →
          (∀ k d, k < length (without_auto_id schema) → data !! k = Some d →
                  d = VNone ∨ ∃ l, d = VList l) →
          (∀ k d, (length (without_auto_id schema) ≤ k)%nat → k < j → data !! k = Some d →
                  ∃ elem rest, d = VList (elem :: rest)) →
          (∀ k elem rest, k < j → data !! k = Some (VList (elem :: rest)) →
                          infer_dtype_bydata elem ≠ UNKNOWN) →
          check_insert_schema (Some schema) (Value (VList data)) = Raise IndexError).
Proof.
  intros Hcommon Hvalid Hno Hp Hlen.
  destruct (parse_list_expected schema data Hcommon Hvalid Hno)
    as (expected & Hexpected & Hdtypes & Hparse).
  assert (length (without_auto_id schema) = length expected) as Hlen'.
  { eapply Forall2_length, Hexpected. }
  assert (check_insert_schema (Some schema) (Value (VList data))
          = (infer_fields ← infer_expected_loop data 0 expected;
             extra ← mapR infer_extra (drop (length expected) data);
             check_infer_fields_valid (infer_fields ++ extra)%list expected false))
    as Hcheck.
  { unfold check_insert_schema, CollectionSchema_auto_id. rewrite Hp.
    cbn [mbind result_bind]. rewrite Hparse.
    destruct (infer_expected_loop data 0 expected); [|reflexivity].
    cbn [mbind result_bind]. destruct (mapR infer_extra _); reflexivity. }
  rewrite Hcheck. split; [|split].
  - destruct (infer_expected_loop data 0 expected) as [xs|e] eqn:Hxs; [|eauto].
    cbn [mbind result_bind].
    destruct (mapR infer_extra (drop (length expected) data)) as [ys|e] eqn:Hys; [|eauto].
    cbn [mbind result_bind]. unfold check_infer_fields_valid.
    assert ((length (xs ++ ys) =? length expected)%nat = false) as ->; [|eauto].
    apply Nat.eqb_neq. rewrite length_app, (infer_expected_loop_length _ _ _ _ Hxs).
    apply mapR_OK_Forall2, Forall2_length in Hys. rewrite length_drop in Hys. lia.
  - intros Hcols Hextra Hknown.
    destruct (infer_expected_loop_OK data expected 0 Hdtypes) as (xs & Hxs & Hxall).
    { intros j d Hj. apply Hcols. simpl in Hj. lia. }
    { exact Hknown. }
    destruct (infer_extra_OK (drop (length expected) data)) as (ys & Hys & Hyall).
    { intros d Hd. apply list_elem_of_lookup in Hd as [k Hk].
      rewrite lookup_drop in Hk.
      assert (length (without_auto_id schema) ≤ length expected + k)%nat as Hge by lia.
      destruct (Hextra _ d Hge Hk) as (elem & rest & ->).
      exists elem, rest. split; [reflexivity|]. eapply Hknown, Hk. }
    assert (length xs = length expected) as Hxlen.
    { rewrite (Forall2_length _ _ _ Hxall). apply length_imap. }
    assert (length ys = length data - length expected) as Hylen.
    { rewrite (Forall2_length _ _ _ Hyall), length_drop. reflexivity. }
    rewrite Hxs. cbn [mbind result_bind]. rewrite Hys. cbn [mbind result_bind].
    unfold check_infer_fields_valid.
    assert ((length (xs ++ ys) =? length expected)%nat = false) as ->.
    { apply Nat.eqb_neq. rewrite length_app. lia. }
    cbn [negb]. do 3 f_equal.
    + symmetry. clear -Hexpected. induction Hexpected as [|f g fs gs Hfg _ IH];
        [reflexivity|].
      rewrite !fmap_cons, IH. f_equal.
      apply to_dict_eq_inv in Hfg as (Hn & _). symmetry. exact Hn.
    + assert (Forall (λ y, name y = "") (xs ++ ys)) as Hnames.
      { apply Forall_app. split; [|eapply infer_extra_names, Hys].
        apply Forall_forall. intros x Hx. apply list_elem_of_lookup in Hx as [k Hk].
        destruct (Forall2_lookup_l _ _ _ _ _ Hxall Hk) as (kf & _ & Hn & _). exact Hn. }
      assert (length (xs ++ ys) = length data) as <-.
      { rewrite length_app. lia. }
      clear -Hnames. induction Hnames as [|x l Hx _ IH]; [reflexivity|].
      rewrite fmap_cons, Hx, IH. reflexivity.
  - intros j Hj Hempty Hcols Hextra Hknown.
    destruct (infer_expected_loop_returns data expected 0 Hdtypes) as (xs & Hxs).
    { intros k d Hk. apply Hcols. simpl in Hk. lia. }
    { intros k elem rest Hk. apply Hknown. simpl in Hk. lia. }
    rewrite Hxs. cbn [mbind result_bind].
    rewrite (infer_extra_empty (drop (length expected) data) (j - length expected));
      [reflexivity| |].
    + rewrite lookup_drop. replace (length expected + (j - length expected))%nat with j by lia.
      exact Hempty.
    + intros k d Hk Hd. rewrite lookup_drop in Hd.
      destruct (Hextra (length expected + k)%nat d ltac:(lia) ltac:(lia) Hd)
        as (elem & rest & ->).
      exists elem, rest. split; [reflexivity|].
      apply (Hknown (length expected + k)%nat elem rest); [lia | exact Hd].
Qed.

End ListPayload.

Lemma plain_schema_valid : Forall (valid_field (H := sample)) (fields plain_schema).
Proof.
  constructor; [|constructor; [|constructor]].
  - apply (plain_field_valid (H := sample)). discriminate.
  - exact vec_field_valid.
Qed.

Lemma list_payload_reconciled_witness :
  check_insert_schema (H := sample) (Some plain_schema) (Value (VList [VList [VInt 1]]))
  = OK ().
Proof.
  destruct (list_payload_reconciled (H := sample) plain_schema [VList [VInt 1]] id_primary
              sample_common_type_params_ok plain_schema_valid) as (_ & Hknown & _).
  - simpl. split; [discriminate | exact I].
  - reflexivity.
  - simpl. lia.
  - intros j d Hd. destruct j as [|j]; [|discriminate].
    injection Hd as <-. right. eexists. reflexivity.
  - destruct Hknown as [Haccepted _].
    + intros j elem rest Hd. destruct j as [|j]; [|discriminate].
      injection Hd as <- <-. discriminate.
    + apply Haccepted.
      intros j elem rest f Hd Hf. destruct j as [|j]; [|discriminate].
      injection Hd as <- <-. injection Hf as <-. reflexivity.
Defined.

Lemma list_payload_too_long_witness :
  check_insert_schema (H := sample) (Some plain_schema)
    (Value (VList [VList [VInt 1]; float_column; VList [VStr "x"]]))
  = Raise (DataNotMatchException (FieldsDontMatch ["id"; "vec"] [""; ""; ""])).
Proof.
  destruct (list_payload_too_long (H := sample) plain_schema
              [VList [VInt 1]; float_column; VList [VStr "x"]] id_primary
              sample_common_type_params_ok plain_schema_valid) as (_ & Hexact & _).
  - simpl. split; [discriminate | exact I].
  - reflexivity.
  - simpl. lia.
  - apply Hexact.
    + intros j d Hj Hd. destruct j as [|[|j]]; [| |simpl in Hj; lia];
        injection Hd as <-; right; eexists; reflexivity.
    + intros j d Hj Hd. destruct j as [|[|[|j]]]; simpl in Hj; [lia|lia| |discriminate].
      injection Hd as <-. do 2 eexists. reflexivity.
    + intros j elem rest Hd. destruct j as [|[|[|j]]]; [| | |discriminate];
        injection Hd as <- <-; discriminate.
Defined.

(** ** Inference from a frame *)

(** At most one field of [l] satisfies [cond]. *)
Definition at_most_one (cond : FieldSchema → bool) (l : list FieldSchema) : Prop :=
  ∀ i k f g, l !! i = Some f → l !! k = Some g → cond f = true → cond g = true → i = k.

Lemma pop_none (cond : FieldSchema → bool) (i : nat) (rest tmp : list FieldSchema) :
  (∀ f, f ∈ rest → cond f = false) → pop_by_positions cond i rest tmp = OK tmp.
Proof.
  revert i. induction rest as [|f rest IH]; intros i Hall; [reflexivity|].
  cbn [pop_by_positions]. rewrite (Hall f) by left. apply IH. intros g Hg. apply Hall. right. exact Hg.
Qed.

Lemma filter_all_false (cond : FieldSchema → bool) (l : list FieldSchema) :
  (∀ f, f ∈ l → cond f = false) → filter (λ g, cond g = false) l = l.
Proof.
  induction l as [|f l IH]; intros Hall; [reflexivity|].
  rewrite filter_cons_True by (apply Hall; left).
  f_equal. apply IH. intros g Hg. apply Hall. right. exact Hg.
Qed.

(** With at most one field to pop, popping by the positions of another list
    of the same shape removes that field and nothing else. *)
Lemma pop_single (cond : FieldSchema → bool) (pre rest trest : list FieldSchema) :
  Forall2 (λ f g, cond g = cond f) rest trest →
  at_most_one cond rest →
  pop_by_positions cond (length pre) rest (pre ++ trest)%list
  = OK (pre ++ filter (λ g, cond g = false) trest)%list.
Proof.
  intros Hsame. revert pre.
  induction Hsame as [|f g rest trest Hfg Hsame IH]; intros pre Hone; [reflexivity|].
  cbn [pop_by_positions]. destruct (cond f) eqn:Hf.
  - assert (∀ f', f' ∈ rest → cond f' = false) as Hrest.
    { intros f' Hf'. apply list_elem_of_lookup in Hf' as [k Hk].
      destruct (cond f') eqn:Hc; [|reflexivity].
      discriminate (Hone 0 (S k) f f' eq_refl Hk Hf Hc). }
    rewrite bool_decide_eq_true_2 by (rewrite length_app; simpl; lia).
    rewrite delete_middle, pop_none by exact Hrest.
    rewrite filter_cons_False by (rewrite Hfg; discriminate).
    rewrite filter_all_false; [reflexivity|].
    intros g' Hg'. apply list_elem_of_lookup in Hg' as [k Hk].
    destruct (Forall2_lookup_r _ _ _ _ _ Hsame Hk) as (f' & Hf' & ->).
    apply Hrest, list_elem_of_lookup. eauto.
  - rewrite filter_cons_True by congruence.
    replace (S (length pre)) with (length (pre ++ [g])) by (rewrite length_app; simpl; lia).
    rewrite (cons_middle g pre trest), (cons_middle g pre (filter _ trest)).
    rewrite !app_assoc. apply IH. intros i k f1 f2 Hi Hk. intros H1 H2.
    assert (S i = S k) as [= ->]; [|reflexivity].
    exact (Hone (S i) (S k) f1 f2 Hi Hk H1 H2).
Qed.

Section Frames.
Context `{Collaborators}.

(** The type params that sampling captures hold a [dim] and nothing else. *)
Definition dim_only (m : gmap string (gmap string pyval)) : Prop :=
  ∀ k tp, m !! k = Some tp → ∃ z, tp = {[ "dim" := VInt z ]}.

Lemma dim_only_insert (m : gmap string (gmap string pyval)) (k : string) (z : Z) :
  dim_only m → dim_only (<[k := {[ "dim" := VInt z ]}]> m).
Proof.
  intros Hm k' tp Hk'. apply lookup_insert_Some in Hk' as [[_ <-] | [_ Hk']]; eauto.
Qed.

Lemma sample_columns_inv (cols : list column) (dts types : list DataType)
    (m m' : gmap string (gmap string pyval)) :
  sample_columns cols dts m = OK (types, m') →
  length cols = length dts → dim_only m →
  length types = length cols ∧ dim_only m'.
Proof.
  revert dts types m m'.
  induction cols as [|c cols IH]; intros dts types m m' Hs Hlen Hm.
  - simpl in Hs. injection Hs as <- <-. split; [reflexivity | exact Hm].
  - destruct dts as [|dt dts]; [discriminate|]. injection Hlen as Hlen.
    cbn [sample_columns] in Hs. destruct (bool_decide (dt = UNKNOWN)).
    + apply bind_OK in Hs as (m1 & Hm1 & Hs).
      destruct (sample_columns cols dts m1) as [[rest m2]|] eqn:Hrest; [|discriminate].
      cbn in Hs. injection Hs as <- <-.
      assert (dim_only m1) as Hdim.
      { destruct (infer_dtype_bydata (col_cell c 0));
          try (injection Hm1 as <-; exact Hm);
          apply bind_OK in Hm1 as (n & _ & [= <-]); apply dim_only_insert, Hm. }
      destruct (IH _ _ _ _ Hrest Hlen Hdim) as [Hl Hd].
      split; [simpl; congruence | exact Hd].
    + destruct (sample_columns cols dts m) as [[rest m2]|] eqn:Hrest; [|discriminate].
      cbn in Hs. injection Hs as <- <-.
      destruct (IH _ _ _ _ Hrest Hlen Hm) as [Hl Hd].
      split; [simpl; congruence | exact Hd].
Qed.

(** What [prepare_fields_from_dataframe] hands over when it returns. *)
Lemma prepare_OK_inv (df : DataFrame) (names : list string) (types : list DataType)
    (m : gmap string (gmap string pyval)) :
  prepare_fields_from_dataframe df = OK (names, types, m) →
  names = columns df ∧ length types = length names
  ∧ Forall (λ d, d ≠ UNKNOWN) types ∧ dim_only m.
Proof.
  unfold prepare_fields_from_dataframe. intros Hprep.
  apply bind_OK in Hprep as ([types' m'] & Hsample & Hprep).
  destruct (bool_decide (UNKNOWN ∈ types')) eqn:Hunknown; [discriminate|].
  injection Hprep as <- <- <-.
  apply bool_decide_eq_false in Hunknown.
  assert (Forall (λ d, d ≠ UNKNOWN) types') as Hknown.
  { apply Forall_forall. intros d Hd ->. contradiction. }
  assert (dim_only (∅ : gmap string (gmap string pyval))) as Hempty.
  { intros k tp Hk. rewrite lookup_empty in Hk. discriminate. }
  split; [reflexivity|]. unfold columns. rewrite length_fmap.
  destruct (bool_decide (UNKNOWN ∈ _)).
  - destruct (df_len df =? 0)%nat; [discriminate|].
    apply sample_columns_inv in Hsample as [Hlen Hdim];
      [auto | rewrite !length_fmap; reflexivity | exact Hempty].
  - injection Hsample as <- <-. rewrite !length_fmap. auto.
Qed.

Lemma new_field_inv (n : string) (d : DataType) (tp : gmap string pyval)
    (x : FieldSchema) :
  new_field n d tp = OK x → name x = n ∧ dtype x = d.
Proof.
  unfold new_field, FieldSchema_call. destruct (existsb _ _); [discriminate|].
  intros Hinit. apply FieldSchema_init_OK in Hinit
    as (d' & ? & ? & ? & ? & [= <-] & _ & _ & _ & _ & _ & _ & ->).
  split; reflexivity.
Qed.

Lemma new_field_dim (n : string) (d : DataType) (tp : gmap string pyval) :
  d ≠ UNKNOWN → tp = ∅ ∨ (∃ z, tp = {[ "dim" := VInt z ]}) →
  ∃ x, new_field n d tp = OK x.
Proof.
  intros Hd Htp. unfold new_field, FieldSchema_call.
  assert (existsb (contains tp) init_parameters = false
          ∧ get tp "is_primary" (VBool false) = VBool false
          ∧ tp !! "auto_id" = None
          ∧ get tp "is_partition_key" (VBool false) = VBool false
          ∧ get tp "default_value" VNone = VNone) as (-> & Hp & Ha & Hk & Hdv).
  { destruct Htp as [->|[z ->]]; repeat split. }
  eexists. apply (FieldSchema_init_intro n d "" tp false false false None Hd Hp);
    [left; auto | exact Hk | left; auto].
Qed.

Lemma dtype_of_column_OK (cn : list string) (dt : list DataType) (n : string) :
  n ∈ cn → length cn = length dt →
  ∃ d, dtype_of_column cn dt n = OK d ∧ d ∈ dt.
Proof.
  revert dt. induction cn as [|c cn IH]; intros dt Hn Hlen; [inversion Hn|].
  destruct dt as [|d dt]; [discriminate|]. injection Hlen as Hlen.
  cbn [dtype_of_column]. destruct (String.eqb_spec c n) as [->|Hne].
  - exists d. split; [reflexivity | left].
  - apply elem_of_cons in Hn as [->|Hn]; [contradiction|].
    destruct (IH dt Hn Hlen) as (d' & Hd' & Hin). exists d'. split; [exact Hd'|].
    right. exact Hin.
Qed.

Lemma dim_only_default (m : gmap string (gmap string pyval)) (k : string) :
  dim_only m → default ∅ (m !! k) = ∅ ∨ ∃ z, default ∅ (m !! k) = {[ "dim" := VInt z ]}.
Proof.
  intros Hm. destruct (m !! k) as [tp|] eqn:Hk; [|left; reflexivity].
  right. apply (Hm k tp Hk).
Qed.

(** The first loop of [parse_fields_from_dataframe] returns, with one
    inferred field per expected field, under its name; the names it appends
    to the column names are names of expected fields. *)
Lemma infer_from_columns_OK (m : gmap string (gmap string pyval))
    (tmp : list FieldSchema) (cn : list string) (dt : list DataType)
    (inf : list FieldSchema) :
  dim_only m → Forall (λ f, dtype f ≠ UNKNOWN) tmp →
  Forall (λ d, d ≠ UNKNOWN) dt → length cn = length dt →
  ∃ cn' dt' inf' extra,
    infer_from_columns m tmp cn dt inf = OK (cn', dt', inf')
    ∧ name <$> inf' = ((name <$> inf) ++ (name <$> tmp))%list
    ∧ cn' = (cn ++ extra)%list ∧ (∀ n, n ∈ extra → n ∈ name <$> tmp)
    ∧ length cn' = length dt' ∧ Forall (λ d, d ≠ UNKNOWN) dt'.
Proof.
  intros Hm Htmp. revert cn dt inf.
  induction Htmp as [|f tmp Hf Htmp IH]; intros cn dt inf Hdt Hlen.
  - exists cn, dt, inf, []. rewrite !app_nil_r.
    repeat split; [|exact Hlen|exact Hdt]. intros n Hn. inversion Hn.
  - cbn [infer_from_columns]. destruct (decide (name f ∈ cn)) as [Hin|Hnin].
    + rewrite (bool_decide_eq_true_2 _ Hin). cbn [negb].
      destruct (dtype_of_column_OK cn dt (name f) Hin Hlen) as (d & -> & Hd).
      cbn [mbind result_bind].
      assert (d ≠ UNKNOWN) as Hknown.
      { rewrite Forall_forall in Hdt. apply Hdt, Hd. }
      destruct (new_field_dim (name f) d (default ∅ (m !! name f)) Hknown
                  (dim_only_default m (name f) Hm)) as (x & Hx).
      rewrite Hx. cbn [mbind result_bind].
      destruct (IH cn dt (inf ++ [x])%list Hdt Hlen)
        as (cn' & dt' & inf' & extra & -> & Hnames & -> & Hextra & Hlen' & Hdt').
      exists (cn ++ extra)%list, dt', inf', extra.
      split; [reflexivity|]. split.
      { rewrite Hnames, fmap_app, <- app_assoc. simpl.
        apply new_field_inv in Hx as [-> _]. reflexivity. }
      split; [reflexivity|]. split; [|auto].
      intros n Hn. rewrite fmap_cons. right. apply Hextra, Hn.
    + rewrite (bool_decide_eq_false_2 _ Hnin). cbn [negb].
      destruct (new_field_dim (name f) (dtype f) ∅ Hf (or_introl eq_refl)) as (x & Hx).
      rewrite Hx. cbn [mbind result_bind].
      destruct (IH (cn ++ [name f])%list (dt ++ [dtype f])%list (inf ++ [x])%list)
        as (cn' & dt' & inf' & extra & -> & Hnames & -> & Hextra & Hlen' & Hdt').
      { apply Forall_app. split; [exact Hdt|]. constructor; [exact Hf | constructor]. }
      { rewrite !length_app. simpl. lia. }
      exists ((cn ++ [name f]) ++ extra)%list, dt', inf', (name f :: extra).
      split; [reflexivity|]. split.
      { rewrite Hnames, fmap_app, <- app_assoc. simpl.
        apply new_field_inv in Hx as [-> _]. reflexivity. }
      split; [rewrite <- app_assoc; reflexivity|]. split; [|auto].
      intros n Hn. rewrite fmap_cons.
      apply elem_of_cons in Hn as [->|Hn]; [left | right; apply Hextra, Hn].
Qed.

(** The second loop returns, with one field for each column name that the
    first loop has not inferred. *)
Lemma infer_remaining_OK (m : gmap string (gmap string pyval))
    (infer_name : list string) (cols : list (string * DataType)) :
  dim_only m → Forall (λ nd, nd.2 ≠ UNKNOWN) cols →
  ∃ more, infer_remaining m infer_name cols = OK more
          ∧ name <$> more = filter (λ n, n ∉ infer_name) (cols.*1).
Proof.
  intros Hm Hcols. induction Hcols as [|[n d] cols Hd Hcols IH].
  - exists []. split; reflexivity.
  - destruct IH as (more & Hmore & Hnames). cbn [infer_remaining].
    rewrite fmap_cons. cbn [fst].
    destruct (decide (n ∈ infer_name)) as [Hin|Hnin].
    + rewrite (bool_decide_eq_true_2 _ Hin). cbn [negb].
      exists more. split; [exact Hmore|].
      rewrite filter_cons_False by (intros Hn; contradiction). exact Hnames.
    + rewrite (bool_decide_eq_false_2 _ Hnin). cbn [negb].
      destruct (new_field_dim n d (default ∅ (m !! n)) Hd (dim_only_default m n Hm))
        as (x & Hx).
      rewrite Hx, Hmore. cbn [mbind result_bind].
      exists (x :: more). split; [reflexivity|].
      rewrite filter_cons_True by exact Hnin. rewrite fmap_cons, Hnames.
      apply new_field_inv in Hx as [-> _]. reflexivity.
Qed.

Lemma dtype_of_column_prefix (cn extra : list string) (dt edt : list DataType)
    (n : string) :
  n ∈ cn → length cn = length dt →
  dtype_of_column (cn ++ extra)%list (dt ++ edt)%list n = dtype_of_column cn dt n.
Proof.
  revert dt. induction cn as [|c cn IH]; intros dt Hn Hlen; [inversion Hn|].
  destruct dt as [|d dt]; [discriminate|]. injection Hlen as Hlen.
  cbn [app dtype_of_column]. destruct (String.eqb_spec c n) as [->|Hne]; [reflexivity|].
  apply elem_of_cons in Hn as [->|Hn]; [contradiction|]. apply IH; assumption.
Qed.

(** The dtype of the field inferred for an expected field: the one prepared
    for the column of that name, or the declared one when the frame has no
    such column. *)
Definition dtype_from_frame (cols : list string) (types : list DataType)
    (f x : FieldSchema) : Prop :=
  (name f ∈ cols → dtype_of_column cols types (name f) = OK (dtype x))
  ∧ (name f ∉ cols → dtype x = dtype f).

Lemma infer_from_columns_dtypes (m : gmap string (gmap string pyval))
    (cols0 : list string) (types0 : list DataType) (tmp : list FieldSchema)
    (extra : list string) (edt : list DataType) (inf : list FieldSchema)
    (cn' : list string) (dt' : list DataType) (inf' : list FieldSchema) :
  length cols0 = length types0 →
  (∀ f, f ∈ tmp → name f ∉ extra) → NoDup (name <$> tmp) →
  infer_from_columns m tmp (cols0 ++ extra)%list (types0 ++ edt)%list inf
  = OK (cn', dt', inf') →
  ∃ new, inf' = (inf ++ new)%list ∧ Forall2 (dtype_from_frame cols0 types0) tmp new.
Proof.
  intros Hlen. revert extra edt inf.
  induction tmp as [|f tmp IH]; intros extra edt inf Hfresh Hnodup Hloop.
  - simpl in Hloop. injection Hloop as _ _ <-. exists []. rewrite app_nil_r.
    split; [reflexivity | constructor].
  - rewrite fmap_cons in Hnodup. apply NoDup_cons in Hnodup as [Hnew Hnodup].
    assert (name f ∉ extra) as Hf by (apply Hfresh; left).
    cbn [infer_from_columns] in Hloop.
    destruct (decide (name f ∈ cols0)) as [Hin|Hnin].
    + rewrite bool_decide_eq_true_2 in Hloop by (apply elem_of_app; left; exact Hin).
      cbn [negb] in Hloop.
      rewrite dtype_of_column_prefix in Hloop by assumption.
      apply bind_OK in Hloop as (d & Hd & Hloop).
      apply bind_OK in Hloop as (x & Hx & Hloop).
      apply IH in Hloop as (new & -> & Hall); [| |exact Hnodup].
      * exists (x :: new). split; [rewrite <- app_assoc; reflexivity|].
        constructor; [|exact Hall]. unfold dtype_from_frame.
        apply new_field_inv in Hx as [_ ->].
        split; [intros _; exact Hd | intros Hcontra; contradiction].
      * intros f' Hf'. apply Hfresh. right. exact Hf'.
    + rewrite bool_decide_eq_false_2 in Hloop
        by (intros Hcontra; apply elem_of_app in Hcontra as [?|?]; contradiction).
      cbn [negb] in Hloop.
      apply bind_OK in Hloop as (x & Hx & Hloop).
      rewrite <- !app_assoc in Hloop.
      apply IH in Hloop as (new & -> & Hall); [| |exact Hnodup].
      * exists (x :: new). split; [rewrite <- app_assoc; reflexivity|].
        constructor; [|exact Hall]. unfold dtype_from_frame.
        apply new_field_inv in Hx as [_ ->].
        split; [intros Hcontra; contradiction | intros _; reflexivity].
      * intros f' Hf' Hcontra. apply elem_of_app in Hcontra as [Hcontra|Hcontra].
        -- apply (Hfresh f'); [right; exact Hf' | exact Hcontra].
        -- apply list_elem_of_singleton in Hcontra. apply Hnew. rewrite <- Hcontra.
           apply list_elem_of_fmap. eauto.
Qed.

(** [parse_fields_from_dataframe] on a frame whose column types can be
    inferred. *)
Lemma parse_frame_OK (schema : CollectionSchema) (df : DataFrame)
    (names : list string) (types : list DataType)
    (m : gmap string (gmap string pyval)) :
  common_type_params_ok → Forall valid_field (fields schema) →
  at_most_one is_auto_id_primary (fields schema) →
  prepare_fields_from_dataframe df = OK (names, types, m) →
  ∃ inf more expected,
    parse_fields_from_dataframe schema df = OK ((inf ++ more)%list, expected, true)
    ∧ Forall2 (λ f g, FieldSchema_to_dict g = FieldSchema_to_dict f)
        (without_auto_id schema) expected
    ∧ name <$> inf = name <$> expected
    ∧ name <$> more = filter (λ n, n ∉ name <$> expected) (columns df)
    ∧ (NoDup (name <$> expected) →
       Forall2 (dtype_from_frame (columns df) types) expected inf).
Proof.
  intros Hcommon Hvalid Hone Hprep.
  destruct (prepare_OK_inv df names types m Hprep) as (-> & Hlen & Hknown & Hdim).
  destruct (deepcopy_list (fields schema) Hcommon Hvalid)
    as (copies & Hcopies & Hsame & Hvalidc).
  assert (Forall2 (λ f g, FieldSchema_to_dict g = FieldSchema_to_dict f
                          ∧ is_auto_id_primary g = is_auto_id_primary f)
            (fields schema) copies) as Hsame'.
  { eapply Forall2_impl; [exact Hsame|]. intros f g Hfg.
    split; [exact Hfg | apply to_dict_eq_auto_id_primary, Hfg]. }
  set (expected := filter (λ f, is_auto_id_primary f = false) copies).
  assert (pop_by_positions is_auto_id_primary 0 (fields schema) copies = OK expected)
    as Hpop.
  { apply (pop_single is_auto_id_primary [] (fields schema) copies); [|exact Hone].
    eapply Forall2_impl; [exact Hsame'|]. intros f g [_ Hfg]. exact Hfg. }
  assert (Forall (λ f, dtype f ≠ UNKNOWN) expected) as Hdtypes.
  { apply Forall_forall. intros f Hf. apply list_elem_of_filter in Hf as [_ Hf].
    rewrite Forall_forall in Hvalidc. apply (Hvalidc f Hf). }
  destruct (infer_from_columns_OK m expected (columns df) types [] Hdim Hdtypes Hknown)
    as (cn' & dt' & inf' & extra & Hfirst & Hnames & -> & Hextra & Hlen' & Hknown').
  { symmetry. exact Hlen. }
  simpl in Hnames.
  destruct (infer_remaining_OK m (name <$> inf') (zip (columns df ++ extra) dt') Hdim)
    as (more & Hmore & Hmnames).
  { apply Forall_forall. intros [n d] Hnd. apply elem_of_zip_r in Hnd.
    rewrite Forall_forall in Hknown'. apply Hknown', Hnd. }
  rewrite fst_zip in Hmnames by lia.
  exists inf', more, expected.
  split; [|split; [|split; [exact Hnames|split]]].
  - unfold parse_fields_from_dataframe. rewrite Hprep. cbn [mbind result_bind].
    rewrite Hcopies. cbn [mbind result_bind]. rewrite Hpop. cbn [mbind result_bind].
    rewrite Hfirst. cbn [mbind result_bind]. rewrite Hmore. reflexivity.
  - apply (filter_same is_auto_id_primary), Hsame'.
  - rewrite Hmnames, Hnames, filter_app.
    assert (filter (λ n, n ∉ name <$> expected) extra = []) as ->.
    { clear -Hextra. induction extra as [|n extra IH]; [reflexivity|].
      rewrite filter_cons_False.
      - apply IH. intros n' Hn'. apply Hextra. right. exact Hn'.
      - intros Hn. apply Hn, Hextra. left. }
    apply app_nil_r.
  - intros Hnodup.
    pose proof (infer_from_columns_dtypes m (columns df) types expected [] [] []) as Hd.
    rewrite !app_nil_r in Hd.
    destruct (Hd _ _ _ (eq_sym Hlen) (λ f _ Hin, not_elem_of_nil (name f) Hin)
                Hnodup Hfirst) as (new & -> & Hall).
    exact Hall.
Qed.

(** X17. For a frame whose column types can be inferred and a schema with
    valid fields, at most one of them an auto-id primary field,
    [parse_fields_from_dataframe] returns. The expected fields are copies of
    the schema's fields without the auto-id primary one, in order; the
    inferred fields bear the names of the expected fields, in the order of
    the schema, followed by the labels of the columns that are no expected
    field, in the order of the frame. So an inferred field never differs in
    name from the expected field at its position, however the columns of
    the frame are ordered. *)
Theorem parse_fields_from_dataframe_names (schema : CollectionSchema) (df : DataFrame)
    (names : list string) (types : list DataType)
    (m : gmap string (gmap string pyval)) :
  common_type_params_ok → Forall valid_field (fields schema) →
  at_most_one is_auto_id_primary (fields schema) →
  prepare_fields_from_dataframe df = OK (names, types, m) →
  ∃ inferred expected,
    parse_fields_from_dataframe schema df = OK (inferred, expected, true)
    ∧ Forall2 (λ f g, FieldSchema_eq g f = true) (without_auto_id schema) expected
    ∧ name <$> inferred
      = ((name <$> expected)
         ++ filter (λ n, n ∉ name <$> expected) (columns df))%list
    ∧ ¬ name_differs inferred expected.
Proof.
  intros Hcommon Hvalid Hone Hprep.
  destruct (parse_frame_OK schema df names types m Hcommon Hvalid Hone Hprep)
    as (inf & more & expected & Hparse & Hexpected & Hnames & Hmore & _).
  assert (name <$> (inf ++ more)%list
          = ((name <$> expected)
             ++ filter (λ n, n ∉ name <$> expected) (columns df))%list) as Hall.
  { rewrite fmap_app, Hnames, Hmore. reflexivity. }
  exists (inf ++ more)%list, expected.
  split; [exact Hparse|]. split; [|split; [exact Hall|]].
  - eapply Forall2_impl; [exact Hexpected|].
    intros f g Hfg. apply bool_decide_eq_true_2, Hfg.
  - intros (i & x & y & Hx & Hy & Hne). apply Hne.
    assert ((name <$> (inf ++ more)%list) !! i = Some (name x)) as Hix.
    { rewrite list_lookup_fmap, Hx. reflexivity. }
    rewrite Hall, lookup_app_l in Hix.
    + rewrite list_lookup_fmap, Hy in Hix. injection Hix as <-. reflexivity.
    + rewrite length_fmap. eapply lookup_lt_Some, Hy.
Qed.

Lemma construct_fields_from_dataframe_plain (df : DataFrame) (names : list string)
    (types : list DataType) (m : gmap string (gmap string pyval)) :
  prepare_fields_from_dataframe df = OK (names, types, m) →
  ∃ fs, construct_fields_from_dataframe df = OK fs
        ∧ name <$> fs = columns df ∧ dtype <$> fs = types
        ∧ Forall (λ f, is_primary f = false ∧ is_partition_key f = false) fs.
Proof.
  intros Hprep.
  destruct (prepare_OK_inv df names types m Hprep) as (-> & Hlen & Hknown & Hdim).
  unfold construct_fields_from_dataframe. rewrite Hprep. cbn [mbind result_bind].
  clear Hprep. revert types Hlen Hknown.
  induction (columns df) as [|n ns IH]; intros types Hlen Hknown.
  - destruct types; [|discriminate]. exists []. repeat split. constructor.
  - destruct types as [|d types]; [discriminate|]. injection Hlen as Hlen.
    apply Forall_cons in Hknown as [Hd Hknown].
    destruct (IH types Hlen Hknown) as (fs & Hfs & Hnames & Htypes & Hflags).
    destruct (new_field_dim n d (default ∅ (m !! n)) Hd (dim_only_default m n Hdim))
      as (x & Hx).
    exists (x :: fs). cbn [zip zip_with mapR]. rewrite Hx. cbn [mbind result_bind].
    change (zip_with pair ns types) with (zip ns types). rewrite Hfs.
    split; [reflexivity|]. rewrite !fmap_cons, Hnames, Htypes.
    pose proof (new_field_inv _ _ _ _ Hx) as [-> ->].
    split; [reflexivity|]. split; [reflexivity|]. constructor; [|exact Hflags].
    unfold new_field, FieldSchema_call in Hx.
    destruct (existsb _ _); [discriminate|].
    apply FieldSchema_init_OK in Hx
      as (? & p & ? & k & ? & _ & _ & Hp & _ & _ & Hk & _ & ->).
    cbn [is_primary is_partition_key].
    destruct (dim_only_default m n Hdim) as [Htp | [z Htp]];
      rewrite Htp in Hp, Hk; vm_compute in Hp, Hk; split; congruence.
Qed.

(** X18. [construct_fields_from_dataframe] returns whenever
    [prepare_fields_from_dataframe] does, and raises what it raises
    otherwise. It yields one field for each column, in order, under the
    label of the column and with the type prepared for it; none of them is
    flagged primary or partition key. *)
Theorem construct_fields_from_dataframe_cases (df : DataFrame) :
  (∀ names types m,
     prepare_fields_from_dataframe df = OK (names, types, m) →
     ∃ fs, construct_fields_from_dataframe df = OK fs
           ∧ name <$> fs = columns df ∧ dtype <$> fs = types
           ∧ Forall (λ f, is_primary f = false ∧ is_partition_key f = false) fs)
  ∧ (∀ e, prepare_fields_from_dataframe df = Raise e →
          construct_fields_from_dataframe df = Raise e).
Proof.
  split.
  - intros names types m Hprep.
    apply (construct_fields_from_dataframe_plain df names types m Hprep).
  - intros e Hprep. unfold construct_fields_from_dataframe. rewrite Hprep. reflexivity.
Qed.

End Frames.

Lemma parse_fields_from_dataframe_names_witness :
  ∃ inferred expected,
    parse_fields_from_dataframe (H := sample) plain_schema sample_frame
    = OK (inferred, expected, true)
    ∧ name <$> inferred = ["id"; "vec"; "bits"; "ok"].
Proof.
  epose proof (parse_fields_from_dataframe_names (H := sample) plain_schema sample_frame
                 _ _ _ sample_common_type_params_ok plain_schema_valid) as Hnames.
  destruct Hnames as (inferred & expected & Hparse & Hexpected & Hnames & _).
  - intros i k f g Hi Hk Hf Hg.
    destruct i as [|[|i]]; [| |discriminate]; injection Hi as <-; discriminate.
  - reflexivity.
  - exists inferred, expected. split; [exact Hparse|]. rewrite Hnames.
    change (without_auto_id plain_schema) with [id_primary; vec_field] in Hexpected.
    inversion Hexpected as [|f1 g1 l1 k1 Hg1 Hrest]; subst.
    inversion Hrest as [|f2 g2 l2 k2 Hg2 Hnil]; subst.
    inversion Hnil; subst.
    apply bool_decide_eq_true_1, to_dict_eq_inv in Hg1 as (Hn1 & _).
    apply bool_decide_eq_true_1, to_dict_eq_inv in Hg2 as (Hn2 & _).
    rewrite !fmap_cons, Hn1, Hn2. reflexivity.
Defined.

(** ** Reconciling a frame *)

Lemma check_pairs_same_names (xs ys : list FieldSchema) :
  Forall2 (λ x y, name x = name y) xs ys →
  check_pairs xs ys true = check_pairs xs ys false.
Proof.
  induction 1 as [|x y xs ys Hxy _ IH]; [reflexivity|].
  cbn [check_pairs]. destruct (negb (bool_decide (dtype x = dtype y))); [reflexivity|].
  rewrite Hxy, String.eqb_refl. exact IH.
Qed.

Lemma fmap_eq_Forall2 {A B} (f : A → B) (l k : list A) :
  f <$> l = f <$> k → Forall2 (λ x y, f x = f y) l k.
Proof.
  revert k. induction l as [|x l IH]; intros [|y k] Heq; try discriminate.
  - constructor.
  - rewrite !fmap_cons in Heq. injection Heq as Hxy Heq. constructor; auto.
Qed.

Lemma to_dict_eq_names (fs gs : list FieldSchema) :
  Forall2 (λ f g, FieldSchema_to_dict g = FieldSchema_to_dict f) fs gs →
  name <$> gs = name <$> fs.
Proof.
  induction 1 as [|f g fs gs Hfg _ IH]; [reflexivity|].
  rewrite !fmap_cons, IH. f_equal.
  apply to_dict_eq_inv in Hfg as (Hn & _). exact Hn.
Qed.

Section FrameReconciled.
Context `{Collaborators}.

(** X19. A frame against a schema whose fields are valid and bear distinct
    names, with at most one auto-id primary field, and whose primary key is
    not generated. When [prepare_fields_from_dataframe] raises, the column
    types cannot be inferred and [check_insert_schema] raises the same
    exception. When it returns: a column that is no field of the schema
    makes [check_insert_schema] raise [DataNotMatchException], listing the
    expected names and the names found; and when every column is a field of
    the schema, the frame is accepted exactly when each column has the dtype
    of the field of its name, so that columns may be left out and may come
    in any order, and the only exception raised is the one for a dtype that
    does not match. *)
Theorem frame_reconciled (schema : CollectionSchema) (df : DataFrame) (p : FieldSchema) :
  common_type_params_ok → Forall valid_field (fields schema) →
  at_most_one is_auto_id_primary (fields schema) →
  NoDup (name <$> without_auto_id schema) →
  primary_field schema = Some p → truthy (auto_id p) = false →
  (∀ e, prepare_fields_from_dataframe df = Raise e →
        check_insert_schema (Some schema) (Frame df) = Raise e)
  ∧ (∀ names types m, prepare_fields_from_dataframe df = OK (names, types, m) →
     ((∃ c, c ∈ columns df ∧ c ∉ name <$> without_auto_id schema) →
      check_insert_schema (Some schema) (Frame df)
      = Raise (DataNotMatchException
                 (FieldsDontMatch (name <$> without_auto_id schema)
                    ((name <$> without_auto_id schema)
                     ++ filter (λ n, n ∉ name <$> without_auto_id schema) (columns df)))))
     ∧ ((∀ c, c ∈ columns df → c ∈ name <$> without_auto_id schema) →
        (check_insert_schema (Some schema) (Frame df) = OK ()
         ↔ ∀ f, f ∈ without_auto_id schema → name f ∈ columns df →
                dtype_of_column (columns df) types (name f) = OK (dtype f))
        ∧ (check_insert_schema (Some schema) (Frame df) = OK ()
           ∨ ∃ f d1 d2, check_insert_schema (Some schema) (Frame df)
                        = Raise (DataNotMatchException (DtypeDontMatch f d1 d2))))).
Proof.
  intros Hcommon Hvalid Hone Hnodup Hp Hauto. split.
  { intros e Hprep. unfold check_insert_schema, CollectionSchema_auto_id. rewrite Hp.
    cbn [mbind result_bind]. rewrite Hauto. cbn [mbind result_bind].
    unfold parse_fields_from_data, parse_fields_from_dataframe. rewrite Hprep.
    reflexivity. }
  intros names types m Hprep.
  destruct (parse_frame_OK schema df names types m Hcommon Hvalid Hone Hprep)
    as (inf & more & expected & Hparse & Hexpected & Hnames & Hmore & Hdtypes).
  pose proof (to_dict_eq_names _ _ Hexpected) as Hns.
  rewrite Hns in Hnames, Hmore, Hdtypes. specialize (Hdtypes Hnodup).
  assert (check_insert_schema (Some schema) (Frame df)
          = check_infer_fields_valid (inf ++ more)%list expected true) as ->.
  { unfold check_insert_schema, CollectionSchema_auto_id. rewrite Hp.
    cbn [mbind result_bind]. rewrite Hauto. cbn [mbind result_bind].
    unfold parse_fields_from_data. rewrite Hparse. reflexivity. }
  assert (length inf = length expected) as Hlen.
  { rewrite <- (length_fmap name inf), Hnames, <- Hns, length_fmap. reflexivity. }
  unfold check_infer_fields_valid. split.
  - intros (c & Hc & Hnew).
    assert (more ≠ []) as Hmore'.
    { intros ->. rewrite fmap_nil in Hmore.
      assert (c ∈ filter (λ n, n ∉ name <$> without_auto_id schema) (columns df)) as Hin.
      { apply list_elem_of_filter. split; assumption. }
      rewrite <- Hmore in Hin. inversion Hin. }
    assert ((length (inf ++ more) =? length expected)%nat = false) as ->.
    { apply Nat.eqb_neq. rewrite length_app. destruct more; [contradiction|]. simpl. lia. }
    cbn [negb]. rewrite fmap_app, Hnames, Hmore, Hns. reflexivity.
  - intros Hall.
    assert (more = []) as ->.
    { apply (fmap_nil_inv name). rewrite Hmore.
      clear -Hall. induction (columns df) as [|c cs IH]; [reflexivity|].
      rewrite filter_cons_False.
      - apply IH. intros c' Hc'. apply Hall. right. exact Hc'.
      - intros Hc. apply Hc, Hall. left. }
    rewrite app_nil_r, Hlen, Nat.eqb_refl. cbn [negb].
    rewrite check_pairs_same_names
      by (apply fmap_eq_Forall2; rewrite Hnames, Hns; reflexivity).
    split; [|apply check_pairs_false].
    destruct (check_pairs_cases inf expected false)
      as [(-> & Hnd & _) | ((msg & ->) & [Hd | [[=] _]])].
    + split; [intros _ | reflexivity]. intros f Hf Hcol.
      apply list_elem_of_lookup in Hf as [i Hi].
      destruct (Forall2_lookup_l _ _ _ _ _ Hexpected Hi) as (y & Hy & Hdict).
      destruct (Forall2_lookup_l _ _ _ _ _ Hdtypes Hy) as (x & Hx & Hfrom & _).
      apply to_dict_eq_inv in Hdict as (Hyn & Hyd & _).
      rewrite Hyn in Hfrom. rewrite (Hfrom Hcol). f_equal.
      destruct (decide (dtype x = dtype y)) as [Heq|Hne]; [congruence|].
      exfalso. apply Hnd. exists i, x, y. auto.
    + split; [discriminate|]. intros Hmatch. exfalso.
      destruct Hd as (i & x & y & Hx & Hy & Hne). apply Hne.
      destruct (Forall2_lookup_r _ _ _ _ _ Hexpected Hy) as (f & Hf & Hdict).
      destruct (Forall2_lookup_l _ _ _ _ _ Hdtypes Hy) as (x' & Hx' & Hfrom & Hdecl).
      rewrite Hx in Hx'. injection Hx' as <-.
      apply to_dict_eq_inv in Hdict as (Hyn & Hyd & _).
      destruct (decide (name y ∈ columns df)) as [Hcol|Hcol]; [|exact (Hdecl Hcol)].
      specialize (Hfrom Hcol).
      assert (f ∈ without_auto_id schema) as Hin by (apply list_elem_of_lookup; eauto).
      rewrite Hyn in Hcol, Hfrom. rewrite (Hmatch f Hin Hcol) in Hfrom. congruence.
Qed.

End FrameReconciled.

Definition swapped_frame : DataFrame := mkDataFrame 1 [vec_column; given_id_column].

Lemma plain_schema_at_most_one : at_most_one is_auto_id_primary (fields plain_schema).
Proof.
  intros i k f g Hi Hk Hf Hg.
  destruct i as [|[|i]]; [| |discriminate]; injection Hi as <-; discriminate.
Qed.

Lemma frame_reconciled_witness :
  check_insert_schema (H := sample) (Some plain_schema) (Frame swapped_frame) = OK ().
Proof.
  destruct (frame_reconciled (H := sample) plain_schema swapped_frame id_primary
              sample_common_type_params_ok plain_schema_valid
              plain_schema_at_most_one) as [_ Hprepared].
  - change (NoDup ["id"; "vec"]). apply (bool_decide_unpack _). vm_compute. exact I.
  - reflexivity.
  - reflexivity.
  - edestruct Hprepared as [_ Hknown]; [reflexivity|].
    destruct Hknown as [Haccepted _].
    + intros c Hc. change (c ∈ ["vec"; "id"]) in Hc. change (c ∈ ["id"; "vec"]).
      apply elem_of_cons in Hc as [->|Hc]; [right; left|].
      apply elem_of_cons in Hc as [->|Hc]; [left | inversion Hc].
    + apply Haccepted. intros f Hf _.
      change (f ∈ [id_primary; vec_field]) in Hf.
      apply elem_of_cons in Hf as [->|Hf]; [reflexivity|].
      apply elem_of_cons in Hf as [->|Hf]; [reflexivity | inversion Hf].
Defined.

(** ** Argument errors *)

Section ArgumentErrors.
Context `{Collaborators}.

(** X20. The argument checks of [FieldSchema.__init__], in the order in
    which they fail: a [dtype] that is no member of the enumeration, or the
    unknown one, raises [DataTypeNotSupportException]; then an [is_primary]
    that is no [bool] raises [PrimaryKeyException]; then an [auto_id] that
    is no [bool] raises [AutoIDException]; then an [is_partition_key] that
    is no [bool] raises [PartitionKeyException], provided [auto_id] is not
    set on a field that is not primary. *)
Theorem FieldSchema_init_argument_errors (n : string) (dt : dtype_arg) (desc : string)
    (kwargs : gmap string pyval) :
  ((∀ d, dt = Dtype d → d = UNKNOWN) →
   FieldSchema_init n dt desc kwargs = Raise (DataTypeNotSupportException FieldDtype))
  ∧ (∀ d, dt = Dtype d → d ≠ UNKNOWN →
       (isinstance_bool (get kwargs "is_primary" (VBool false)) = false →
        FieldSchema_init n dt desc kwargs = Raise (PrimaryKeyException IsPrimaryType))
       ∧ (∀ p v, get kwargs "is_primary" (VBool false) = VBool p →
                 kwargs !! "auto_id" = Some v → isinstance_bool v = false →
                 FieldSchema_init n dt desc kwargs = Raise (AutoIDException AutoIDType))
       ∧ (∀ p, get kwargs "is_primary" (VBool false) = VBool p →
               (kwargs !! "auto_id" = None
                ∨ ∃ a, kwargs !! "auto_id" = Some (VBool a) ∧ (a = true → p = true)) →
               isinstance_bool (get kwargs "is_partition_key" (VBool false)) = false →
               FieldSchema_init n dt desc kwargs
               = Raise (PartitionKeyException IsPartitionKeyType))).
Proof.
  unfold FieldSchema_init. split.
  - intros Hunknown. destruct dt as [d|v]; [|reflexivity].
    rewrite (Hunknown d eq_refl). reflexivity.
  - intros d -> Hd. cbn [mbind result_bind].
    rewrite bool_decide_eq_false_2 by exact Hd.
    split; [|split].
    + intros Hp. destruct (get kwargs "is_primary" (VBool false)); try reflexivity.
      discriminate.
    + intros p v -> Hv Hbool. cbn [mbind result_bind]. rewrite Hv.
      destruct v; try reflexivity. discriminate.
    + intros p -> Hauto Hk. cbn [mbind result_bind].
      assert (∃ a, match kwargs !! "auto_id" with
                   | None => OK (VBool false)
                   | Some (VBool a) =>
                       if negb p && a then Raise (PrimaryKeyException AutoIDOnlyOnPK)
                       else OK (VBool a)
                   | Some _ => Raise (AutoIDException AutoIDType)
                   end = OK a) as [a ->].
      { destruct Hauto as [-> | (a & -> & Hpa)]; [eauto|].
        destruct a; [rewrite (Hpa eq_refl)|]; simpl; eauto.
        rewrite andb_false_r. eauto. }
      cbn [mbind result_bind].
      destruct (get kwargs "is_partition_key" (VBool false)); try reflexivity.
      discriminate.
Qed.

(** The elements of [fields] that are field descriptors are valid. *)
Definition valid_elements (l : list (FieldSchema + pyval)) : Prop :=
  Forall (λ x, match x with inl f => valid_field f | inr _ => True end) l.

Lemma deepcopy_elements (l : list (FieldSchema + pyval)) :
  common_type_params_ok → valid_elements l →
  ∃ copies, mapR deepcopy_elem l = OK copies
            ∧ Forall2 (λ x y, match x, y with
                              | inl _, inl _ => True
                              | inr v, inr w => v = w
                              | _, _ => False
                              end) l copies.
Proof.
  intros Hcommon Hvalid.
  assert (∃ copies, Forall2 (λ x y, deepcopy_elem x = OK y
                                    ∧ match x, y with
                                      | inl _, inl _ => True
                                      | inr v, inr w => v = w
                                      | _, _ => False
                                      end) l copies) as [copies Hall].
  { induction Hvalid as [|x l Hx _ [copies IH]]; [exists []; constructor|].
    destruct x as [f|v].
    - destruct (construct_from_to_dict f Hcommon Hx) as (g & Hg & _).
      exists (inl g :: copies). constructor; [|exact IH].
      unfold deepcopy_elem, deepcopy. rewrite Hg. split; [reflexivity | exact I].
    - exists (inr v :: copies). constructor; [|exact IH]. split; reflexivity. }
  exists copies. split.
  - apply mapR_OK_Forall2. eapply Forall2_impl; [exact Hall|]. intros x y [Hxy _]. exact Hxy.
  - eapply Forall2_impl; [exact Hall|]. intros x y [_ Hxy]. exact Hxy.
Qed.

(** X21. The argument checks of [CollectionSchema.__init__], which run
    whether or not the field checks are switched on. A [fields] that is no
    list raises [FieldsTypeException]. For a list whose field descriptors
    are valid: a [primary_field] that is neither [None] nor a [str] raises
    [PrimaryKeyException]; then a [partition_key_field] of that kind raises
    [PartitionKeyException]; then an element that is no field descriptor
    raises [FieldTypeException]; then an [auto_id] that is no [bool] raises
    [AutoIDException]. *)
Theorem CollectionSchema_init_argument_errors (l : list (FieldSchema + pyval))
    (desc : string) (kwargs : gmap string pyval) :
  common_type_params_ok → valid_elements l →
  (∀ v, CollectionSchema_init (NotAList v) desc kwargs
        = Raise (FieldsTypeException FieldsType))
  ∧ (is_None (get kwargs "primary_field" VNone) = false →
     isinstance_str (get kwargs "primary_field" VNone) = false →
     CollectionSchema_init (FieldList l) desc kwargs
     = Raise (PrimaryKeyException PrimaryFieldType))
  ∧ ((is_None (get kwargs "primary_field" VNone) = true
      ∨ isinstance_str (get kwargs "primary_field" VNone) = true) →
     (is_None (get kwargs "partition_key_field" VNone) = false →
      isinstance_str (get kwargs "partition_key_field" VNone) = false →
      CollectionSchema_init (FieldList l) desc kwargs
      = Raise (PartitionKeyException PartitionKeyFieldType))
     ∧ ((is_None (get kwargs "partition_key_field" VNone) = true
         ∨ isinstance_str (get kwargs "partition_key_field" VNone) = true) →
        ((∃ v, inr v ∈ l) →
         CollectionSchema_init (FieldList l) desc kwargs
         = Raise (FieldTypeException FieldType))
        ∧ ((∀ v, inr v ∉ l) →
           ∀ a, kwargs !! "auto_id" = Some a → isinstance_bool a = false →
                CollectionSchema_init (FieldList l) desc kwargs
                = Raise (AutoIDException AutoIDType)))).
Proof.
  intros Hcommon Hvalid.
  destruct (deepcopy_elements l Hcommon Hvalid) as (copies & Hcopies & Hshape).
  split; [reflexivity|].
  unfold CollectionSchema_init. rewrite Hcopies. cbn [mbind result_bind].
  unfold _check_kwargs. split.
  - intros -> ->. reflexivity.
  - intros Hprimary.
    assert (negb (is_None (get kwargs "primary_field" VNone))
            && negb (isinstance_str (get kwargs "primary_field" VNone)) = false) as ->.
    { destruct Hprimary as [-> | ->]; [reflexivity | apply andb_false_r]. }
    split; [intros -> ->; reflexivity|].
    intros Hpartition.
    assert (negb (is_None (get kwargs "partition_key_field" VNone))
            && negb (isinstance_str (get kwargs "partition_key_field" VNone)) = false)
      as ->.
    { destruct Hpartition as [-> | ->]; [reflexivity | apply andb_false_r]. }
    split.
    + intros [v Hv].
      assert (mapR (λ field, match field with
                             | inl f => OK f
                             | inr _ => Raise (FieldTypeException FieldType)
                             end) copies = Raise (FieldTypeException FieldType)) as ->;
        [|reflexivity].
      clear Hcopies. induction Hshape as [|x y l copies Hxy Hshape IH];
        [inversion Hv|].
      destruct x as [f|w], y as [g|w']; try contradiction.
      * apply elem_of_cons in Hv as [[=]|Hv].
        apply Forall_cons in Hvalid as [_ Hvalid].
        change (mapR ?f (inl g :: copies))
          with (y ← f (inl g); ys ← mapR f copies; OK (y :: ys)).
        cbn [mbind result_bind]. rewrite (IH Hvalid Hv). reflexivity.
      * reflexivity.
    + intros Hfields a Ha Hbool.
      assert (∃ fs, mapR (λ field, match field with
                                   | inl f => OK f
                                   | inr _ => Raise (FieldTypeException FieldType)
                                   end) copies = OK fs) as [fs ->].
      { clear Hcopies. induction Hshape as [|x y l copies Hxy Hshape IH]; [eauto|].
        destruct x as [f|w]; [|exfalso; apply (Hfields w); left].
        destruct y as [g|w']; [|contradiction].
        destruct IH as [fs Hfs].
        - apply Forall_cons in Hvalid as [_ Hvalid]. exact Hvalid.
        - intros v Hv. apply (Hfields v). right. exact Hv.
        - exists (g :: fs).
          change (mapR ?f (inl g :: copies))
            with (y ← f (inl g); ys ← mapR f copies; OK (y :: ys)).
          cbn [mbind result_bind]. rewrite Hfs. reflexivity. }
      cbn [mbind result_bind]. rewrite Ha, Hbool. reflexivity.
Qed.

End ArgumentErrors.

Lemma CollectionSchema_init_argument_errors_witness :
  CollectionSchema_init (H := sample) (FieldList [inl id_primary; inr (VInt 3)]) "" ∅
  = Raise (FieldTypeException FieldType).
Proof.
  destruct (CollectionSchema_init_argument_errors (H := sample)
              [inl id_primary; inr (VInt 3)] "" ∅ sample_common_type_params_ok)
    as (_ & _ & Hrest).
  - constructor; [|constructor; [exact I | constructor]].
    apply (plain_field_valid (H := sample)). discriminate.
  - destruct Hrest as [_ Hrest]; [left; reflexivity|].
    destruct Hrest as [Hfield _]; [left; reflexivity|].
    apply Hfield. exists (VInt 3). right. left.
Defined.

(** ** Serialising without side effects *)

Section SideEffects.
Context `{Collaborators}.

(** X22. [FieldSchema.to_dict] can assign to [default_value], but it never
    does so on a field as the constructors leave it: a field built by
    [FieldSchema.__init__], every field of a schema built by
    [CollectionSchema.__init__], and a field appended by [add_field] are
    the same after [to_dict] as before. *)
Theorem to_dict_leaves_fields_unchanged :
  (∀ n dt desc kwargs f,
     FieldSchema_init n dt desc kwargs = OK f → FieldSchema_to_dict_self f = f)
  ∧ (∀ arg desc kwargs s,
       CollectionSchema_init arg desc kwargs = OK s →
       ∀ f, f ∈ fields s → FieldSchema_to_dict_self f = f)
  ∧ (∀ s n dt desc kwargs s',
       (∀ f, f ∈ fields s → FieldSchema_to_dict_self f = f) →
       add_field s n dt desc kwargs = OK s' →
       ∀ f, f ∈ fields s' → FieldSchema_to_dict_self f = f).
Proof.
  split; [|split].
  - intros n dt desc kwargs f Hinit.
    apply to_dict_self_valid, (FieldSchema_init_valid _ _ _ _ _ Hinit).
  - intros arg desc kwargs s Hinit f Hf. apply to_dict_self_valid.
    apply init_OK_inv in Hinit as (fs & gs & -> & Hcopies & Htyped & Hcheck).
    assert (Forall valid_field gs) as Hvalid.
    { apply Forall_forall. intros g Hg. apply list_elem_of_lookup in Hg as [i Hi].
      destruct (Forall2_lookup_r _ _ _ _ _ Hcopies Hi) as (f' & _ & Hcopy).
      exact (deepcopy_valid _ _ Hcopy). }
    destruct (truthy (get kwargs "check_fields" (VBool true))).
    + apply check_fields_OK in Hcheck
        as (fs' & st' & j & p0 & Hloop & _ & _ & _ & _ & ->).
      cbn [cs_kwargs cs_fields] in *. apply loop_flags_raised in Hloop.
      assert (Forall valid_field fs') as Hvalid'.
      { apply Forall_forall. intros g Hg. apply list_elem_of_lookup in Hg as [i Hi].
        destruct (Forall2_lookup_r _ _ _ _ _ Hloop Hi) as (g0 & Hg0 & Hraised).
        apply (flags_raised_valid _ _ Hraised).
        rewrite Forall_forall in Hvalid. apply Hvalid, list_elem_of_lookup. eauto. }
      unfold fields in Hf. cbn [cs_fields] in Hf.
      rewrite Forall_forall in Hvalid'.
      destruct (truthy (get kwargs "auto_id" (VBool false))) eqn:Ha; [|auto].
      apply list_elem_of_lookup in Hf as [i Hi].
      rewrite list_lookup_alter in Hi. destruct (decide (j = i)) as [->|Hne].
      * destruct (fs' !! i) as [g|] eqn:Hg; [|discriminate]. injection Hi as <-.
        destruct Htyped as (_ & _ & [Hnone | [b Hb]]); unfold get in *.
        -- rewrite Hnone in Ha. discriminate.
        -- rewrite Hb. cbn [default]. apply set_auto_id_valid, Hvalid', list_elem_of_lookup.
           eauto.
      * apply Hvalid', list_elem_of_lookup. eauto.
    + subst s. rewrite Forall_forall in Hvalid. apply Hvalid, Hf.
  - intros s n dt desc kwargs s' Hold Hadd f Hf.
    unfold add_field in Hadd. apply bind_OK in Hadd as (g & Hg & [= <-]).
    unfold fields in Hf. cbn [cs_fields] in Hf.
    apply elem_of_app in Hf as [Hf|Hf]; [apply Hold, Hf|].
    apply list_elem_of_singleton in Hf as ->.
    unfold FieldSchema_call in Hg. destruct (existsb _ _); [discriminate|].
    apply to_dict_self_valid, (FieldSchema_init_valid _ _ _ _ _ Hg).
Qed.

End SideEffects.

(** ** Naming the primary key by hint or by flag *)

Lemma set_flags_given (f : FieldSchema) (p k : bool) :
  is_primary f = p → is_partition_key f = k →
  set_is_partition_key k (set_is_primary p f) = f.
Proof. intros <- <-. apply set_flags_same. Qed.

(** Fields that are not flagged and that the names held by the scan do not
    designate are passed over. *)
Lemma loop_plain (fs : list FieldSchema) (i : nat) (st : scan) :
  (∀ f, f ∈ fs → is_primary f = false ∧ is_partition_key f = false
                 ∧ eq_str (primary_field_name st) (name f) = false
                 ∧ eq_str (partition_key_field_name st) (name f) = false) →
  check_fields_loop i fs st = OK (fs, st).
Proof.
  revert i. induction fs as [|f fs IH]; intros i Hplain; [reflexivity|].
  destruct (Hplain f) as (Hp & Hk & Hpn & Hkn); [left|].
  assert (check_field i f st = OK (f, st)) as Hf.
  { apply check_field_OK. cbv zeta. rewrite Hp, Hk, Hpn, Hkn. cbn [orb].
    split; [symmetry; apply set_flags_given; assumption|].
    split; [discriminate|]. split; [discriminate|]. destruct st. reflexivity. }
  cbn [check_fields_loop]. rewrite Hf. cbn [mbind result_bind].
  rewrite IH; [reflexivity|]. intros g Hg. apply Hplain. right. exact Hg.
Qed.

(** The scan of a list with one field flagged primary, named [h], and no
    other field flagged or named [h]: the fields stay as they are. *)
Lemma one_primary_scan (fs : list FieldSchema) (i j : nat) (st : scan)
    (g : FieldSchema) (h : string) :
  primary_field_name st = VNone ∨ primary_field_name st = VStr h →
  partition_key_field_name st = VNone →
  fs !! j = Some g → is_primary g = true → name g = h →
  (∀ k g', fs !! k = Some g' → k ≠ j → is_primary g' = false ∧ name g' ≠ h) →
  (∀ g', g' ∈ fs → is_partition_key g' = false) →
  check_fields_loop i fs st
  = OK (fs, mkScan (VStr h) VNone (Some (i + j)) (partition_ref st)).
Proof.
  revert i j st. induction fs as [|f fs IH]; intros i j st Hpn Hkn Hj Hflag Hname
    Hothers Hnok; [discriminate|].
  assert (is_partition_key f = false) as Hfk by (apply Hnok; left).
  destruct j as [|j].
  - injection Hj as ->.
    assert (check_field i g st
            = OK (g, mkScan (VStr h) VNone (Some i) (partition_ref st))) as Hg.
    { apply check_field_OK. cbv zeta. rewrite Hflag, Hfk, Hkn, Hname. cbn [orb eq_str].
      split; [symmetry; apply set_flags_given; assumption|].
      split; [|split; [discriminate | reflexivity]].
      intros _. destruct Hpn as [-> | ->]; [reflexivity|].
      cbn [is_None orb]. apply eq_str_VStr. }
    cbn [check_fields_loop]. rewrite Hg. cbn [mbind result_bind].
    rewrite loop_plain; [rewrite Nat.add_0_r; reflexivity|].
    intros g' Hg'. apply list_elem_of_lookup in Hg' as [k Hk].
    destruct (Hothers (S k) g' Hk) as [Hp' Hn']; [discriminate|].
    cbn [primary_field_name partition_key_field_name eq_str].
    repeat split; [exact Hp'| |].
    + apply Hnok. right. apply list_elem_of_lookup. eauto.
    + apply String.eqb_neq. congruence.
  - destruct (Hothers 0 f eq_refl) as [Hp' Hn']; [discriminate|].
    assert (check_field i f st = OK (f, st)) as Hf.
    { apply check_field_OK. cbv zeta. rewrite Hp', Hfk, Hkn. cbn [orb eq_str].
      assert (eq_str (primary_field_name st) (name f) = false) as ->.
      { destruct Hpn as [-> | ->]; [reflexivity|]. apply String.eqb_neq. congruence. }
      split; [symmetry; apply set_flags_given; assumption|].
      split; [discriminate|]. split; [discriminate|]. destruct st. simpl in *.
      rewrite Hkn. reflexivity. }
    cbn [check_fields_loop]. rewrite Hf. cbn [mbind result_bind].
    rewrite (IH (S i) j st Hpn Hkn Hj Hflag Hname).
    + cbn [mbind result_bind]. replace (S i + j) with (i + S j) by lia. reflexivity.
    + intros k g' Hk Hkj. apply (Hothers (S k) g' Hk). congruence.
    + intros g' Hg'. apply Hnok. right. exact Hg'.
Qed.

(** [_check_fields] on such a list, with no partition key asked for. *)
Lemma check_fields_one_primary_fields (kwargs : gmap string pyval)
    (fs : list FieldSchema) (desc : string) (e : pyval) (j : nat) (g : FieldSchema) :
  get kwargs "primary_field" VNone = VNone
  ∨ get kwargs "primary_field" VNone = VStr (name g) →
  get kwargs "partition_key_field" VNone = VNone →
  fs !! j = Some g → is_primary g = true → is_key_dtype (dtype g) = true →
  (∀ k g', fs !! k = Some g' → k ≠ j → is_primary g' = false ∧ name g' ≠ name g) →
  (∀ g', g' ∈ fs → is_partition_key g' = false) →
  _check_fields (mkCollectionSchema kwargs fs desc e None None)
  = OK (mkCollectionSchema kwargs
          (if truthy (get kwargs "auto_id" (VBool false))
           then alter (set_auto_id (get kwargs "auto_id" (VBool false))) j fs
           else fs)
          desc e (Some j) None).
Proof.
  intros Hhint Hkhint Hj Hflag Hkey Hothers Hnok.
  unfold _check_fields.
  cbn [cs_kwargs cs_fields cs_description cs_enable_dynamic_field cs_primary_field
       cs_partition_key_field].
  rewrite (one_primary_scan fs 0 j
             (mkScan (get kwargs "primary_field" VNone)
                (get kwargs "partition_key_field" VNone) None None)
             g (name g) Hhint Hkhint Hj Hflag eq_refl Hothers Hnok).
  cbn [mbind result_bind]. cbn [primary_ref partition_ref partition_key_field_name
                                 mbind option_bind Nat.add].
  rewrite Hj. unfold validate_primary_key. rewrite Hkey. reflexivity.
Qed.

Lemma to_dict_set_auto_id (v : pyval) (f g : FieldSchema) :
  FieldSchema_to_dict f = FieldSchema_to_dict g →
  FieldSchema_to_dict (set_auto_id v f) = FieldSchema_to_dict (set_auto_id v g).
Proof.
  destruct f as [fn fd fde ftp fkw fp fdy fa fk fdv],
    g as [gn gd gde gtp gkw gp gdy ga gk gdv].
  unfold FieldSchema_to_dict, set_auto_id, params, dtype. simpl.
  intros Heq. injection Heq as Hn Hd Hdesc Hparams Hp Ha Hk Hdv Hdyn.
  assert (fp = gp) as -> by (destruct fp, gp; congruence).
  congruence.
Qed.

Section HintOrFlag.
Context `{Collaborators}.

Lemma init_checked_copies (fs : list FieldSchema) (desc : string)
    (kwargs : gmap string pyval) :
  common_type_params_ok → Forall valid_field fs →
  kwargs_well_typed kwargs → checked kwargs →
  ∃ gs, Forall2 (λ f g, deepcopy f = OK g) fs gs
        ∧ CollectionSchema_init (FieldList (inl <$> fs)) desc kwargs
          = _check_fields
              (mkCollectionSchema kwargs gs desc
                 (get kwargs "enable_dynamic_field" (VBool false)) None None).
Proof.
  intros Hcommon Hvalid Htyped Hchecked.
  destruct (deepcopy_list fs Hcommon Hvalid) as (gs & Hgs & _ & _).
  exists gs. split; [apply mapR_OK_Forall2, Hgs|].
  unfold CollectionSchema_init.
  rewrite (deepcopy_elem_list _ _ Hgs). cbn [mbind result_bind].
  rewrite (check_kwargs_well_typed _ _ Htyped). cbn [mbind result_bind].
  rewrite Hchecked. reflexivity.
Qed.

Lemma deepcopy_to_dict (f g : FieldSchema) :
  common_type_params_ok → valid_field f → deepcopy f = OK g →
  FieldSchema_to_dict g = FieldSchema_to_dict f.
Proof.
  intros Hcommon Hvalid Hg.
  destruct (construct_from_to_dict f Hcommon Hvalid) as (g' & Hg' & Hdict & _).
  unfold deepcopy in Hg. congruence.
Qed.

Lemma deepcopy_not_primary (f g : FieldSchema) :
  deepcopy f = OK g → is_primary f = false → auto_id g = VBool false.
Proof.
  intros Hg Hp. pose proof (deepcopy_keeps _ _ Hg) as (_ & _ & _ & Hgp & _).
  unfold deepcopy, FieldSchema_construct_from_dict, FieldSchema_call in Hg.
  destruct (existsb _ _); [discriminate|].
  apply FieldSchema_init_OK in Hg
    as (d & p & a & k & dv & _ & _ & _ & _ & Hpa & _ & _ & ->).
  cbn [is_primary auto_id] in *. rewrite Hpa by congruence. reflexivity.
Qed.

(** X23. Naming the primary key by the [primary_field] keyword or by the
    [is_primary] flag comes to the same. For valid fields none of which is
    flagged primary, one of which has dtype [INT64] or [VARCHAR], [auto_id]
    unset and a name no other field bears, constructing the schema with
    [primary_field] set to that name, and constructing it from the same
    fields with that field flagged, both return, and the two schemas
    compare equal. *)
Theorem primary_hint_or_flag (fs : list FieldSchema) (desc : string)
    (kwargs : gmap string pyval) (j : nat) (f0 : FieldSchema) :
  common_type_params_ok → Forall valid_field fs →
  kwargs_well_typed kwargs → checked kwargs → no_partition_key kwargs fs →
  kwargs !! "primary_field" = None →
  fs !! j = Some f0 → is_primary f0 = false → auto_id f0 = VBool false →
  is_key_dtype (dtype f0) = true →
  (∀ i g, fs !! i = Some g → i ≠ j → is_primary g = false ∧ name g ≠ name f0) →
  ∃ s1 s2,
    CollectionSchema_init (FieldList (inl <$> fs)) desc
      (<[ "primary_field" := VStr (name f0) ]> kwargs) = OK s1
    ∧ CollectionSchema_init
        (FieldList (inl <$> alter (set_is_primary true) j fs)) desc kwargs = OK s2
    ∧ CollectionSchema_eq s1 s2 = OK true.
Proof.
  intros Hcommon Hvalid Htyped Hchecked [Hkhint Hnok] Hnohint Hj Hp0 Ha0 Hkey Hothers.
  set (kwargs1 := <[ "primary_field" := VStr (name f0) ]> kwargs).
  assert (∀ k d, k ≠ "primary_field" → get kwargs1 k d = get kwargs k d) as Hget.
  { intros k d Hk. unfold get, kwargs1. rewrite lookup_insert_ne by congruence.
    reflexivity. }
  assert (get kwargs1 "primary_field" VNone = VStr (name f0)) as Hhint.
  { unfold get, kwargs1. rewrite lookup_insert_eq. reflexivity. }
  assert (kwargs_well_typed kwargs1) as Htyped1.
  { destruct Htyped as (_ & Hk & Ha). split; [right; eauto|].
    split; [rewrite Hget by discriminate; exact Hk|].
    unfold kwargs1. rewrite lookup_insert_ne by discriminate. exact Ha. }
  assert (checked kwargs1) as Hchecked1.
  { unfold checked. rewrite Hget by discriminate. exact Hchecked. }
  set (fs2 := alter (set_is_primary true) j fs).
  assert (Forall valid_field fs2) as Hvalid2.
  { apply Forall_forall. intros f Hf. apply list_elem_of_lookup in Hf as [i Hi].
    unfold fs2 in Hi. rewrite list_lookup_alter in Hi.
    rewrite Forall_forall in Hvalid.
    destruct (decide (j = i)) as [->|Hne].
    - rewrite Hj in Hi. injection Hi as <-.
      assert (valid_field f0) as Hf0 by (apply Hvalid, list_elem_of_lookup; eauto).
      destruct f0. exact Hf0.
    - apply Hvalid, list_elem_of_lookup. eauto. }
  destruct (init_checked_copies fs desc kwargs1 Hcommon Hvalid Htyped1 Hchecked1)
    as (gs1 & Hcopies1 & ->).
  destruct (init_checked_copies fs2 desc kwargs Hcommon Hvalid2 Htyped Hchecked)
    as (gs2 & Hcopies2 & ->).
  destruct (Forall2_lookup_l _ _ _ _ _ Hcopies1 Hj) as (g1 & Hg1 & Hcopy1).
  assert (fs2 !! j = Some (set_is_primary true f0)) as Hj2.
  { unfold fs2. rewrite list_lookup_alter, decide_True by reflexivity.
    rewrite Hj. reflexivity. }
  destruct (Forall2_lookup_l _ _ _ _ _ Hcopies2 Hj2) as (g2 & Hg2 & Hcopy2).
  assert (valid_field f0) as Hf0.
  { rewrite Forall_forall in Hvalid. apply Hvalid, list_elem_of_lookup. eauto. }
  assert (valid_field (set_is_primary true f0)) as Hf0'.
  { rewrite Forall_forall in Hvalid2. apply Hvalid2, list_elem_of_lookup. eauto. }
  pose proof (deepcopy_to_dict _ _ Hcommon Hf0 Hcopy1) as Hdict1.
  pose proof (deepcopy_to_dict _ _ Hcommon Hf0' Hcopy2) as Hdict2.
  pose proof (deepcopy_not_primary _ _ Hcopy1 Hp0) as Hauto1.
  pose proof (deepcopy_keeps _ _ Hcopy1) as (Hn1 & Hd1 & _ & Hp1 & Hk1).
  pose proof (deepcopy_keeps _ _ Hcopy2) as (Hn2 & Hd2 & _ & Hp2 & Hk2).
  cbn [name dtype _dtype is_primary is_partition_key set_is_primary] in Hn2, Hd2, Hp2, Hk2.
  (* the copies, away from position [j] *)
  assert (∀ i g, i ≠ j → (gs1 !! i = Some g ∨ gs2 !! i = Some g) →
                 is_primary g = false ∧ name g ≠ name f0
                 ∧ is_partition_key g = false) as Hrest.
  { intros i g Hij [Hg | Hg].
    - destruct (Forall2_lookup_r _ _ _ _ _ Hcopies1 Hg) as (f & Hf & Hcopy).
      pose proof (deepcopy_keeps _ _ Hcopy) as (Hn & _ & _ & Hp & Hk).
      destruct (Hothers i f Hf Hij) as [Hfp Hfn].
      rewrite Hn, Hp, Hk. repeat split; [exact Hfp | exact Hfn|].
      apply Hnok, list_elem_of_lookup. eauto.
    - destruct (Forall2_lookup_r _ _ _ _ _ Hcopies2 Hg) as (f & Hf & Hcopy).
      pose proof (deepcopy_keeps _ _ Hcopy) as (Hn & _ & _ & Hp & Hk).
      unfold fs2 in Hf. rewrite list_lookup_alter_ne in Hf by congruence.
      destruct (Hothers i f Hf Hij) as [Hfp Hfn].
      rewrite Hn, Hp, Hk. repeat split; [exact Hfp | exact Hfn|].
      apply Hnok, list_elem_of_lookup. eauto. }
  assert (is_partition_key f0 = false) as Hk0 by (apply Hnok, list_elem_of_lookup; eauto).
  (* first construction: the hint flags the copy at position [j] *)
  set (e1 := get kwargs1 "enable_dynamic_field" (VBool false)).
  set (e := get kwargs "enable_dynamic_field" (VBool false)).
  assert (e1 = e) as He by (apply Hget; discriminate).
  set (a := get kwargs "auto_id" (VBool false)).
  assert (get kwargs1 "auto_id" (VBool false) = a) as Ha1 by (apply Hget; discriminate).
  set (L1 := alter (set_is_primary true) j gs1).
  assert (_check_fields (mkCollectionSchema kwargs1 gs1 desc e1 None None)
          = OK (mkCollectionSchema kwargs1
                  (if truthy a then alter (set_auto_id a) j L1 else L1)
                  desc e1 (Some j) None)) as ->.
  { assert (_check_fields (mkCollectionSchema kwargs1 gs1 desc e1 None None)
            = _check_fields (mkCollectionSchema kwargs1 L1 desc e1 None None)) as ->.
    { unfold _check_fields.
      cbn [cs_kwargs cs_fields cs_description cs_enable_dynamic_field cs_primary_field
           cs_partition_key_field].
      unfold L1. rewrite (loop_alter_named gs1 0 j _ g1 (name f0));
        [reflexivity | exact Hhint | exact Hg1 | exact Hn1]. }
    rewrite <- Ha1.
    apply (check_fields_one_primary_fields kwargs1 L1 desc e1 j (set_is_primary true g1)).
    - right. cbn [name set_is_primary]. rewrite Hhint, Hn1. reflexivity.
    - rewrite Hget by discriminate. exact Hkhint.
    - unfold L1. rewrite list_lookup_alter, decide_True by reflexivity.
      rewrite Hg1. reflexivity.
    - reflexivity.
    - change (dtype (set_is_primary true g1)) with (dtype g1). congruence.
    - intros i g Hg Hij. unfold L1 in Hg. rewrite list_lookup_alter_ne in Hg by congruence.
      destruct (Hrest i g Hij (or_introl Hg)) as (Hgp & Hgn & _).
      cbn [name set_is_primary]. split; congruence.
    - intros g Hg. apply list_elem_of_lookup in Hg as [i Hi]. unfold L1 in Hi.
      rewrite list_lookup_alter in Hi. destruct (decide (j = i)) as [->|Hne].
      + rewrite Hg1 in Hi. injection Hi as <-. cbn [is_partition_key set_is_primary].
        congruence.
      + apply (Hrest i g); [congruence | left; exact Hi]. }
  (* second construction: the copy at position [j] is flagged *)
  assert (_check_fields (mkCollectionSchema kwargs gs2 desc e None None)
          = OK (mkCollectionSchema kwargs
                  (if truthy a then alter (set_auto_id a) j gs2 else gs2)
                  desc e (Some j) None)) as ->.
  { apply (check_fields_one_primary_fields kwargs gs2 desc e j g2).
    - left. unfold get. rewrite Hnohint. reflexivity.
    - exact Hkhint.
    - exact Hg2.
    - exact Hp2.
    - rewrite Hd2. exact Hkey.
    - intros i g Hg Hij. destruct (Hrest i g Hij (or_intror Hg)) as (Hgp & Hgn & _).
      split; congruence.
    - intros g Hg. apply list_elem_of_lookup in Hg as [i Hi].
      destruct (decide (i = j)) as [->|Hne].
      + rewrite Hg2 in Hi. injection Hi as <-. congruence.
      + apply (Hrest i g Hne). right. exact Hi. }
  do 2 eexists. split; [reflexivity|]. split; [reflexivity|].
  (* the two results serialise alike *)
  assert (Forall2 (λ x y, FieldSchema_to_dict x = FieldSchema_to_dict y) L1 gs2) as Hsame.
  { apply Forall2_same_length_lookup. split.
    - unfold L1. rewrite length_alter.
      rewrite <- (Forall2_length _ _ _ Hcopies1), <- (Forall2_length _ _ _ Hcopies2).
      unfold fs2. rewrite length_alter. reflexivity.
    - intros i x y Hx Hy. unfold L1 in Hx. rewrite list_lookup_alter in Hx.
      destruct (decide (j = i)) as [<-|Hne].
      + rewrite Hg1 in Hx. injection Hx as <-. rewrite Hg2 in Hy. injection Hy as <-.
        rewrite Hdict2. clear -Hdict1 Hauto1 Ha0.
        destruct g1 as [gn gd gde gtp gkw gp gdy ga gk gdv],
          f0 as [fn fd fde ftp fkw fp fdy fa fk fdv].
        unfold FieldSchema_to_dict, set_is_primary, params, dtype in *. simpl in *.
        injection Hdict1 as Hn Hd Hdesc Hparams Hp Ha Hk Hdv Hdyn. congruence.
      + destruct (Forall2_lookup_r _ _ _ _ _ Hcopies1 Hx) as (f & Hf & Hcopy).
        destruct (Forall2_lookup_r _ _ _ _ _ Hcopies2 Hy) as (f' & Hf' & Hcopy').
        unfold fs2 in Hf'. rewrite list_lookup_alter_ne in Hf' by exact Hne.
        rewrite Hf in Hf'. injection Hf' as <-.
        assert (valid_field f) as Hfv.
        { rewrite Forall_forall in Hvalid. apply Hvalid, list_elem_of_lookup. eauto. }
        rewrite (deepcopy_to_dict _ _ Hcommon Hfv Hcopy),
          (deepcopy_to_dict _ _ Hcommon Hfv Hcopy'). reflexivity. }
  assert (Forall2 (λ x y, FieldSchema_to_dict x = FieldSchema_to_dict y)
            (if truthy a then alter (set_auto_id a) j L1 else L1)
            (if truthy a then alter (set_auto_id a) j gs2 else gs2)) as Hsame'.
  { destruct (truthy a); [|exact Hsame].
    apply Forall2_same_length_lookup. split.
    - rewrite !length_alter. eapply Forall2_length, Hsame.
    - intros i x y Hx Hy. rewrite list_lookup_alter in Hx, Hy.
      destruct (decide (j = i)) as [<-|Hne].
      + destruct (L1 !! j) as [x0|] eqn:Hx0; [|discriminate]. injection Hx as <-.
        destruct (gs2 !! j) as [y0|] eqn:Hy0; [|discriminate]. injection Hy as <-.
        apply to_dict_set_auto_id.
        destruct (Forall2_lookup_l _ _ _ _ _ Hsame Hx0) as (y1 & Hy1 & Hxy). congruence.
      + destruct (Forall2_lookup_l _ _ _ _ _ Hsame Hx) as (y1 & Hy1 & Hxy). congruence. }
  set (F1 := if truthy a then alter (set_auto_id a) j L1 else L1) in *.
  set (F2 := if truthy a then alter (set_auto_id a) j gs2 else gs2) in *.
  assert (∃ p1, F1 !! j = Some p1 ∧ is_primary p1 = true) as (p1 & Hp1' & Hprim1).
  { assert (L1 !! j = Some (set_is_primary true g1)) as HL1.
    { unfold L1. rewrite list_lookup_alter, decide_True by reflexivity.
      rewrite Hg1. reflexivity. }
    unfold F1. destruct (truthy a).
    - eexists. rewrite list_lookup_alter, decide_True by reflexivity.
      rewrite HL1. split; reflexivity.
    - eexists. split; [exact HL1 | reflexivity]. }
  destruct (Forall2_lookup_l _ _ _ _ _ Hsame' Hp1') as (p2 & Hp2' & Hp12).
  unfold CollectionSchema_eq, CollectionSchema_to_dict, CollectionSchema_auto_id,
    primary_field.
  cbn [cs_kwargs cs_fields cs_description cs_enable_dynamic_field cs_primary_field
       cs_partition_key_field mbind option_bind].
  rewrite Hp1', Hp2'. cbn [mbind result_bind]. f_equal. apply bool_decide_eq_true_2.
  apply to_dict_eq_inv in Hp12 as Hinv. destruct Hinv as (_ & _ & _ & _ & Hauto).
  rewrite (Hauto Hprim1), He. f_equal.
  clear -Hsame'. induction Hsame' as [|x y l k Hxy _ IH]; [reflexivity|].
  rewrite !fmap_cons, Hxy, IH. reflexivity.
Qed.

End HintOrFlag.

Lemma primary_hint_or_flag_witness :
  ∃ s1 s2,
    CollectionSchema_init (H := sample) (FieldList (inl <$> [id_field; vec_field])) ""
      (<[ "primary_field" := VStr (name id_field) ]> ∅) = OK s1
    ∧ CollectionSchema_init (H := sample)
        (FieldList (inl <$> alter (set_is_primary true) 0 [id_field; vec_field])) "" ∅
      = OK s2
    ∧ CollectionSchema_eq s1 s2 = OK true.
Proof.
  apply (primary_hint_or_flag (H := sample) [id_field; vec_field] "" ∅ 0 id_field
           sample_common_type_params_ok).
  - constructor; [|constructor; [|constructor]].
    + apply (plain_field_valid (H := sample)). discriminate.
    + exact vec_field_valid.
  - repeat split; left; reflexivity.
  - reflexivity.
  - split; [reflexivity|]. intros f Hf.
    apply elem_of_cons in Hf as [->|Hf]; [reflexivity|].
    apply elem_of_cons in Hf as [->|Hf]; [reflexivity|]. inversion Hf.
  - reflexivity.
  - reflexivity.
  - reflexivity.
  - reflexivity.
  - reflexivity.
  - intros i g Hg Hi. destruct i as [|[|i]]; [congruence| |discriminate].
    injection Hg as <-. split; [reflexivity | discriminate].
Defined.

(** ** A schema from the fields of a frame *)

Section FrameSchema.
Context `{Collaborators}.

(** X24. The fields [construct_fields_from_dataframe] yields do not make a
    schema by themselves, as none of them is flagged primary: constructing
    a [CollectionSchema] from them, with the field checks on and no
    partition key asked for, raises [PrimaryKeyException] (no primary key)
    unless the [primary_field] keyword names one of the columns. When it
    names exactly one column, of dtype [INT64] or [VARCHAR], construction
    returns, and the field of that column is the primary field. *)
Theorem frame_fields_need_primary_hint (df : DataFrame) (fs : list FieldSchema)
    (desc : string) (kwargs : gmap string pyval) :
  common_type_params_ok →
  construct_fields_from_dataframe df = OK fs →
  kwargs_well_typed kwargs → checked kwargs →
  get kwargs "partition_key_field" VNone = VNone →
  name <$> fs = columns df
  ∧ (get kwargs "primary_field" VNone = VNone →
     CollectionSchema_init (FieldList (inl <$> fs)) desc kwargs
     = Raise (PrimaryKeyException PrimaryKeyNotExist))
  ∧ (∀ h, get kwargs "primary_field" VNone = VStr h → h ∉ columns df →
          CollectionSchema_init (FieldList (inl <$> fs)) desc kwargs
          = Raise (PrimaryKeyException PrimaryKeyNotExist))
  ∧ (∀ h j f0, get kwargs "primary_field" VNone = VStr h →
               fs !! j = Some f0 → name f0 = h → is_key_dtype (dtype f0) = true →
               (∀ i, columns df !! i = Some h → i = j) →
               ∃ s p, CollectionSchema_init (FieldList (inl <$> fs)) desc kwargs = OK s
                      ∧ cs_primary_field s = Some j ∧ primary_field s = Some p
                      ∧ name p = h ∧ dtype p = dtype f0 ∧ is_primary p = true).
Proof.
  intros Hcommon Hconstruct Htyped Hchecked Hkhint.
  assert (∃ names types m, prepare_fields_from_dataframe df = OK (names, types, m))
    as (names & types & m & Hprep).
  { unfold construct_fields_from_dataframe in Hconstruct.
    destruct (prepare_fields_from_dataframe df) as [[[names types] m]|]; [eauto|].
    discriminate. }
  destruct (construct_fields_from_dataframe_plain df names types m Hprep)
    as (fs' & Hfs' & Hnames & _ & Hflags).
  rewrite Hconstruct in Hfs'. injection Hfs' as <-.
  assert (Forall valid_field fs) as Hvalid.
  { unfold construct_fields_from_dataframe in Hconstruct. rewrite Hprep in Hconstruct.
    cbn [mbind result_bind] in Hconstruct. apply mapR_OK_Forall2 in Hconstruct.
    apply Forall_forall. intros f Hf. apply list_elem_of_lookup in Hf as [i Hi].
    destruct (Forall2_lookup_r _ _ _ _ _ Hconstruct Hi) as ([n d] & _ & Hnew).
    unfold new_field, FieldSchema_call in Hnew. destruct (existsb _ _); [discriminate|].
    exact (FieldSchema_init_valid _ _ _ _ _ Hnew). }
  rewrite Forall_forall in Hflags.
  assert (no_partition_key kwargs fs) as Hnok.
  { split; [exact Hkhint|]. intros f Hf. apply (Hflags f Hf). }
  destruct (init_checked fs desc kwargs Hcommon Hvalid Htyped Hchecked)
    as (gs & Hcopies & Hinit).
  assert (∀ g, g ∈ gs → is_primary g = false ∧ is_partition_key g = false
                        ∧ name g ∈ columns df) as Hgs.
  { intros g Hg. apply list_elem_of_lookup in Hg as [i Hi].
    destruct (Forall2_lookup_r _ _ _ _ _ Hcopies Hi) as (f & Hf & Hdict).
    apply to_dict_eq_inv in Hdict as (Hn & _ & Hp & Hk & _).
    assert (f ∈ fs) as Hin by (apply list_elem_of_lookup; eauto).
    destruct (Hflags f Hin) as [Hfp Hfk]. rewrite Hn, Hp, Hk.
    repeat split; [exact Hfp | exact Hfk|].
    rewrite <- Hnames. apply list_elem_of_fmap. eauto. }
  assert (∀ hint, get kwargs "primary_field" VNone = hint →
                  (hint = VNone ∨ ∃ h, hint = VStr h ∧ h ∉ columns df) →
                  CollectionSchema_init (FieldList (inl <$> fs)) desc kwargs
                  = Raise (PrimaryKeyException PrimaryKeyNotExist)) as Hnone.
  { intros hint Hhint Hcases. rewrite Hinit.
    apply check_fields_no_primary; cbn [cs_kwargs cs_fields cs_primary_field].
    - reflexivity.
    - rewrite Hhint. destruct Hcases as [-> | (h & -> & _)]; eauto.
    - intros g Hg. destruct (Hgs g Hg) as (Hp & _ & Hcol). split; [exact Hp|].
      rewrite Hhint. destruct Hcases as [-> | (h & -> & Hh)]; [reflexivity|].
      apply String.eqb_neq. intros ->. contradiction.
    - split; [exact Hkhint|]. intros g Hg. apply (Hgs g Hg). }
  split; [exact Hnames|]. split; [|split].
  - intros Hhint. apply (Hnone VNone Hhint). left. reflexivity.
  - intros h Hhint Hh. apply (Hnone (VStr h) Hhint). right. eauto.
  - intros h j f0 Hhint Hj Hname Hkey Hunique.
    apply (hint_resolves fs desc kwargs j f0 h Hcommon Hvalid Htyped Hchecked Hnok
             Hhint Hj Hname Hkey).
    intros i g Hg Hij.
    assert (g ∈ fs) as Hin by (apply list_elem_of_lookup; eauto).
    split; [apply (Hflags g Hin)|]. intros Hgn. apply Hij, Hunique.
    rewrite <- Hnames, list_lookup_fmap, Hg. cbn. congruence.
Qed.

End FrameSchema.

Lemma frame_fields_need_primary_hint_witness :
  ∃ fs, construct_fields_from_dataframe (H := sample) swapped_frame = OK fs
        ∧ CollectionSchema_init (H := sample) (FieldList (inl <$> fs)) "" ∅
          = Raise (PrimaryKeyException PrimaryKeyNotExist).
Proof.
  eexists. split; [reflexivity|].
  epose proof (frame_fields_need_primary_hint (H := sample) swapped_frame _ "" ∅
                 sample_common_type_params_ok) as Hframe.
  destruct Hframe as (_ & Hnone & _).
  - reflexivity.
  - repeat split; left; reflexivity.
  - reflexivity.
  - reflexivity.
  - apply Hnone. reflexivity.
Defined.
